(** * Legal document assistant: execution engine

    A shallow embedding of the execution engine of the legal document
    assistant (rate limiters, retry wrapper with response cache, dispatch
    agent, task scheduler, workflow entry point) and the properties the
    specification states about it.

    Conventions of the embedding.
    - Python floats that hold seconds are exact rationals ([Q]); rounding of
      floating-point arithmetic is outside the model.
    - [time.time] and [time.sleep] act on an explicit [Clock]: the clock
      carries the list of delays the environment adds at each clock
      operation, so that a run is a function of its inputs.
    - Stateful code is written in the monad [Py W] (state [W] plus Python
      exceptions); [try_except] is the [try: ... except Exception] block.
    - Logging and the monitoring callbacks have no effect on the modelled
      state and are left out. *)

From Stdlib Require Import ZArith QArith Qminmax Lqa Lia List Bool.
From stdpp Require Import gmap strings list pretty.

Open Scope string_scope.
Open Scope list_scope.

(** ** Python exceptions and the [Py] monad *)

Inductive ExcClass :=
| ClientErrorC        (* google.genai.errors.ClientError *)
| ServiceErrorC       (* any other exception raised by the model client *)
| RequestExceptionC   (* requests.RequestException and its subclasses *)
| ValueErrorC
| IndexErrorC
| RuntimeErrorC
| OtherErrorC.

Record PyExc := {
  exc_class : ExcClass;
  status_code : option Z;   (* getattr(error, "status_code", None) *)
  exc_str : string          (* str(error) *)
}.

Definition IndexError (msg : string) : PyExc :=
  {| exc_class := IndexErrorC; status_code := None; exc_str := msg |}.
Definition ValueError (msg : string) : PyExc :=
  {| exc_class := ValueErrorC; status_code := None; exc_str := msg |}.
Definition RuntimeError (msg : string) : PyExc :=
  {| exc_class := RuntimeErrorC; status_code := None; exc_str := msg |}.

Inductive Result (A : Type) :=
| Val (a : A)
| Exc (e : PyExc).
Arguments Val {A} a.
Arguments Exc {A} e.

Definition Py (W A : Type) : Type := W -> Result A * W.

Definition ret {W A} (a : A) : Py W A := fun w => (Val a, w).
Definition raise {W A} (e : PyExc) : Py W A := fun w => (Exc e, w).
Definition bind {W A B} (m : Py W A) (k : A -> Py W B) : Py W B :=
  fun w => match m w with
           | (Val a, w') => k a w'
           | (Exc e, w') => (Exc e, w')
           end.
Definition get {W} : Py W W := fun w => (Val w, w).
Definition modify {W} (f : W -> W) : Py W unit := fun w => (Val tt, f w).

(** [try: body except Exception as exc: handler exc] *)
Definition try_except {W A} (body : Py W A) (handler : PyExc -> Py W A) : Py W A :=
  fun w => match body w with
           | (Val a, w') => (Val a, w')
           | (Exc e, w') => handler e w'
           end.

(** [m] keeps the property [P] of the state, whether it returns or raises. *)
Definition preserves {W A} (P : W -> Prop) (m : Py W A) : Prop :=
  forall w, P w -> P (snd (m w)).

(** [m] leaves the component [f] of the state as it was. *)
Definition keeps {W A B} (f : W -> B) (m : Py W A) : Prop :=
  forall w, f (snd (m w)) = f w.

(** Started in a state with [P], [m] ends with result [r] in a state [w]
    such that [Q r w]. *)
Definition hoare {W A} (P : W -> Prop) (m : Py W A) (Q : Result A -> W -> Prop) : Prop :=
  forall w, P w -> Q (fst (m w)) (snd (m w)).

(** The postcondition "returns [a] with [R a]; never raises". *)
Definition returns {W A} (R : A -> W -> Prop) : Result A -> W -> Prop :=
  fun r w => match r with Val a => R a w | Exc _ => False end.

(** [m] returns, whatever the state it starts in. *)
Definition never_raises {W A} (m : Py W A) : Prop :=
  forall w, exists a, fst (m w) = Val a.

Declare Scope py_scope.
Delimit Scope py_scope with py.
Notation "x <- c ;; k" := (bind c (fun x => k))
  (at level 100, c at next level, right associativity) : py_scope.
Notation "c ;; k" := (bind c (fun _ => k))
  (at level 100, right associativity) : py_scope.

(** ** Time *)

(** Python's [max] on two floats. *)
Definition fmax (a b : Q) : Q := if Qlt_le_dec a b then b else a.

Record Clock := {
  clock_now : Q;           (* the current reading of time.time() *)
  clock_drift : list Q     (* delay added by the environment at each clock operation *)
}.

(** [d] seconds pass, plus whatever the environment adds. *)
Definition elapse (d : Q) (c : Clock) : Clock :=
  match clock_drift c with
  | [] => {| clock_now := clock_now c + d; clock_drift := [] |}
  | j :: js => {| clock_now := clock_now c + d + j; clock_drift := js |}
  end.

Definition steady (c : Clock) : Prop := Forall (fun j => 0 <= j)%Q (clock_drift c).

(** The clock [c'] is [c] some time later. *)
Definition later (c c' : Clock) : Prop :=
  steady c -> steady c' /\ (clock_now c <= clock_now c')%Q.

(** ** Sliding-window bookkeeping shared by both rate limiters *)

(** [while h and h[0] < window_start: h.popleft()] *)
Fixpoint popleft_while (window_start : Q) (h : list Q) : list Q :=
  match h with
  | [] => []
  | x :: t => if Qlt_le_dec x window_start then popleft_while window_start t else h
  end.

(** Grants recorded in the trailing 60-second window that ends at [t]. *)
Definition in_window (t g : Q) : bool :=
  if Qlt_le_dec (t - 60) g then (if Qlt_le_dec t g then false else true) else false.

Fixpoint count_if (p : Q -> bool) (l : list Q) : nat :=
  match l with
  | [] => 0
  | x :: t => if p x then S (count_if p t) else count_if p t
  end.

Definition window_count (granted : list Q) (t : Q) : nat :=
  count_if (in_window t) granted.

(** No two grants closer than [min_interval] (the list is chronological). *)
Definition spaced (min_interval : Q) (granted : list Q) : Prop :=
  forall (i j : nat) (a b : Q),
    (i < j)%nat -> granted !! i = Some a -> granted !! j = Some b ->
    (a + min_interval <= b)%Q.

(** No trailing 60-second window holds more than [rpm_limit] grants. *)
Definition window_bounded (rpm_limit : Z) (granted : list Q) : Prop :=
  forall t : Q, (Z.of_nat (window_count granted t) <= rpm_limit)%Z.


(** What the limiter's variables say about the grants made so far:
    [history] is the part of [granted] that was not yet discarded, and
    whatever was discarded has left the window. *)
Record limiter_inv (min_interval : Q) (rpm_limit : Z)
    (granted history : list Q) (last now : Q) : Prop := {
  inv_suffix : exists dropped,
      granted = dropped ++ history /\ Forall (fun g => g <= now - 60)%Q dropped;
  inv_le_last : Forall (fun g => g <= last)%Q granted;
  inv_le_now : Forall (fun g => g <= now)%Q granted;
  inv_spaced : spaced min_interval granted;
  inv_window : window_bounded rpm_limit granted
}.

(** Grants later than [t - 60]. *)
Definition after (t g : Q) : bool :=
  if Qlt_le_dec (t - 60) g then true else false.

(** ** Configuration (src/config.py of the two services) *)

(** The environment variables the configuration reads, after [int()] and
    [float()] parsed them; [None] is a variable that is not set. *)
Record Environ := {
  env_LLM_RPM_LIMIT : option Z;
  env_LLM_MIN_CALL_INTERVAL : option Q;
  env_LLM_MAX_RETRY_ATTEMPTS : option Z;
  env_FORCE_SEQUENTIAL_EXECUTION : option bool;
  env_ENABLE_A2A_DISPATCH : option bool
}.

Definition empty_environ : Environ :=
  {| env_LLM_RPM_LIMIT := None;
     env_LLM_MIN_CALL_INTERVAL := None;
     env_LLM_MAX_RETRY_ATTEMPTS := None;
     env_FORCE_SEQUENTIAL_EXECUTION := None;
     env_ENABLE_A2A_DISPATCH := None |}.

(** legal-doc-processor-a/src/config.py *)
Module ConfigA.

Definition LLM_RPM_LIMIT (env : Environ) : Z :=
  Z.max (default 8%Z (env_LLM_RPM_LIMIT env)) 1.

Definition LLM_MIN_CALL_INTERVAL (env : Environ) : Q :=
  default (fmax (60 / inject_Z (LLM_RPM_LIMIT env)) 8)%Q
          (env_LLM_MIN_CALL_INTERVAL env).

Definition LLM_MAX_RETRY_ATTEMPTS (env : Environ) : Z :=
  default 5%Z (env_LLM_MAX_RETRY_ATTEMPTS env).

Definition FORCE_SEQUENTIAL_EXECUTION (env : Environ) : bool :=
  default true (env_FORCE_SEQUENTIAL_EXECUTION env).

Definition ENABLE_A2A_DISPATCH (env : Environ) : bool :=
  default true (env_ENABLE_A2A_DISPATCH env).

End ConfigA.

(** legal-compliance-advisor-b/src/config.py *)
Module ConfigB.

Definition LLM_RPM_LIMIT (env : Environ) : Z :=
  Z.max (default 4%Z (env_LLM_RPM_LIMIT env)) 1.

Definition LLM_MIN_CALL_INTERVAL (env : Environ) : Q :=
  default (fmax (60 / inject_Z (LLM_RPM_LIMIT env)) 15)%Q
          (env_LLM_MIN_CALL_INTERVAL env).

End ConfigB.

(** ** The process-wide limiter (src/utils/global_llm_rate_limiter.py) *)

Module GlobalLimiter.

Local Open Scope Q_scope.

(** [generate_content] as the client library ships it, or wrapped by
    [_wrap_sync_method] / [_wrap_async_method] (the wrapper carries the
    attribute [_global_llm_wrapped]). *)
Inductive Method := Original | RateLimited.

(** A class of [google.genai.models]; the method may be missing. *)
Record PyClass := { generate_content : option Method }.

Record GenaiModels := {
  Models : option PyClass;
  AsyncModels : option PyClass
}.

Record World := {
  clock : Clock;
  (* module globals *)
  _REQUEST_HISTORY : list Q;      (* deque, oldest entry first *)
  _LAST_REQUEST_TS : Q;
  _MIN_INTERVAL : Q;
  _RPM_LIMIT : Z;
  _PATCH_INSTALLED : bool;
  (* [import google.genai.models]; [None] when the import raises *)
  genai_models : option GenaiModels;
  (* every timestamp passed to [_record_request], oldest first *)
  granted : list Q
}.

Definition set_clock (c : Clock) (w : World) : World :=
  {| clock := c; _REQUEST_HISTORY := _REQUEST_HISTORY w;
     _LAST_REQUEST_TS := _LAST_REQUEST_TS w; _MIN_INTERVAL := _MIN_INTERVAL w;
     _RPM_LIMIT := _RPM_LIMIT w; _PATCH_INSTALLED := _PATCH_INSTALLED w;
     genai_models := genai_models w; granted := granted w |}.

Definition set_history (h : list Q) (w : World) : World :=
  {| clock := clock w; _REQUEST_HISTORY := h;
     _LAST_REQUEST_TS := _LAST_REQUEST_TS w; _MIN_INTERVAL := _MIN_INTERVAL w;
     _RPM_LIMIT := _RPM_LIMIT w; _PATCH_INSTALLED := _PATCH_INSTALLED w;
     genai_models := genai_models w; granted := granted w |}.

Definition set_limits (min_interval : Q) (rpm_limit : Z) (w : World) : World :=
  {| clock := clock w; _REQUEST_HISTORY := _REQUEST_HISTORY w;
     _LAST_REQUEST_TS := _LAST_REQUEST_TS w; _MIN_INTERVAL := min_interval;
     _RPM_LIMIT := rpm_limit; _PATCH_INSTALLED := _PATCH_INSTALLED w;
     genai_models := genai_models w; granted := granted w |}.

Definition set_genai_models (g : option GenaiModels) (w : World) : World :=
  {| clock := clock w; _REQUEST_HISTORY := _REQUEST_HISTORY w;
     _LAST_REQUEST_TS := _LAST_REQUEST_TS w; _MIN_INTERVAL := _MIN_INTERVAL w;
     _RPM_LIMIT := _RPM_LIMIT w; _PATCH_INSTALLED := _PATCH_INSTALLED w;
     genai_models := g; granted := granted w |}.

Definition set_installed (b : bool) (w : World) : World :=
  {| clock := clock w; _REQUEST_HISTORY := _REQUEST_HISTORY w;
     _LAST_REQUEST_TS := _LAST_REQUEST_TS w; _MIN_INTERVAL := _MIN_INTERVAL w;
     _RPM_LIMIT := _RPM_LIMIT w; _PATCH_INSTALLED := b;
     genai_models := genai_models w; granted := granted w |}.

(** The module as imported: no request yet, limits 1.0 s and 60 per minute. *)
Definition module_init (c : Clock) (g : option GenaiModels) : World :=
  {| clock := c; _REQUEST_HISTORY := []; _LAST_REQUEST_TS := 0;
     _MIN_INTERVAL := 1; _RPM_LIMIT := 60; _PATCH_INSTALLED := false;
     genai_models := g; granted := [] |}.

(** [time.time()] *)
Definition time_time : Py World Q :=
  fun w => let c := elapse 0 (clock w) in (Val (clock_now c), set_clock c w).

(** [time.sleep(secs)] *)
Definition time_sleep (secs : Q) : Py World unit :=
  fun w => if Qlt_le_dec secs 0
           then (Exc (ValueError "sleep length must be non-negative"), w)
           else (Val tt, set_clock (elapse secs (clock w)) w).

Definition _compute_wait (now : Q) : Py World Q :=
  (w <- get ;;
   let wait_interval := (_LAST_REQUEST_TS w + _MIN_INTERVAL w) - now in
   let window_start := now - 60 in
   let history := popleft_while window_start (_REQUEST_HISTORY w) in
   modify (set_history history) ;;
   wait_window <-
     (if (_RPM_LIMIT w <=? Z.of_nat (length history))%Z
      then match history with
           | oldest :: _ => ret (fmax 0 (60 - (now - oldest)))
           | [] => raise (IndexError "deque index out of range")
           end
      else ret 0) ;;
   ret (fmax (fmax wait_interval wait_window) 0))%py.

Definition _record_request (ts : Q) : Py World unit :=
  modify (fun w =>
    {| clock := clock w; _REQUEST_HISTORY := _REQUEST_HISTORY w ++ [ts];
       _LAST_REQUEST_TS := ts; _MIN_INTERVAL := _MIN_INTERVAL w;
       _RPM_LIMIT := _RPM_LIMIT w; _PATCH_INSTALLED := _PATCH_INSTALLED w;
       genai_models := genai_models w; granted := granted w ++ [ts] |}).

(** The body of [with _LOCK:] in [_block_until_slot_sync] and in
    [_block_until_slot_async]: [None] when the slot was taken (the
    function returns), [Some wait_for] when the caller has to sleep. *)
Definition locked_section : Py World (option Q) :=
  (now <- time_time ;;
   wait_for <- _compute_wait now ;;
   if Qlt_le_dec 0 wait_for
   then ret (Some wait_for)
   else (ts <- time_time ;; _record_request ts ;; ret None))%py.

(** [while True] is unrolled [fuel] times; the result tells whether the
    function returned. *)
Fixpoint _block_until_slot_sync (fuel : nat) : Py World bool :=
  match fuel with
  | O => ret false
  | S fuel' =>
      (r <- locked_section ;;
       match r with
       | None => ret true
       | Some wait_for => time_sleep wait_for ;; _block_until_slot_sync fuel'
       end)%py
  end.

Definition _sleep_interval (value : Q) : Q := fmax value (1 # 100).

Fixpoint _block_until_slot_async (fuel : nat) : Py World bool :=
  match fuel with
  | O => ret false
  | S fuel' =>
      (r <- locked_section ;;
       match r with
       | None => ret true
       | Some wait_for =>
           time_sleep (_sleep_interval wait_for) ;; _block_until_slot_async fuel'
       end)%py
  end.

(** [_wrap_sync_method(cls, "generate_content")] and its async twin *)
Definition _wrap_method (cls : option PyClass) : option PyClass :=
  match cls with
  | None => None
  | Some c =>
      match generate_content c with
      | None => Some c
      | Some RateLimited => Some c
      | Some Original => Some {| generate_content := Some RateLimited |}
      end
  end.

Definition install_global_llm_rate_limiter (min_interval : Q) (rpm_limit : Z)
  : Py World unit :=
  (w <- get ;;
   if _PATCH_INSTALLED w then ret tt
   else match genai_models w with
        | None => ret tt
        | Some genai =>
            match Models genai, AsyncModels genai with
            | None, None => ret tt
            | models_cls, async_models_cls =>
                modify (set_limits (fmax min_interval (1 # 10))
                                   (Z.max rpm_limit 1)) ;;
                modify (set_genai_models
                          (Some {| Models := _wrap_method models_cls;
                                   AsyncModels := _wrap_method async_models_cls |})) ;;
                modify (set_installed true)
            end
        end)%py.

(** Is [generate_content] of this class the rate-limited wrapper? *)
Definition wrapped (cls : option PyClass) : bool :=
  match cls with
  | Some c => match generate_content c with
              | Some RateLimited => true
              | _ => false
              end
  | None => false
  end.

Definition sync_wrapped (w : World) : bool :=
  match genai_models w with Some g => wrapped (Models g) | None => false end.

Definition async_wrapped (w : World) : bool :=
  match genai_models w with Some g => wrapped (AsyncModels g) | None => false end.

(** The client library as shipped: no method is a wrapper yet. *)
Definition unpatched (g : option GenaiModels) : bool :=
  match g with
  | Some g => negb (wrapped (Models g)) && negb (wrapped (AsyncModels g))
  | None => true
  end.

(** What the threads of the process can do to the limiter. The private
    functions [_block_until_slot_sync] and [_block_until_slot_async] are
    reached only through the wrappers that the installer puts on the two
    classes; threads interleave between two runs of the locked section. *)
Inductive Action :=
| Install (min_interval : Q) (rpm_limit : Z)
| SyncIteration     (* one run of the locked section inside Models.generate_content *)
| AsyncIteration    (* the same inside AsyncModels.generate_content *)
| SyncCall (fuel : nat)    (* a whole gate of Models.generate_content, uninterrupted *)
| AsyncCall (fuel : nat).

Definition gated {A} (is_wrapped : World -> bool) (m : Py World A) : Py World unit :=
  (w <- get ;; if is_wrapped w then (m ;; ret tt) else ret tt)%py.

Definition perform (a : Action) : Py World unit :=
  match a with
  | Install min_interval rpm_limit =>
      install_global_llm_rate_limiter min_interval rpm_limit
  | SyncIteration => gated sync_wrapped locked_section
  | AsyncIteration => gated async_wrapped locked_section
  | SyncCall fuel => gated sync_wrapped (_block_until_slot_sync fuel)
  | AsyncCall fuel => gated async_wrapped (_block_until_slot_async fuel)
  end.

(** An exception ends the action of the thread that raised it; the module
    state stays as that action left it. *)
Definition run (acts : list Action) (w : World) : World :=
  fold_left (fun w a => snd (perform a w)) acts w.

(** What a call of the installer may set: the two limits, the flag and
    the methods of the two classes. *)
Definition setup (w : World) : Q * Z * bool * option GenaiModels :=
  (_MIN_INTERVAL w, _RPM_LIMIT w, _PATCH_INSTALLED w, genai_models w).

(** The invariant of the module state that the properties rest on. *)
Definition limiter_ok (w : World) : Prop :=
  steady (clock w)
  /\ 0 < _MIN_INTERVAL w
  /\ (1 <= _RPM_LIMIT w)%Z
  /\ limiter_inv (_MIN_INTERVAL w) (_RPM_LIMIT w) (granted w)
                 (_REQUEST_HISTORY w) (_LAST_REQUEST_TS w) (clock_now (clock w))
  /\ (sync_wrapped w || async_wrapped w = true -> _PATCH_INSTALLED w = true)
  /\ (_PATCH_INSTALLED w = false -> granted w = [] /\ _REQUEST_HISTORY w = []).

Definition installed_ok (w : World) : Prop :=
  limiter_ok w /\ _PATCH_INSTALLED w = true.

End GlobalLimiter.

(** ** Retry wrapper, response cache and its own limiter (src/utils/llm.py) *)

Module Llm.

Local Open Scope Q_scope.

(** A [genai.GenerativeModel]. The service behind it is outside the
    program: [respond n prompt] is what the [n]-th call of
    [generate_content] made by the process returns or raises. *)
Record GenerativeModel := {
  model_name : string;
  respond : nat -> string -> Result string
}.

(** One invocation of [model.generate_content]. *)
Record Call := {
  call_model : string;
  call_prompt : string;
  call_time : Q
}.

Record World := {
  clock : Clock;
  (* module globals *)
  LAST_REQUEST_TS : Q;
  REQUEST_HISTORY : list Q;                (* deque(maxlen=max(LLM_RPM_LIMIT, 10)) *)
  RESPONSE_CACHE : gmap string string;
  (* what the run did, for the statements below *)
  granted : list Q;      (* the timestamps recorded by _respect_rate_limits *)
  calls : list Call;     (* the invocations of generate_content *)
  slept : list Q         (* the back-off sleeps of generate_with_retry *)
}.

Definition module_init (c : Clock) : World :=
  {| clock := c; LAST_REQUEST_TS := 0; REQUEST_HISTORY := [];
     RESPONSE_CACHE := ∅; granted := []; calls := []; slept := [] |}.

Definition set_clock (c : Clock) (w : World) : World :=
  {| clock := c; LAST_REQUEST_TS := LAST_REQUEST_TS w;
     REQUEST_HISTORY := REQUEST_HISTORY w; RESPONSE_CACHE := RESPONSE_CACHE w;
     granted := granted w; calls := calls w; slept := slept w |}.

Definition set_history (h : list Q) (w : World) : World :=
  {| clock := clock w; LAST_REQUEST_TS := LAST_REQUEST_TS w;
     REQUEST_HISTORY := h; RESPONSE_CACHE := RESPONSE_CACHE w;
     granted := granted w; calls := calls w; slept := slept w |}.

Definition set_cache (c : gmap string string) (w : World) : World :=
  {| clock := clock w; LAST_REQUEST_TS := LAST_REQUEST_TS w;
     REQUEST_HISTORY := REQUEST_HISTORY w; RESPONSE_CACHE := c;
     granted := granted w; calls := calls w; slept := slept w |}.

Definition time_time : Py World Q :=
  fun w => let c := elapse 0 (clock w) in (Val (clock_now c), set_clock c w).

Definition time_sleep (secs : Q) : Py World unit :=
  fun w => if Qlt_le_dec secs 0
           then (Exc (ValueError "sleep length must be non-negative"), w)
           else (Val tt, set_clock (elapse secs (clock w)) w).

(** [deque.append] on a deque with [maxlen]: a full deque drops its
    leftmost entry. *)
Definition deque_append (maxlen : Z) (h : list Q) (x : Q) : list Q :=
  let h' := h ++ [x] in
  if (maxlen <? Z.of_nat (length h'))%Z then tail h' else h'.

Section Configured.

(** The environment the configuration module was imported in. *)
Variable env : Environ.
(** Did [from google.genai.errors import ClientError] succeed?  If not,
    the module sets [ClientError = Exception]. *)
Variable ClientError_imported : bool.
(** [hashlib.sha256(s.encode()).hexdigest()[:16]] *)
Variable sha256_hex16 : string -> string.

Definition LLM_RPM_LIMIT : Z := ConfigA.LLM_RPM_LIMIT env.
Definition MIN_INTERVAL : Q := ConfigA.LLM_MIN_CALL_INTERVAL env.
Definition LLM_MAX_RETRY_ATTEMPTS : Z := ConfigA.LLM_MAX_RETRY_ATTEMPTS env.
Definition REQUEST_HISTORY_maxlen : Z := Z.max LLM_RPM_LIMIT 10.

Definition RETRYABLE_STATUS : list Z := [429; 500; 503]%Z.

Definition isinstance_ClientError (error : PyExc) : bool :=
  if ClientError_imported
  then match exc_class error with ClientErrorC => true | _ => false end
  else true.

Definition _is_retryable (error : PyExc) : bool :=
  match status_code error with
  | Some status =>
      if existsb (Z.eqb status) RETRYABLE_STATUS then true
      else isinstance_ClientError error
  | None => isinstance_ClientError error
  end.

Definition prune (window_start : Q) : Py World unit :=
  modify (fun w => set_history (popleft_while window_start (REQUEST_HISTORY w)) w).

Definition _respect_rate_limits : Py World unit :=
  (now <- time_time ;;
   w <- get ;;
   let wait_for_interval := LAST_REQUEST_TS w + MIN_INTERVAL - now in
   now <- (if Qlt_le_dec 0 wait_for_interval
           then time_sleep wait_for_interval ;; time_time
           else ret now) ;;
   prune (now - 60) ;;
   w <- get ;;
   (if (LLM_RPM_LIMIT <=? Z.of_nat (length (REQUEST_HISTORY w)))%Z
    then match REQUEST_HISTORY w with
         | oldest :: _ =>
             let wait_for_window := 60 - (now - oldest) in
             if Qlt_le_dec 0 wait_for_window
             then (time_sleep wait_for_window ;;
                   now <- time_time ;;
                   prune (now - 60))
             else ret tt
         | [] => raise (IndexError "deque index out of range")
         end
    else ret tt) ;;
   ts <- time_time ;;
   modify (fun w =>
     {| clock := clock w; LAST_REQUEST_TS := ts;
        REQUEST_HISTORY := deque_append REQUEST_HISTORY_maxlen (REQUEST_HISTORY w) ts;
        RESPONSE_CACHE := RESPONSE_CACHE w;
        granted := granted w ++ [ts]; calls := calls w; slept := slept w |}))%py.

(** [model.generate_content(prompt)]: the call is logged with the time
    it starts at and takes whatever time the environment adds. *)
Definition generate_content (model : GenerativeModel) (prompt : string)
  : Py World string :=
  fun w =>
    let n := length (calls w) in
    let call := {| call_model := model_name model; call_prompt := prompt;
                   call_time := clock_now (clock w) |} in
    (respond model n prompt,
     {| clock := elapse 0 (clock w); LAST_REQUEST_TS := LAST_REQUEST_TS w;
        REQUEST_HISTORY := REQUEST_HISTORY w; RESPONSE_CACHE := RESPONSE_CACHE w;
        granted := granted w; calls := calls w ++ [call]; slept := slept w |}).

(** The back-off sleep in the handler. *)
Definition backoff_sleep (sleep_for : Q) : Py World unit :=
  (time_sleep sleep_for ;;
   modify (fun w =>
     {| clock := clock w; LAST_REQUEST_TS := LAST_REQUEST_TS w;
        REQUEST_HISTORY := REQUEST_HISTORY w; RESPONSE_CACHE := RESPONSE_CACHE w;
        granted := granted w; calls := calls w; slept := slept w ++ [sleep_for] |}))%py.

Definition cache_key (prompt : string) : string := sha256_hex16 prompt.

(** [max_attempts or LLM_MAX_RETRY_ATTEMPTS] *)
Definition attempt_budget (max_attempts : option Z) : Z :=
  match max_attempts with
  | Some n => if (n =? 0)%Z then LLM_MAX_RETRY_ATTEMPTS else n
  | None => LLM_MAX_RETRY_ATTEMPTS
  end.

(** [for attempt in range(1, attempts + 1)], with [remaining] iterations
    to go, followed by the two statements after the loop. The body of
    the [try] yields [inl result]; the handler either raises or, after
    the back-off sleep, yields [inr exc] and the loop goes on. *)
Fixpoint retry_loop (model : GenerativeModel) (prompt : string)
    (base_delay : Z) (enable_cache : bool) (attempts : Z)
    (remaining : nat) (attempt : Z) (last_error : option PyExc)
  : Py World string :=
  match remaining with
  | O =>
      match last_error with
      | Some e => raise e
      | None => raise (RuntimeError
                  "generate_with_retry failed without executing model call")
      end
  | S remaining' =>
      (r <- try_except
              (_respect_rate_limits ;;
               result <- generate_content model prompt ;;
               (if enable_cache
                then modify (fun w =>
                       set_cache (<[cache_key prompt := result]> (RESPONSE_CACHE w)) w)
                else ret tt) ;;
               ret (inl result))
              (fun exc =>
                 if (attempts <=? attempt)%Z || negb (_is_retryable exc)
                 then raise exc
                 else (backoff_sleep (inject_Z (base_delay ^ attempt)) ;;
                       ret (inr exc))) ;;
       match r with
       | inl result => ret result
       | inr exc =>
           retry_loop model prompt base_delay enable_cache attempts
                      remaining' (attempt + 1)%Z (Some exc)
       end)%py
  end.

Definition generate_with_retry (model : GenerativeModel) (prompt : string)
    (max_attempts : option Z) (base_delay : Z) (enable_cache : bool)
  : Py World string :=
  (w <- get ;;
   match (if enable_cache then RESPONSE_CACHE w !! cache_key prompt else None) with
   | Some cached => ret cached
   | None =>
       let attempts := attempt_budget max_attempts in
       retry_loop model prompt base_delay enable_cache attempts
                  (Z.to_nat attempts) 1%Z None
   end)%py.

(** After pruning at [window_start] the oldest entry is not older. *)
Definition pruned (window_start : Q) (h : list Q) : Prop :=
  match h with
  | oldest :: _ => window_start <= oldest
  | [] => True
  end.

(** A grant at any time from now on keeps the window within the limit. *)
Definition slot_free (w : World) : Prop :=
  forall ts, clock_now (clock w) <= ts ->
    (Z.of_nat (count_if (after ts) (granted w)) < LLM_RPM_LIMIT)%Z.

(** Appending to the deque discards, if anything, an entry that has
    left the window. *)
Definition room_or_expired (w : World) : Prop :=
  (Z.of_nat (length (REQUEST_HISTORY w)) < REQUEST_HISTORY_maxlen)%Z
  \/ exists oldest rest,
       REQUEST_HISTORY w = oldest :: rest /\ oldest <= clock_now (clock w) - 60.

(** The invariant of the module state behind the limiter properties. *)
Definition limiter_ok (w : World) : Prop :=
  steady (clock w)
  /\ limiter_inv MIN_INTERVAL LLM_RPM_LIMIT (granted w) (REQUEST_HISTORY w)
                 (LAST_REQUEST_TS w) (clock_now (clock w))
  /\ (Z.of_nat (length (REQUEST_HISTORY w)) <= REQUEST_HISTORY_maxlen)%Z.

(** The state between the window check and the final clock reading of
    [_respect_rate_limits]. *)
Definition ready (w : World) : Prop :=
  limiter_ok w
  /\ LAST_REQUEST_TS w + MIN_INTERVAL <= clock_now (clock w)
  /\ slot_free w /\ room_or_expired w.

(** The back-off sleeps of a call whose attempts [attempt], [attempt+1],
    ... ([n] of them) fail and are retried. *)
Fixpoint backoff_schedule (base_delay attempt : Z) (n : nat) : list Q :=
  match n with
  | O => []
  | S n' => inject_Z (base_delay ^ attempt)
              :: backoff_schedule base_delay (attempt + 1)%Z n'
  end.

(** Consecutive invocations, the first of which is attempt number
    [attempt], are at least the back-off delay apart. *)
Fixpoint delays_respected (base_delay attempt : Z) (new_calls : list Call) : Prop :=
  match new_calls with
  | c1 :: rest =>
      match rest with
      | c2 :: _ => call_time c1 + inject_Z (base_delay ^ attempt) <= call_time c2
      | [] => True
      end
      /\ delays_respected base_delay (attempt + 1)%Z rest
  | [] => True
  end.

Definition starts_after (t : Q) (new_calls : list Call) : Prop :=
  match new_calls with
  | c :: _ => t <= call_time c
  | [] => True
  end.

(** The model call fails with a retryable error from the [n]-th
    invocation of the process on. *)
Definition always_retryable (model : GenerativeModel) (prompt : string) (n : nat)
  : Prop :=
  forall k, (n <= k)%nat ->
    exists e, respond model k prompt = Exc e /\ _is_retryable e = true.

(** A call of [generate_with_retry] by some agent. *)
Record Request := {
  req_model : GenerativeModel;
  req_prompt : string;
  req_max_attempts : option Z;
  req_base_delay : Z;
  req_enable_cache : bool
}.

Definition serve (r : Request) : Py World string :=
  generate_with_retry (req_model r) (req_prompt r) (req_max_attempts r)
                      (req_base_delay r) (req_enable_cache r).

(** The calls are made one after the other ([REQUEST_LOCK] is held for
    the whole of [_respect_rate_limits]); a call that raises leaves the
    module state as it was when it raised. *)
Definition run (requests : list Request) (w : World) : World :=
  fold_left (fun w r => snd (serve r w)) requests w.

End Configured.

End Llm.

(** ** The pipeline state (src/state/shared_state.py) *)

(** JSON-like payloads whose contents the engine does not interpret. *)
Definition Dict : Type := list (string * string).

Record Clause := {
  clause_id : string;
  clause_type : string;
  clause_text : string;
  clause_location : string;
  clause_confidence : Q
}.

Record RiskAssessment := {
  risk_clause_id : string;
  risk_level : string;
  risk_description : string;
  risk_factors : list string;
  severity_score : Q;
  risk_model_used : string
}.

(** The timestamp and the execution time of an entry are left out. *)
Record AuditEntry := {
  agent_name : string;
  action : string;
  input_data : Dict;
  output_data : Dict;
  model_used : string
}.

(** [LegalDocumentState]: a [TypedDict] all of whose keys are required, so
    that [state.get(k, default)] is [state[k]], [k in state] holds and
    [state.setdefault(k, [])] is [state[k]]; a state is never an empty
    dictionary, hence always truthy. *)
Record LegalDocumentState := {
  document_id : string;
  document_path : option string;
  document_text : string;
  document_type : string;
  parsed_text : string;
  metadata : Dict;
  page_count : Z;
  document_category : string;
  metadata_summary : Dict;
  key_entities : list string;
  document_outline : list string;
  extracted_clauses : list Clause;
  clause_count : Z;
  risk_assessments : list RiskAssessment;
  high_risk_count : Z;
  overall_risk_score : Q;
  document_complexity : Q;
  use_complex_model : bool;
  processing_strategy : string;
  model_plan : Dict;
  cost_budget : Q;
  cost_spent : Q;
  planning_notes : list string;
  parallel_tasks : list string;
  ready_for_suggestions : bool;
  adk_b_response : option Dict;
  context_bundle : Dict;
  audit_log : list AuditEntry;
  recommendation_trace : list Dict;
  errors : list string;
  status : string
}.

(** [state[k] = v], one definition for each key the engine assigns. *)

Definition set_extracted_clauses (v : list Clause) (s : LegalDocumentState) : LegalDocumentState :=
  {| document_id := document_id s; document_path := document_path s;
     document_text := document_text s; document_type := document_type s;
     parsed_text := parsed_text s; metadata := metadata s; page_count := page_count s;
     document_category := document_category s; metadata_summary := metadata_summary s;
     key_entities := key_entities s; document_outline := document_outline s;
     extracted_clauses := v; clause_count := clause_count s;
     risk_assessments := risk_assessments s; high_risk_count := high_risk_count s;
     overall_risk_score := overall_risk_score s;
     document_complexity := document_complexity s;
     use_complex_model := use_complex_model s;
     processing_strategy := processing_strategy s; model_plan := model_plan s;
     cost_budget := cost_budget s; cost_spent := cost_spent s;
     planning_notes := planning_notes s; parallel_tasks := parallel_tasks s;
     ready_for_suggestions := ready_for_suggestions s;
     adk_b_response := adk_b_response s; context_bundle := context_bundle s;
     audit_log := audit_log s; recommendation_trace := recommendation_trace s;
     errors := errors s; status := status s |}.

Definition set_clause_count (v : Z) (s : LegalDocumentState) : LegalDocumentState :=
  {| document_id := document_id s; document_path := document_path s;
     document_text := document_text s; document_type := document_type s;
     parsed_text := parsed_text s; metadata := metadata s; page_count := page_count s;
     document_category := document_category s; metadata_summary := metadata_summary s;
     key_entities := key_entities s; document_outline := document_outline s;
     extracted_clauses := extracted_clauses s; clause_count := v;
     risk_assessments := risk_assessments s; high_risk_count := high_risk_count s;
     overall_risk_score := overall_risk_score s;
     document_complexity := document_complexity s;
     use_complex_model := use_complex_model s;
     processing_strategy := processing_strategy s; model_plan := model_plan s;
     cost_budget := cost_budget s; cost_spent := cost_spent s;
     planning_notes := planning_notes s; parallel_tasks := parallel_tasks s;
     ready_for_suggestions := ready_for_suggestions s;
     adk_b_response := adk_b_response s; context_bundle := context_bundle s;
     audit_log := audit_log s; recommendation_trace := recommendation_trace s;
     errors := errors s; status := status s |}.

Definition set_metadata_summary (v : Dict) (s : LegalDocumentState) : LegalDocumentState :=
  {| document_id := document_id s; document_path := document_path s;
     document_text := document_text s; document_type := document_type s;
     parsed_text := parsed_text s; metadata := metadata s; page_count := page_count s;
     document_category := document_category s; metadata_summary := v;
     key_entities := key_entities s; document_outline := document_outline s;
     extracted_clauses := extracted_clauses s; clause_count := clause_count s;
     risk_assessments := risk_assessments s; high_risk_count := high_risk_count s;
     overall_risk_score := overall_risk_score s;
     document_complexity := document_complexity s;
     use_complex_model := use_complex_model s;
     processing_strategy := processing_strategy s; model_plan := model_plan s;
     cost_budget := cost_budget s; cost_spent := cost_spent s;
     planning_notes := planning_notes s; parallel_tasks := parallel_tasks s;
     ready_for_suggestions := ready_for_suggestions s;
     adk_b_response := adk_b_response s; context_bundle := context_bundle s;
     audit_log := audit_log s; recommendation_trace := recommendation_trace s;
     errors := errors s; status := status s |}.

Definition set_document_outline (v : list string) (s : LegalDocumentState) : LegalDocumentState :=
  {| document_id := document_id s; document_path := document_path s;
     document_text := document_text s; document_type := document_type s;
     parsed_text := parsed_text s; metadata := metadata s; page_count := page_count s;
     document_category := document_category s; metadata_summary := metadata_summary s;
     key_entities := key_entities s; document_outline := v;
     extracted_clauses := extracted_clauses s; clause_count := clause_count s;
     risk_assessments := risk_assessments s; high_risk_count := high_risk_count s;
     overall_risk_score := overall_risk_score s;
     document_complexity := document_complexity s;
     use_complex_model := use_complex_model s;
     processing_strategy := processing_strategy s; model_plan := model_plan s;
     cost_budget := cost_budget s; cost_spent := cost_spent s;
     planning_notes := planning_notes s; parallel_tasks := parallel_tasks s;
     ready_for_suggestions := ready_for_suggestions s;
     adk_b_response := adk_b_response s; context_bundle := context_bundle s;
     audit_log := audit_log s; recommendation_trace := recommendation_trace s;
     errors := errors s; status := status s |}.

Definition set_key_entities (v : list string) (s : LegalDocumentState) : LegalDocumentState :=
  {| document_id := document_id s; document_path := document_path s;
     document_text := document_text s; document_type := document_type s;
     parsed_text := parsed_text s; metadata := metadata s; page_count := page_count s;
     document_category := document_category s; metadata_summary := metadata_summary s;
     key_entities := v; document_outline := document_outline s;
     extracted_clauses := extracted_clauses s; clause_count := clause_count s;
     risk_assessments := risk_assessments s; high_risk_count := high_risk_count s;
     overall_risk_score := overall_risk_score s;
     document_complexity := document_complexity s;
     use_complex_model := use_complex_model s;
     processing_strategy := processing_strategy s; model_plan := model_plan s;
     cost_budget := cost_budget s; cost_spent := cost_spent s;
     planning_notes := planning_notes s; parallel_tasks := parallel_tasks s;
     ready_for_suggestions := ready_for_suggestions s;
     adk_b_response := adk_b_response s; context_bundle := context_bundle s;
     audit_log := audit_log s; recommendation_trace := recommendation_trace s;
     errors := errors s; status := status s |}.

Definition set_risk_assessments (v : list RiskAssessment) (s : LegalDocumentState)
  : LegalDocumentState :=
  {| document_id := document_id s; document_path := document_path s;
     document_text := document_text s; document_type := document_type s;
     parsed_text := parsed_text s; metadata := metadata s; page_count := page_count s;
     document_category := document_category s; metadata_summary := metadata_summary s;
     key_entities := key_entities s; document_outline := document_outline s;
     extracted_clauses := extracted_clauses s; clause_count := clause_count s;
     risk_assessments := v; high_risk_count := high_risk_count s;
     overall_risk_score := overall_risk_score s;
     document_complexity := document_complexity s;
     use_complex_model := use_complex_model s;
     processing_strategy := processing_strategy s; model_plan := model_plan s;
     cost_budget := cost_budget s; cost_spent := cost_spent s;
     planning_notes := planning_notes s; parallel_tasks := parallel_tasks s;
     ready_for_suggestions := ready_for_suggestions s;
     adk_b_response := adk_b_response s; context_bundle := context_bundle s;
     audit_log := audit_log s; recommendation_trace := recommendation_trace s;
     errors := errors s; status := status s |}.

Definition set_high_risk_count (v : Z) (s : LegalDocumentState) : LegalDocumentState :=
  {| document_id := document_id s; document_path := document_path s;
     document_text := document_text s; document_type := document_type s;
     parsed_text := parsed_text s; metadata := metadata s; page_count := page_count s;
     document_category := document_category s; metadata_summary := metadata_summary s;
     key_entities := key_entities s; document_outline := document_outline s;
     extracted_clauses := extracted_clauses s; clause_count := clause_count s;
     risk_assessments := risk_assessments s; high_risk_count := v;
     overall_risk_score := overall_risk_score s;
     document_complexity := document_complexity s;
     use_complex_model := use_complex_model s;
     processing_strategy := processing_strategy s; model_plan := model_plan s;
     cost_budget := cost_budget s; cost_spent := cost_spent s;
     planning_notes := planning_notes s; parallel_tasks := parallel_tasks s;
     ready_for_suggestions := ready_for_suggestions s;
     adk_b_response := adk_b_response s; context_bundle := context_bundle s;
     audit_log := audit_log s; recommendation_trace := recommendation_trace s;
     errors := errors s; status := status s |}.

Definition set_overall_risk_score (v : Q) (s : LegalDocumentState) : LegalDocumentState :=
  {| document_id := document_id s; document_path := document_path s;
     document_text := document_text s; document_type := document_type s;
     parsed_text := parsed_text s; metadata := metadata s; page_count := page_count s;
     document_category := document_category s; metadata_summary := metadata_summary s;
     key_entities := key_entities s; document_outline := document_outline s;
     extracted_clauses := extracted_clauses s; clause_count := clause_count s;
     risk_assessments := risk_assessments s; high_risk_count := high_risk_count s;
     overall_risk_score := v; document_complexity := document_complexity s;
     use_complex_model := use_complex_model s;
     processing_strategy := processing_strategy s; model_plan := model_plan s;
     cost_budget := cost_budget s; cost_spent := cost_spent s;
     planning_notes := planning_notes s; parallel_tasks := parallel_tasks s;
     ready_for_suggestions := ready_for_suggestions s;
     adk_b_response := adk_b_response s; context_bundle := context_bundle s;
     audit_log := audit_log s; recommendation_trace := recommendation_trace s;
     errors := errors s; status := status s |}.

Definition set_recommendation_trace (v : list Dict) (s : LegalDocumentState) : LegalDocumentState :=
  {| document_id := document_id s; document_path := document_path s;
     document_text := document_text s; document_type := document_type s;
     parsed_text := parsed_text s; metadata := metadata s; page_count := page_count s;
     document_category := document_category s; metadata_summary := metadata_summary s;
     key_entities := key_entities s; document_outline := document_outline s;
     extracted_clauses := extracted_clauses s; clause_count := clause_count s;
     risk_assessments := risk_assessments s; high_risk_count := high_risk_count s;
     overall_risk_score := overall_risk_score s;
     document_complexity := document_complexity s;
     use_complex_model := use_complex_model s;
     processing_strategy := processing_strategy s; model_plan := model_plan s;
     cost_budget := cost_budget s; cost_spent := cost_spent s;
     planning_notes := planning_notes s; parallel_tasks := parallel_tasks s;
     ready_for_suggestions := ready_for_suggestions s;
     adk_b_response := adk_b_response s; context_bundle := context_bundle s;
     audit_log := audit_log s; recommendation_trace := v; errors := errors s;
     status := status s |}.

Definition set_context_bundle (v : Dict) (s : LegalDocumentState) : LegalDocumentState :=
  {| document_id := document_id s; document_path := document_path s;
     document_text := document_text s; document_type := document_type s;
     parsed_text := parsed_text s; metadata := metadata s; page_count := page_count s;
     document_category := document_category s; metadata_summary := metadata_summary s;
     key_entities := key_entities s; document_outline := document_outline s;
     extracted_clauses := extracted_clauses s; clause_count := clause_count s;
     risk_assessments := risk_assessments s; high_risk_count := high_risk_count s;
     overall_risk_score := overall_risk_score s;
     document_complexity := document_complexity s;
     use_complex_model := use_complex_model s;
     processing_strategy := processing_strategy s; model_plan := model_plan s;
     cost_budget := cost_budget s; cost_spent := cost_spent s;
     planning_notes := planning_notes s; parallel_tasks := parallel_tasks s;
     ready_for_suggestions := ready_for_suggestions s;
     adk_b_response := adk_b_response s; context_bundle := v; audit_log := audit_log s;
     recommendation_trace := recommendation_trace s; errors := errors s;
     status := status s |}.

Definition set_ready_for_suggestions (v : bool) (s : LegalDocumentState) : LegalDocumentState :=
  {| document_id := document_id s; document_path := document_path s;
     document_text := document_text s; document_type := document_type s;
     parsed_text := parsed_text s; metadata := metadata s; page_count := page_count s;
     document_category := document_category s; metadata_summary := metadata_summary s;
     key_entities := key_entities s; document_outline := document_outline s;
     extracted_clauses := extracted_clauses s; clause_count := clause_count s;
     risk_assessments := risk_assessments s; high_risk_count := high_risk_count s;
     overall_risk_score := overall_risk_score s;
     document_complexity := document_complexity s;
     use_complex_model := use_complex_model s;
     processing_strategy := processing_strategy s; model_plan := model_plan s;
     cost_budget := cost_budget s; cost_spent := cost_spent s;
     planning_notes := planning_notes s; parallel_tasks := parallel_tasks s;
     ready_for_suggestions := v; adk_b_response := adk_b_response s;
     context_bundle := context_bundle s; audit_log := audit_log s;
     recommendation_trace := recommendation_trace s; errors := errors s;
     status := status s |}.

Definition set_cost_spent (v : Q) (s : LegalDocumentState) : LegalDocumentState :=
  {| document_id := document_id s; document_path := document_path s;
     document_text := document_text s; document_type := document_type s;
     parsed_text := parsed_text s; metadata := metadata s; page_count := page_count s;
     document_category := document_category s; metadata_summary := metadata_summary s;
     key_entities := key_entities s; document_outline := document_outline s;
     extracted_clauses := extracted_clauses s; clause_count := clause_count s;
     risk_assessments := risk_assessments s; high_risk_count := high_risk_count s;
     overall_risk_score := overall_risk_score s;
     document_complexity := document_complexity s;
     use_complex_model := use_complex_model s;
     processing_strategy := processing_strategy s; model_plan := model_plan s;
     cost_budget := cost_budget s; cost_spent := v; planning_notes := planning_notes s;
     parallel_tasks := parallel_tasks s;
     ready_for_suggestions := ready_for_suggestions s;
     adk_b_response := adk_b_response s; context_bundle := context_bundle s;
     audit_log := audit_log s; recommendation_trace := recommendation_trace s;
     errors := errors s; status := status s |}.

Definition set_planning_notes (v : list string) (s : LegalDocumentState) : LegalDocumentState :=
  {| document_id := document_id s; document_path := document_path s;
     document_text := document_text s; document_type := document_type s;
     parsed_text := parsed_text s; metadata := metadata s; page_count := page_count s;
     document_category := document_category s; metadata_summary := metadata_summary s;
     key_entities := key_entities s; document_outline := document_outline s;
     extracted_clauses := extracted_clauses s; clause_count := clause_count s;
     risk_assessments := risk_assessments s; high_risk_count := high_risk_count s;
     overall_risk_score := overall_risk_score s;
     document_complexity := document_complexity s;
     use_complex_model := use_complex_model s;
     processing_strategy := processing_strategy s; model_plan := model_plan s;
     cost_budget := cost_budget s; cost_spent := cost_spent s; planning_notes := v;
     parallel_tasks := parallel_tasks s;
     ready_for_suggestions := ready_for_suggestions s;
     adk_b_response := adk_b_response s; context_bundle := context_bundle s;
     audit_log := audit_log s; recommendation_trace := recommendation_trace s;
     errors := errors s; status := status s |}.

Definition set_status (v : string) (s : LegalDocumentState) : LegalDocumentState :=
  {| document_id := document_id s; document_path := document_path s;
     document_text := document_text s; document_type := document_type s;
     parsed_text := parsed_text s; metadata := metadata s; page_count := page_count s;
     document_category := document_category s; metadata_summary := metadata_summary s;
     key_entities := key_entities s; document_outline := document_outline s;
     extracted_clauses := extracted_clauses s; clause_count := clause_count s;
     risk_assessments := risk_assessments s; high_risk_count := high_risk_count s;
     overall_risk_score := overall_risk_score s;
     document_complexity := document_complexity s;
     use_complex_model := use_complex_model s;
     processing_strategy := processing_strategy s; model_plan := model_plan s;
     cost_budget := cost_budget s; cost_spent := cost_spent s;
     planning_notes := planning_notes s; parallel_tasks := parallel_tasks s;
     ready_for_suggestions := ready_for_suggestions s;
     adk_b_response := adk_b_response s; context_bundle := context_bundle s;
     audit_log := audit_log s; recommendation_trace := recommendation_trace s;
     errors := errors s; status := v |}.

Definition set_errors (v : list string) (s : LegalDocumentState) : LegalDocumentState :=
  {| document_id := document_id s; document_path := document_path s;
     document_text := document_text s; document_type := document_type s;
     parsed_text := parsed_text s; metadata := metadata s; page_count := page_count s;
     document_category := document_category s; metadata_summary := metadata_summary s;
     key_entities := key_entities s; document_outline := document_outline s;
     extracted_clauses := extracted_clauses s; clause_count := clause_count s;
     risk_assessments := risk_assessments s; high_risk_count := high_risk_count s;
     overall_risk_score := overall_risk_score s;
     document_complexity := document_complexity s;
     use_complex_model := use_complex_model s;
     processing_strategy := processing_strategy s; model_plan := model_plan s;
     cost_budget := cost_budget s; cost_spent := cost_spent s;
     planning_notes := planning_notes s; parallel_tasks := parallel_tasks s;
     ready_for_suggestions := ready_for_suggestions s;
     adk_b_response := adk_b_response s; context_bundle := context_bundle s;
     audit_log := audit_log s; recommendation_trace := recommendation_trace s;
     errors := v; status := status s |}.

Definition set_adk_b_response (v : option Dict) (s : LegalDocumentState) : LegalDocumentState :=
  {| document_id := document_id s; document_path := document_path s;
     document_text := document_text s; document_type := document_type s;
     parsed_text := parsed_text s; metadata := metadata s; page_count := page_count s;
     document_category := document_category s; metadata_summary := metadata_summary s;
     key_entities := key_entities s; document_outline := document_outline s;
     extracted_clauses := extracted_clauses s; clause_count := clause_count s;
     risk_assessments := risk_assessments s; high_risk_count := high_risk_count s;
     overall_risk_score := overall_risk_score s;
     document_complexity := document_complexity s;
     use_complex_model := use_complex_model s;
     processing_strategy := processing_strategy s; model_plan := model_plan s;
     cost_budget := cost_budget s; cost_spent := cost_spent s;
     planning_notes := planning_notes s; parallel_tasks := parallel_tasks s;
     ready_for_suggestions := ready_for_suggestions s; adk_b_response := v;
     context_bundle := context_bundle s; audit_log := audit_log s;
     recommendation_trace := recommendation_trace s; errors := errors s;
     status := status s |}.

Definition set_audit_log (v : list AuditEntry) (s : LegalDocumentState) : LegalDocumentState :=
  {| document_id := document_id s; document_path := document_path s;
     document_text := document_text s; document_type := document_type s;
     parsed_text := parsed_text s; metadata := metadata s; page_count := page_count s;
     document_category := document_category s; metadata_summary := metadata_summary s;
     key_entities := key_entities s; document_outline := document_outline s;
     extracted_clauses := extracted_clauses s; clause_count := clause_count s;
     risk_assessments := risk_assessments s; high_risk_count := high_risk_count s;
     overall_risk_score := overall_risk_score s;
     document_complexity := document_complexity s;
     use_complex_model := use_complex_model s;
     processing_strategy := processing_strategy s; model_plan := model_plan s;
     cost_budget := cost_budget s; cost_spent := cost_spent s;
     planning_notes := planning_notes s; parallel_tasks := parallel_tasks s;
     ready_for_suggestions := ready_for_suggestions s;
     adk_b_response := adk_b_response s; context_bundle := context_bundle s;
     audit_log := v; recommendation_trace := recommendation_trace s;
     errors := errors s; status := status s |}.

(** [bool(value)] for the values the engine tests. *)
Definition truthy_str (s : string) : bool :=
  match s with EmptyString => false | _ => true end.
Definition truthy_list {A} (l : list A) : bool :=
  match l with [] => false | _ => true end.
Definition truthy_opt_dict (d : option Dict) : bool :=
  match d with Some (_ :: _) => true | _ => false end.

(** An agent's [process(state)]: it works on the dictionary it is given, in
    place, and returns that same dictionary. The function gives the contents
    of the dictionary when the call ends and the exception, if the call
    raised. *)
Definition Agent : Type := LegalDocumentState -> LegalDocumentState * option PyExc.

(** ** The dispatch agent (src/agents/a2a_dispatch_agent.py) *)

Module Dispatch.

Definition DISPATCH_TIMEOUT : Z * Z := (10, 180)%Z.   (* (connect, read) seconds *)
Definition MAX_ATTEMPTS : Z := 3.
Definition BACKOFF_SECONDS : Z := 5.

(** What [session.post] does at one attempt. *)
Inductive HttpOutcome :=
| RequestFailed (exc : PyExc)        (* raises requests.RequestException *)
| OtherFailure (exc : PyExc)         (* raises something else *)
| Responded (code : Z) (json : Result Dict).   (* a response; [json] is response.json() *)

(** [response.ok] *)
Definition response_ok (code : Z) : bool := (code <? 400)%Z.

Record Post := {
  post_endpoint : string;
  post_document_id : string;
  post_adk_a_data : Dict;
  post_timeout : Z * Z
}.

Record World := {
  state : LegalDocumentState;     (* the dictionary the agent works on *)
  posts : list Post;              (* the calls of session.post *)
  sleeps : list Z                 (* the arguments of time.sleep *)
}.

Definition on_state (f : LegalDocumentState -> LegalDocumentState) : Py World unit :=
  modify (fun w => {| state := f (state w); posts := posts w; sleeps := sleeps w |}).

Definition append_note (note : string) : LegalDocumentState -> LegalDocumentState :=
  fun s => set_planning_notes (planning_notes s ++ [note]) s.

Definition append_error (msg : string) : LegalDocumentState -> LegalDocumentState :=
  fun s => set_errors (errors s ++ [msg]) s.

Definition time_sleep (secs : Z) : Py World unit :=
  modify (fun w => {| state := state w; posts := posts w; sleeps := sleeps w ++ [secs] |}).

Section Configured.

Variable ENABLE_A2A_DISPATCH : bool.
Variable MCP_SERVER_B_URL : string.     (* already stripped of a trailing slash *)
(** The server behind the endpoint: the outcome of the [n]-th post. *)
Variable http : nat -> HttpOutcome.

Definition endpoint : string := MCP_SERVER_B_URL +:+ "/generate_suggestions".

Definition session_post (payload_id : string) (payload_data : Dict)
  : Py World HttpOutcome :=
  fun w =>
    (Val (http (length (posts w))),
     {| state := state w;
        posts := posts w ++ [{| post_endpoint := endpoint;
                                post_document_id := payload_id;
                                post_adk_a_data := payload_data;
                                post_timeout := DISPATCH_TIMEOUT |}];
        sleeps := sleeps w |}).

(** [for attempt in range(1, MAX_ATTEMPTS + 1)] with [remaining]
    iterations to go; the result is [(response, last_error)]. *)
Fixpoint post_loop (payload_id : string) (payload_data : Dict)
    (remaining : nat) (attempt : Z) (last_error : option PyExc)
  : Py World (option (Z * Result Dict) * option PyExc) :=
  match remaining with
  | O => ret (None, last_error)
  | S remaining' =>
      (outcome <- session_post payload_id payload_data ;;
       match outcome with
       | Responded code json => ret (Some (code, json), last_error)
       | OtherFailure exc => raise exc
       | RequestFailed exc =>
           on_state (append_note
             ("Dispatch attempt " +:+ pretty attempt +:+ " failed: " +:+ exc_str exc)) ;;
           (if (attempt <? MAX_ATTEMPTS)%Z
            then time_sleep (BACKOFF_SECONDS * attempt)
            else ret tt) ;;
           post_loop payload_id payload_data remaining' (attempt + 1)%Z (Some exc)
       end)%py
  end.

Definition name : string := "A2ADispatchAgent".

Definition audit_entry : AuditEntry :=
  {| agent_name := name; action := "a2a_dispatch";
     input_data := [("endpoint", MCP_SERVER_B_URL)]; output_data := [];
     model_used := "http" |}.

Definition process : Py World unit :=
  try_except
    (if negb ENABLE_A2A_DISPATCH then
       on_state (set_status "completed") ;;
       on_state (append_note "Dispatch disabled via config")
     else
       w <- get ;;
       if negb (ready_for_suggestions (state w)) then
         on_state (set_status "completed") ;;
         on_state (append_note "Dispatch skipped: no actionable risks detected")
       else
         r <- post_loop (document_id (state w)) (context_bundle (state w))
                        (Z.to_nat MAX_ATTEMPTS) 1%Z None ;;
         match r with
         | (None, last_error) =>
             let last := match last_error with Some e => exc_str e | None => "None" end in
             let warning_msg :=
               "ADK-B dispatch failed after " +:+ pretty MAX_ATTEMPTS
                 +:+ " attempts: " +:+ last in
             on_state (append_error warning_msg) ;;
             on_state (set_adk_b_response
                         (Some [("status", "dispatch_failed"); ("error", last)])) ;;
             on_state (append_note "ADK-B unreachable; captured warning") ;;
             on_state (set_status "completed_with_warning")
         | (Some (code, json), _) =>
             (if response_ok code then
                match json with
                | Val body =>
                    on_state (set_adk_b_response (Some body)) ;;
                    on_state (append_note "ADK-B suggestions requested via MCP portal") ;;
                    on_state (set_status "completed")
                | Exc exc => raise exc
                end
              else
                on_state (set_adk_b_response
                            (Some [("status", "dispatch_failed");
                                   ("error", "HTTP " +:+ pretty code)])) ;;
                on_state (set_status "completed_with_warning")) ;;
             on_state (fun s => set_audit_log (audit_log s ++ [audit_entry]) s)
         end)%py
    (fun exc =>
       on_state (append_error (name +:+ ": " +:+ exc_str exc)) ;;
       on_state (set_status "error"))%py.

(** The agent as the scheduler sees it. *)
Definition agent : Agent :=
  fun s =>
    match process {| state := s; posts := []; sleeps := [] |} with
    | (Val _, w) => (state w, None)
    | (Exc e, w) => (state w, Some e)
    end.

End Configured.

End Dispatch.

(** ** The scheduler (src/agents/parallel_insights_agent.py) *)

Definition blank_state : LegalDocumentState :=
  {| document_id := ""; document_path := None; document_text := "";
     document_type := ""; parsed_text := ""; metadata := []; page_count := 0;
     document_category := ""; metadata_summary := []; key_entities := [];
     document_outline := []; extracted_clauses := []; clause_count := 0;
     risk_assessments := []; high_risk_count := 0; overall_risk_score := 0;
     document_complexity := 0; use_complex_model := false;
     processing_strategy := ""; model_plan := []; cost_budget := 0; cost_spent := 0;
     planning_notes := []; parallel_tasks := []; ready_for_suggestions := false;
     adk_b_response := None; context_bundle := []; audit_log := [];
     recommendation_trace := []; errors := []; status := "" |}.

Module Scheduler.

(** State dictionaries are objects: the scheduler hands references to
    them around, and two names may denote the same dictionary. [Ref] is
    the address of a dictionary in [heap]. *)
Abbreviation Ref := nat.

Record World := {
  heap : list LegalDocumentState;
  started : list string;    (* the tasks whose agent was invoked, in order *)
  pauses : list Z           (* the arguments of time.sleep between tasks *)
}.

Definition deref (w : World) (r : Ref) : LegalDocumentState :=
  default blank_state (heap w !! r).

(** A statement that changes the dictionary at [r]. *)
Definition update (r : Ref) (f : LegalDocumentState -> LegalDocumentState)
  : Py World unit :=
  modify (fun w => {| heap := <[r := f (deref w r)]> (heap w);
                      started := started w; pauses := pauses w |}).

(** [copy.deepcopy(state)] *)
Definition deepcopy (r : Ref) : Py World Ref :=
  fun w => (Val (length (heap w)),
            {| heap := heap w ++ [deref w r]; started := started w;
               pauses := pauses w |}).

Definition time_sleep (secs : Z) : Py World unit :=
  modify (fun w => {| heap := heap w; started := started w;
                      pauses := pauses w ++ [secs] |}).

(** [agent.process(state)] on the dictionary at [r], as task [label]. *)
Definition invoke (label : string) (agent : Agent) (r : Ref) : Py World Ref :=
  fun w =>
    let (s', exc) := agent (deref w r) in
    let w' := {| heap := <[r := s']> (heap w); started := started w ++ [label];
                 pauses := pauses w |} in
    match exc with
    | None => (Val r, w')
    | Some e => (Exc e, w')
    end.

(** [dst[k] = src[k]] *)
Definition copy_key {A} (get_k : LegalDocumentState -> A)
    (set_k : A -> LegalDocumentState -> LegalDocumentState) (src dst : Ref)
  : Py World unit :=
  (w <- get ;; update dst (set_k (get_k (deref w src))))%py.

(** [if src.get(k): dst.setdefault(k, []).extend(src[k])] *)
Definition extend_key {A} (get_k : LegalDocumentState -> list A)
    (set_k : list A -> LegalDocumentState -> LegalDocumentState) (src dst : Ref)
  : Py World unit :=
  (w <- get ;;
   if truthy_list (get_k (deref w src))
   then update dst (fun s => set_k (get_k s ++ get_k (deref w src)) s)
   else ret tt)%py.

Definition append_error (msg : string) : LegalDocumentState -> LegalDocumentState :=
  fun s => set_errors (errors s ++ [msg]) s.

(** The reference [n] denotes a dictionary. *)
Definition allocated (n : Ref) (w : World) : Prop := (n < length (heap w))%nat.

Definition _extend_audit_log (state source_state : Ref) : Py World unit :=
  extend_key audit_log set_audit_log source_state state.

(** [results], from task label to the dictionary the task returned, and
    [task_errors]. *)
Abbreviation Results := (gmap string Ref).
Abbreviation TaskErrors := (list (string * PyExc)).

Section Agents.

Variable clause_agent summary_agent risk_agent dispatch_agent : Agent.
Variable FORCE_SEQUENTIAL_EXECUTION : bool.
(** What running the coroutine on an event loop ([asyncio.run], or a
    loop in a fresh thread) raises by itself, if anything. *)
Variable event_loop_failure : option PyExc.

Definition name : string := "ParallelInsightsAgent".

Definition _run_clause_task (state : Ref) : Py World Ref :=
  (c <- deepcopy state ;; invoke "clauses" clause_agent c)%py.

Definition _run_summary_task (state : Ref) : Py World Ref :=
  (c <- deepcopy state ;; invoke "summary" summary_agent c)%py.

Definition _run_risk_task (state clause_state : Ref) : Py World Ref :=
  (merged_state <- deepcopy state ;;
   copy_key extracted_clauses set_extracted_clauses clause_state merged_state ;;
   copy_key clause_count set_clause_count clause_state merged_state ;;
   invoke "risk" risk_agent merged_state)%py.

Definition _run_suggestion_task (risk_state : Ref) : Py World Ref :=
  invoke "suggestion" dispatch_agent risk_state.

(** What the tasks are given when the stages run one after the other on
    a state with contents [s]: the dictionary that [results["clauses"]]
    denotes once the first stage is over (the agent's copy, or the state
    itself if the task raised), the copy handed to the risk agent, and
    the dictionary handed to the dispatch agent (the risk agent's copy,
    or the state itself if the risk task raised). *)
Definition clause_result (s : LegalDocumentState) : LegalDocumentState :=
  match clause_agent s with
  | (c, None) => c
  | (_, Some _) => s
  end.

Definition risk_input (s : LegalDocumentState) : LegalDocumentState :=
  set_clause_count (clause_count (clause_result s))
    (set_extracted_clauses (extracted_clauses (clause_result s)) s).

Definition suggestion_input (s : LegalDocumentState) : LegalDocumentState :=
  match risk_agent (risk_input s) with
  | (r, None) => r
  | (_, Some _) => s
  end.

(** The agent leaves the fields of the other stages as it finds them. *)
Definition respects_ownership (agent : Agent) : Prop :=
  forall s,
    let s' := fst (agent s) in
    extracted_clauses s' = extracted_clauses s
    /\ clause_count s' = clause_count s
    /\ metadata_summary s' = metadata_summary s
    /\ document_outline s' = document_outline s
    /\ key_entities s' = key_entities s
    /\ risk_assessments s' = risk_assessments s
    /\ high_risk_count s' = high_risk_count s
    /\ overall_risk_score s' = overall_risk_score s.

(** The scheduler started on a single state dictionary. *)
Definition alone (s : LegalDocumentState) : World :=
  {| heap := [s]; started := []; pauses := [] |}.

(** No agent assigns the status of the dictionary it works on. *)
Definition keeps_status (agent : Agent) : Prop :=
  forall s, status (fst (agent s)) = status s.


(** One [try: ... except Exception as e: ...] block of
    [_execute_sequential_tasks]. *)
Definition sequential_step (label : string) (task : Py World Ref) (pause : bool)
    (state : Ref) (acc : Results * TaskErrors) : Py World (Results * TaskErrors) :=
  try_except
    (r <- task ;;
     (if pause then time_sleep 15 else ret tt) ;;
     ret (<[label := r]> (fst acc), snd acc))%py
    (fun e => ret (<[label := state]> (fst acc), snd acc ++ [(label, e)])).

Definition _execute_sequential_tasks (state : Ref) : Py World (Results * TaskErrors) :=
  (acc <- sequential_step "clauses" (_run_clause_task state) true state (∅, []) ;;
   acc <- sequential_step "summary" (_run_summary_task state) true state acc ;;
   acc <- (let clause_state := default state (fst acc !! "clauses") in
           sequential_step "risk" (_run_risk_task state clause_state) true state acc) ;;
   acc <- (let risk_state := default state (fst acc !! "risk") in
           sequential_step "suggestion" (_run_suggestion_task risk_state) false state acc) ;;
   ret acc)%py.

(** The outcome of a task under [asyncio.gather(..., return_exceptions=True)]. *)
Definition gathered {A} (task : Py World A) : Py World (Result A) :=
  fun w => let (r, w') := task w in (Val r, w').

(** [_execute_parallel_tasks]. The tasks work on copies of their own, so
    the order in which the pool runs the two independent ones does not
    show in the result; a task that awaits a failed task fails with the
    same exception. *)
Definition _execute_parallel_tasks (state : Ref) : Py World (Results * TaskErrors) :=
  (clause <- gathered (_run_clause_task state) ;;
   summary <- gathered (_run_summary_task state) ;;
   risk <- match clause with
           | Val clause_state => gathered (_run_risk_task state clause_state)
           | Exc e => ret (Exc e)
           end ;;
   suggestion <- match risk with
                 | Val risk_state => gathered (_run_suggestion_task risk_state)
                 | Exc e => ret (Exc e)
                 end ;;
   let collect label outcome (acc : Results * TaskErrors) :=
     match outcome with
     | Val r => (<[label := r]> (fst acc), snd acc)
     | Exc e => (fst acc, snd acc ++ [(label, e)])
     end in
   ret (collect "suggestion" suggestion
          (collect "risk" risk
             (collect "summary" summary
                (collect "clauses" clause (∅, []))))))%py.

Definition _run_parallel_execution (state : Ref) : Py World (Results * TaskErrors) :=
  if FORCE_SEQUENTIAL_EXECUTION then _execute_sequential_tasks state
  else match event_loop_failure with
       | Some e => raise e
       | None => _execute_parallel_tasks state
       end.

(** What [_execute_sequential_tasks] comes to when the scheduler is
    started on a single dictionary with contents [s]: every task runs
    once; a task that raised is entered in the error list and its entry
    in [results] is the state itself; the dispatch agent works in place
    on the dictionary that [results["risk"]] denotes. *)
Definition fallback (exc : option PyExc) (r state : Ref) : Ref :=
  match exc with None => r | Some _ => state end.

Definition failure (label : string) (exc : option PyExc) : TaskErrors :=
  match exc with Some e => [(label, e)] | None => [] end.

Definition pause_after (exc : option PyExc) : list Z :=
  match exc with None => [15%Z] | Some _ => [] end.

Definition sequential_outcome (s : LegalDocumentState)
  : (Results * TaskErrors) * World :=
  let clause := clause_agent s in
  let summary := summary_agent s in
  let risk := risk_agent (risk_input s) in
  let suggestion := dispatch_agent (suggestion_input s) in
  let risk_ref := fallback (snd risk) 3%nat 0%nat in
  ((<["suggestion" := fallback (snd suggestion) risk_ref 0%nat]>
      (<["risk" := risk_ref]>
         (<["summary" := fallback (snd summary) 2%nat 0%nat]>
            (<["clauses" := fallback (snd clause) 1%nat 0%nat]> ∅))),
    failure "clauses" (snd clause) ++ failure "summary" (snd summary)
      ++ failure "risk" (snd risk) ++ failure "suggestion" (snd suggestion)),
   {| heap := match snd risk with
              | None => [s; fst clause; fst summary; fst suggestion]
              | Some _ => [fst suggestion; fst clause; fst summary; fst risk]
              end;
      started := ["clauses"; "summary"; "risk"; "suggestion"];
      pauses := pause_after (snd clause) ++ pause_after (snd summary)
                  ++ pause_after (snd risk) |}).

(** [for label, exc in task_errors: state["errors"].append(...)] *)
Fixpoint record_task_errors (state : Ref) (task_errors : TaskErrors) : Py World unit :=
  match task_errors with
  | [] => ret tt
  | (label, exc) :: rest =>
      (update state (append_error (label +:+ "_task: " +:+ exc_str exc)) ;;
       record_task_errors state rest)%py
  end.

Definition merge_clauses (state clause_state : Ref) : Py World unit :=
  (copy_key extracted_clauses set_extracted_clauses clause_state state ;;
   copy_key clause_count set_clause_count clause_state state ;;
   _extend_audit_log state clause_state)%py.

Definition merge_summary (state summary_state : Ref) : Py World unit :=
  (copy_key metadata_summary set_metadata_summary summary_state state ;;
   copy_key document_outline set_document_outline summary_state state ;;
   copy_key key_entities set_key_entities summary_state state ;;
   _extend_audit_log state summary_state)%py.

Definition merge_risk (state risk_state : Ref) : Py World unit :=
  (copy_key risk_assessments set_risk_assessments risk_state state ;;
   copy_key high_risk_count set_high_risk_count risk_state state ;;
   copy_key overall_risk_score set_overall_risk_score risk_state state ;;
   copy_key recommendation_trace set_recommendation_trace risk_state state ;;
   copy_key context_bundle set_context_bundle risk_state state ;;
   copy_key ready_for_suggestions set_ready_for_suggestions risk_state state ;;
   copy_key cost_spent set_cost_spent risk_state state ;;
   extend_key planning_notes set_planning_notes risk_state state ;;
   (w <- get ;;
    if truthy_str (status (deref w risk_state))
    then copy_key status set_status risk_state state else ret tt) ;;
   extend_key errors set_errors risk_state state ;;
   _extend_audit_log state risk_state)%py.

Definition merge_suggestion (state suggestion_state : Ref) : Py World unit :=
  (extend_key planning_notes set_planning_notes suggestion_state state ;;
   (w <- get ;;
    if truthy_opt_dict (adk_b_response (deref w suggestion_state))
    then copy_key adk_b_response set_adk_b_response suggestion_state state
    else ret tt) ;;
   (w <- get ;;
    if truthy_str (status (deref w suggestion_state))
    then copy_key status set_status suggestion_state state else ret tt) ;;
   extend_key errors set_errors suggestion_state state ;;
   _extend_audit_log state suggestion_state)%py.

(** [if x_state: ...] with [x_state = results.get(label) or {}] *)
Definition when_present (results : Results) (label : string)
    (merge : Ref -> Py World unit) : Py World unit :=
  match results !! label with
  | Some r => merge r
  | None => ret tt
  end.

Definition parallel_audit (s : LegalDocumentState) : AuditEntry :=
  {| agent_name := name; action := "parallel_insights";
     input_data := [("strategy", processing_strategy s);
                    ("tasks", "clause_extraction, metadata_summary, "
                              +:+ "risk_detection, suggestion_dispatch")];
     output_data := [("clause_count", pretty (clause_count s));
                     ("high_risk_count", pretty (high_risk_count s));
                     ("ready_for_suggestions",
                      if ready_for_suggestions s then "True" else "False")];
     model_used := "parallel_executor" |}.

(** The statements of [process] that follow the call of
    [_run_parallel_execution], up to the end of the [try] block. *)
Definition merge_results (state : Ref) (out : Results * TaskErrors) : Py World unit :=
  (let results := fst out in
   record_task_errors state (snd out) ;;
   when_present results "clauses" (merge_clauses state) ;;
   when_present results "summary" (merge_summary state) ;;
   when_present results "risk" (merge_risk state) ;;
   when_present results "suggestion" (merge_suggestion state) ;;
   update state (fun s => set_audit_log (audit_log s ++ [parallel_audit s]) s))%py.

Definition process (state : Ref) : Py World Ref :=
  (try_except
     (out <- _run_parallel_execution state ;;
      merge_results state out)
     (fun exc => update state (append_error (name +:+ ": " +:+ exc_str exc))) ;;
   ret state)%py.

(** There is a dictionary on the heap, and each one has the status [st]. *)
Definition all_status (st : string) (w : World) : Prop :=
  heap w <> [] /\ Forall (fun c => status c = st) (heap w).

End Agents.

End Scheduler.

(** ** The workflow entry point (src/graph/workflow.py) *)

Module Workflow.

Import Scheduler.

Section Agents.

Variable ingestion_agent planning_agent : Agent.
Variable clause_agent summary_agent risk_agent dispatch_agent : Agent.
Variable FORCE_SEQUENTIAL_EXECUTION : bool.
Variable event_loop_failure : option PyExc.

Definition initial_state (document_id : string) (document_path : option string)
    (document_text : option string) (document_type : string) : LegalDocumentState :=
  {| document_id := document_id; document_path := document_path;
     document_text := default "" document_text; document_type := document_type;
     parsed_text := ""; metadata := []; page_count := 0;
     document_category := document_type; metadata_summary := [];
     key_entities := []; document_outline := []; extracted_clauses := [];
     clause_count := 0; risk_assessments := []; high_risk_count := 0;
     overall_risk_score := 0; document_complexity := 0;
     use_complex_model := false; processing_strategy := "standard";
     model_plan := []; cost_budget := 0; cost_spent := 0; planning_notes := [];
     parallel_tasks := []; ready_for_suggestions := false;
     adk_b_response := None; context_bundle := []; audit_log := [];
     recommendation_trace := []; errors := []; status := "pending" |}.

(** [app.invoke(initial_state)]: the graph runs its three nodes in the
    order of its edges, each on the state the node before it returned;
    the dictionary of the caller is not touched, and an exception of a
    node leaves [invoke]. *)
Definition invoke_graph (initial : Ref) : Py World Ref :=
  (s <- deepcopy initial ;;
   s <- invoke "ingest_document" ingestion_agent s ;;
   s <- invoke "plan_pipeline" planning_agent s ;;
   process clause_agent summary_agent risk_agent dispatch_agent
           FORCE_SEQUENTIAL_EXECUTION event_loop_failure s)%py.

(** The world in which the graph starts: [initial_state] is the newest
    dictionary on the heap. *)
Definition graph_start (document_id : string) (document_path document_text : option string)
    (document_type : string) (w : World) : World :=
  {| heap := heap w ++ [initial_state document_id document_path document_text
                          document_type];
     started := started w; pauses := pauses w |}.

Definition run_adk_a (document_id : string) (document_path : option string)
    (document_text : option string) (document_type : string)
  : Py World LegalDocumentState :=
  (initial <- (fun w => (Val (length (heap w)),
                         graph_start document_id document_path document_text
                                     document_type w)) ;;
   try_except
     (result <- invoke_graph initial ;;
      w <- get ;; ret (deref w result))
     (fun e =>
        update initial (set_status "error") ;;
        update initial (append_error ("Workflow error: " +:+ exc_str e)) ;;
        w <- get ;; ret (deref w initial)))%py.

End Agents.

End Workflow.

(** ** Concrete runs

    The inputs of the examples that close the development. *)

Module Scenarios.

Definition clock0 : Clock := {| clock_now := 1000; clock_drift := [] |}.

(** Stands in for the truncated SHA-256 digest; the examples do not
    depend on the value of a key, only on what it is computed from. *)
Definition digest (prompt : string) : string := "sha256:" +:+ prompt.

(** A model that answers every request with [reply]. *)
Definition answering (name reply : string) : Llm.GenerativeModel :=
  {| Llm.model_name := name; Llm.respond := fun _ _ => Val reply |}.

Definition unavailable : PyExc :=
  {| exc_class := ServiceErrorC; status_code := Some 503%Z;
     exc_str := "503 UNAVAILABLE" |}.

Definition bad_request : PyExc :=
  {| exc_class := ServiceErrorC; status_code := Some 400%Z;
     exc_str := "400 INVALID_ARGUMENT" |}.

(** A model whose every call raises [exc]. *)
Definition failing (name : string) (exc : PyExc) : Llm.GenerativeModel :=
  {| Llm.model_name := name; Llm.respond := fun _ _ => Exc exc |}.

Definition flash : Llm.GenerativeModel := answering "gemini-2.0-flash" "flash says".
Definition pro : Llm.GenerativeModel := answering "gemini-1.5-pro" "pro says".
Definition down : Llm.GenerativeModel := failing "gemini-2.0-flash" unavailable.

Definition request (model : Llm.GenerativeModel) (prompt : string) : Llm.Request :=
  {| Llm.req_model := model; Llm.req_prompt := prompt; Llm.req_max_attempts := Some 3%Z;
     Llm.req_base_delay := 3; Llm.req_enable_cache := true |}.

(** The two client classes as the library ships them. *)
Definition genai0 : GlobalLimiter.GenaiModels :=
  {| GlobalLimiter.Models :=
       Some {| GlobalLimiter.generate_content := Some GlobalLimiter.Original |};
     GlobalLimiter.AsyncModels :=
       Some {| GlobalLimiter.generate_content := Some GlobalLimiter.Original |} |}.

Definition connection_refused : PyExc :=
  {| exc_class := RequestExceptionC; status_code := None;
     exc_str := "Connection refused" |}.

(** A server that cannot be reached. *)
Definition unreachable : nat -> Dispatch.HttpOutcome :=
  fun _ => Dispatch.RequestFailed connection_refused.

(** A state in the middle of a run, with risks found. *)
Definition processing_state : LegalDocumentState :=
  set_ready_for_suggestions true (set_status "processing" blank_state).

(** An agent that returns the state as it got it, and one that raises
    before it has touched the state. *)
Definition returning : Agent := fun s => (s, None).
Definition raising (msg : string) : Agent := fun s => (s, Some (RuntimeError msg)).

(** The dispatch agent with dispatch switched off. *)
Definition dispatch_disabled : Agent :=
  Dispatch.agent false "http://localhost:8002/mcp" unreachable.

Definition no_heap : Scheduler.World :=
  {| Scheduler.heap := []; Scheduler.started := []; Scheduler.pauses := [] |}.

End Scenarios.

(** * The rest of the engine

    Definitions for the parts of the code that the properties above do not
    reach, and for the further properties of the parts they do. *)

(** ** Runs of the dispatch agent *)

Module DispatchRuns.

Import Dispatch.

(** The agent is called on the state [s]; nothing was posted yet. *)
Definition start (s : LegalDocumentState) : World :=
  {| state := s; posts := []; sleeps := [] |}.

(** The first [k] posts fail with a [requests.RequestException]. *)
Definition request_failures (http : nat -> HttpOutcome) (k : nat) : Prop :=
  forall i, (i < k)%nat -> exists exc, http i = RequestFailed exc.

(** [BACKOFF_SECONDS * attempt] for the attempts 1 to [k]. *)
Definition backoff_sleeps (k : nat) : list Z :=
  map (fun i => (BACKOFF_SECONDS * Z.of_nat (S i))%Z) (seq 0 k).

End DispatchRuns.

(** ** One caller at the gate of the process-wide limiter *)

Module GlobalGate.

Import GlobalLimiter.
Local Open Scope Q_scope.

(** The value [_compute_wait(now)] returns in the state [w]. *)
Definition wait_value (w : World) (now : Q) : Q :=
  let history := popleft_while (now - 60) (_REQUEST_HISTORY w) in
  let wait_window :=
    if (_RPM_LIMIT w <=? Z.of_nat (length history))%Z
    then match history with
         | oldest :: _ => fmax 0 (60 - (now - oldest))
         | [] => 0
         end
    else 0 in
  fmax (fmax ((_LAST_REQUEST_TS w + _MIN_INTERVAL w) - now) wait_window) 0.

(** The minimum interval since the last request has passed. *)
Definition interval_over (w : World) : Prop :=
  _LAST_REQUEST_TS w + _MIN_INTERVAL w <= clock_now (clock w).

(** The history holds no more requests than the limit, and the oldest
    of them is at least 60 s old. *)
Definition window_over (w : World) : Prop :=
  (Z.of_nat (length (_REQUEST_HISTORY w)) <= _RPM_LIMIT w)%Z
  /\ match _REQUEST_HISTORY w with
     | oldest :: _ => oldest + 60 <= clock_now (clock w)
     | [] => True
     end.

(** The state after [time.sleep(d)]. *)
Definition slept (d : Q) (w : World) : World := set_clock (elapse d (clock w)) w.

(** The two loops differ only in the sleep: [nap wait_for] is its length. *)
Fixpoint block_until_slot (nap : Q -> Q) (fuel : nat) : Py World bool :=
  match fuel with
  | O => ret false
  | S fuel' =>
      (r <- locked_section ;;
       match r with
       | None => ret true
       | Some wait_for => time_sleep (nap wait_for) ;; block_until_slot nap fuel'
       end)%py
  end.

(** Is there a class for the installer to patch? *)
Definition patchable (g : option GenaiModels) : bool :=
  match g with
  | Some genai =>
      match Models genai, AsyncModels genai with
      | None, None => false
      | _, _ => true
      end
  | None => false
  end.

(** The arguments of the first call of the installer among [acts]. *)
Fixpoint first_install (acts : list Action) : option (Q * Z) :=
  match acts with
  | [] => None
  | Install min_interval rpm_limit :: _ => Some (min_interval, rpm_limit)
  | _ :: rest => first_install rest
  end.

End GlobalGate.


(** ** Runs of the scheduler *)

Module SchedulerRuns.

Import Scheduler.

(** The dictionary of a task: the one at address [S i], when [rest] are
    the dictionaries after the state dictionary. *)
Definition task_state (i : nat) (rest : list LegalDocumentState) : LegalDocumentState :=
  default blank_state (rest !! i).

(** [m] returns, and all it does is to replace the contents [s0] of the
    state dictionary by [f rest s0]. *)
Definition rewrites (m : Py World unit)
    (f : list LegalDocumentState -> LegalDocumentState -> LegalDocumentState) : Prop :=
  forall s0 rest st ps,
    m {| heap := s0 :: rest; started := st; pauses := ps |}
    = (Val tt, {| heap := f rest s0 :: rest; started := st; pauses := ps |}).

End SchedulerRuns.

(** ** Further concrete runs *)

Module Runs.

Import Scenarios.

(** A server that refuses the first connection and answers the second
    post; one that answers 500; one whose body is not JSON; one whose
    client library raises something that is no request exception. *)
Definition suggestions : Dict := [("status", "ok")].

Definition flaky : nat -> Dispatch.HttpOutcome :=
  fun n => match n with
           | O => Dispatch.RequestFailed connection_refused
           | _ => Dispatch.Responded 200 (Val suggestions)
           end.

Definition overloaded : nat -> Dispatch.HttpOutcome :=
  fun _ => Dispatch.Responded 500 (Val []).

Definition not_json : PyExc := ValueError "Expecting value: line 1 column 1 (char 0)".

Definition garbled : nat -> Dispatch.HttpOutcome :=
  fun _ => Dispatch.Responded 200 (Exc not_json).

(** A model that is unavailable at the first call of the process and
    answers from the second on. *)
Definition recovering : Llm.GenerativeModel :=
  {| Llm.model_name := "gemini-2.0-flash";
     Llm.respond := fun n _ => match n with
                               | O => Exc unavailable
                               | _ => Val "recovered"
                               end |}.

(** A model that rejects every request. *)
Definition rejecting : Llm.GenerativeModel := failing "gemini-2.0-flash" bad_request.

(** The limiter after [install_global_llm_rate_limiter(15, 4)]. *)
Definition installed : GlobalLimiter.World :=
  snd (GlobalLimiter.install_global_llm_rate_limiter 15 4
         (GlobalLimiter.module_init clock0 (Some genai0))).

(** A clause agent that finds one clause, and a risk agent that rates it
    high. *)
Definition one_clause : Clause :=
  {| clause_id := "clause_1"; clause_type := "liability";
     clause_text := "The supplier is liable without limit.";
     clause_location := "Section 5"; clause_confidence := 9 # 10 |}.

Definition finding_clause : Agent :=
  fun s => (set_clause_count 1 (set_extracted_clauses [one_clause] s), None).

Definition rating_high : Agent :=
  fun s => (set_ready_for_suggestions true (set_high_risk_count 1 s), None).

End Runs.

(** * Properties *)

(** ** The sliding window *)

Section SlidingWindow.

Variable min_interval : Q.
Variable rpm_limit : Z.
Hypothesis min_interval_pos : (0 < min_interval)%Q.
Hypothesis rpm_limit_pos : (1 <= rpm_limit)%Z.

Lemma count_if_app p l1 l2 :
  count_if p (l1 ++ l2) = (count_if p l1 + count_if p l2)%nat.
Proof.
  induction l1 as [|x l1 IH]; simpl; [reflexivity|].
  destruct (p x); simpl; rewrite IH; reflexivity.
Qed.

Lemma count_if_le_length p l : (count_if p l <= length l)%nat.
Proof.
  induction l as [|x l IH]; simpl; [lia|]. destruct (p x); lia.
Qed.

Lemma count_if_none p l :
  Forall (fun x => p x = false) l -> count_if p l = 0%nat.
Proof.
  induction 1 as [|x l Hx _ IH]; simpl; [reflexivity|]. rewrite Hx. exact IH.
Qed.

Lemma count_if_mono p q l :
  (forall x, In x l -> p x = true -> q x = true) ->
  (count_if p l <= count_if q l)%nat.
Proof.
  induction l as [|x l IH]; simpl; intros Hpq; [lia|].
  assert (IH' : (count_if p l <= count_if q l)%nat).
  { apply IH. intros y Hy. apply Hpq. right. exact Hy. }
  destruct (p x) eqn:Hp.
  - rewrite (Hpq x (or_introl eq_refl) Hp). lia.
  - destruct (q x); lia.
Qed.

Lemma count_if_strict p q l x0 :
  (forall x, In x l -> p x = true -> q x = true) ->
  In x0 l -> q x0 = true -> p x0 = false ->
  (count_if p l < count_if q l)%nat.
Proof.
  induction l as [|x l IH]; simpl; intros Hpq Hin Hq Hp; [destruct Hin|].
  assert (Hpq' : forall y, In y l -> p y = true -> q y = true).
  { intros y Hy. apply Hpq. right. exact Hy. }
  destruct Hin as [->|Hin].
  - rewrite Hp, Hq. pose proof (count_if_mono p q l Hpq'). lia.
  - specialize (IH Hpq' Hin Hq Hp). destruct (p x) eqn:Hpx.
    + rewrite (Hpq x (or_introl eq_refl) Hpx). lia.
    + destruct (q x); lia.
Qed.

Lemma in_window_true t g :
  in_window t g = true <-> (t - 60 < g /\ g <= t)%Q.
Proof.
  unfold in_window.
  destruct (Qlt_le_dec (t - 60) g), (Qlt_le_dec t g); split;
    intros H; try discriminate; try reflexivity; try (split; assumption);
    destruct H; lra.
Qed.

Lemma in_window_false t g :
  in_window t g = false <-> (g <= t - 60 \/ t < g)%Q.
Proof.
  unfold in_window.
  destruct (Qlt_le_dec (t - 60) g), (Qlt_le_dec t g); split;
    intros H; try discriminate; try reflexivity; try (left; assumption);
    try (right; assumption); destruct H; lra.
Qed.

Lemma after_true t g : after t g = true <-> (t - 60 < g)%Q.
Proof.
  unfold after. destruct (Qlt_le_dec (t - 60) g); split; intros H;
    try discriminate; try reflexivity; try assumption; lra.
Qed.

Lemma after_false t g : after t g = false <-> (g <= t - 60)%Q.
Proof.
  unfold after. destruct (Qlt_le_dec (t - 60) g); split; intros H;
    try discriminate; try reflexivity; try assumption; lra.
Qed.

Lemma popleft_while_split ws h :
  exists dropped, h = dropped ++ popleft_while ws h
                  /\ Forall (fun g => g < ws)%Q dropped.
Proof.
  induction h as [|x h IH]; simpl.
  - exists []. split; [reflexivity | constructor].
  - destruct (Qlt_le_dec x ws) as [Hlt|Hge].
    + destruct IH as (d & Hd & Hall). exists (x :: d). split.
      * simpl. f_equal. exact Hd.
      * constructor; assumption.
    + exists []. split; [reflexivity | constructor].
Qed.

Lemma popleft_while_head ws h x t :
  popleft_while ws h = x :: t -> (ws <= x)%Q.
Proof.
  induction h as [|y h IH]; simpl; [discriminate|].
  destruct (Qlt_le_dec y ws) as [Hlt|Hge]; [exact IH|].
  intros [= -> _]. exact Hge.
Qed.

Lemma popleft_while_length ws h :
  (length (popleft_while ws h) <= length h)%nat.
Proof.
  induction h as [|y h IH]; simpl; [lia|].
  destruct (Qlt_le_dec y ws); simpl; lia.
Qed.

Lemma limiter_inv_init last now : limiter_inv min_interval rpm_limit [] [] last now.
Proof.
  split.
  - exists []. split; [reflexivity | constructor].
  - constructor.
  - constructor.
  - intros i j a b _ Hi. rewrite lookup_nil in Hi. discriminate.
  - intros t. unfold window_count. simpl. lia.
Qed.

Lemma Forall_Qle_trans (l : list Q) (a b : Q) :
  (a <= b)%Q -> Forall (fun g => g <= a)%Q l -> Forall (fun g => g <= b)%Q l.
Proof.
  intros Hab. induction 1 as [|x l Hx _ IH]; constructor; [lra | exact IH].
Qed.

Lemma limiter_inv_later granted history last now now' :
  (now <= now')%Q ->
  limiter_inv min_interval rpm_limit granted history last now ->
  limiter_inv min_interval rpm_limit granted history last now'.
Proof.
  intros Hle [(d & Hd & Hdrop) Hlast Hnow Hsp Hwin]. split; try assumption.
  - exists d. split; [exact Hd|].
    apply Forall_Qle_trans with (a := (now - 60)%Q); [lra | exact Hdrop].
  - apply Forall_Qle_trans with (a := now); assumption.
Qed.

Lemma limiter_inv_prune granted history last now ws :
  (ws <= now - 60)%Q ->
  limiter_inv min_interval rpm_limit granted history last now ->
  limiter_inv min_interval rpm_limit granted (popleft_while ws history) last now.
Proof.
  intros Hws [(d & Hd & Hdrop) Hlast Hnow Hsp Hwin]. split; try assumption.
  destruct (popleft_while_split ws history) as (d' & Hd' & Hdrop').
  exists (d ++ d'). split.
  - rewrite <- app_assoc, <- Hd'. exact Hd.
  - apply Forall_app. split; [exact Hdrop|].
    clear Hd'. induction Hdrop' as [|x l Hx _ IH]; constructor; [lra | exact IH].
Qed.

Lemma limiter_inv_drop_head granted x history last now :
  (x <= now - 60)%Q ->
  limiter_inv min_interval rpm_limit granted (x :: history) last now ->
  limiter_inv min_interval rpm_limit granted history last now.
Proof.
  intros Hx [(d & Hd & Hdrop) Hlast Hnow Hsp Hwin]. split; try assumption.
  exists (d ++ [x]). split.
  - rewrite <- app_assoc. exact Hd.
  - apply Forall_app. split; [exact Hdrop|]. constructor; [exact Hx | constructor].
Qed.

(** The two ways in which the code finds a free slot in the window. *)
Lemma slot_free_short granted history last now ts :
  limiter_inv min_interval rpm_limit granted history last now ->
  (now <= ts)%Q ->
  (Z.of_nat (length history) < rpm_limit)%Z ->
  (Z.of_nat (count_if (after ts) granted) < rpm_limit)%Z.
Proof.
  intros [(d & -> & Hdrop) _ _ _ _] Hts Hlen.
  rewrite count_if_app, (count_if_none (after ts) d).
  - pose proof (count_if_le_length (after ts) history). lia.
  - clear -Hdrop Hts. induction Hdrop as [|x l Hx _ IH]; constructor; [|exact IH].
    apply after_false. lra.
Qed.

Lemma slot_free_expired granted oldest history last now ts :
  limiter_inv min_interval rpm_limit granted (oldest :: history) last now ->
  (last <= ts)%Q ->
  (last - 60 < oldest)%Q ->
  (oldest <= ts - 60)%Q ->
  (Z.of_nat (count_if (after ts) granted) < rpm_limit)%Z.
Proof.
  intros [(d & Hd & _) Hlast _ _ Hwin] Hts Hnew Hold.
  assert (Hin : In oldest granted).
  { rewrite Hd. apply in_or_app. right. left. reflexivity. }
  assert (Hle : forall x, In x granted -> (x <= last)%Q).
  { intros x Hx. rewrite Forall_forall in Hlast. apply Hlast.
    apply list_elem_of_In. exact Hx. }
  assert (Hlt : (count_if (after ts) granted < count_if (in_window last) granted)%nat).
  { apply count_if_strict with (x0 := oldest); [|exact Hin| |].
    - intros x Hx Hafter. apply after_true in Hafter. apply in_window_true.
      split; [lra | apply Hle; exact Hx].
    - apply in_window_true. split; [exact Hnew | apply Hle; exact Hin].
    - apply after_false. exact Hold. }
  specialize (Hwin last). unfold window_count in Hwin. lia.
Qed.

(** Recording a grant at [ts] keeps the invariant, provided the interval
    since the last grant has passed and the window has a free slot. *)
Lemma limiter_inv_grant granted history last now ts :
  limiter_inv min_interval rpm_limit granted history last now ->
  (now <= ts)%Q ->
  (last + min_interval <= ts)%Q ->
  (Z.of_nat (count_if (after ts) granted) < rpm_limit)%Z ->
  limiter_inv min_interval rpm_limit (granted ++ [ts]) (history ++ [ts]) ts ts.
Proof.
  intros Hinv Hnow Hgap Hfree.
  destruct Hinv as [(d & Hd & Hdrop) Hlast Hle Hsp Hwin]. split.
  - exists d. split; [rewrite Hd, app_assoc; reflexivity|].
    apply Forall_Qle_trans with (a := (now - 60)%Q); [lra | exact Hdrop].
  - apply Forall_app. split.
    + apply Forall_Qle_trans with (a := now); assumption.
    + constructor; [lra | constructor].
  - apply Forall_app. split.
    + apply Forall_Qle_trans with (a := now); assumption.
    + constructor; [lra | constructor].
  - intros i j a b Hij Hi Hj.
    destruct (Nat.lt_ge_cases j (length granted)) as [Hjl|Hjl].
    + rewrite lookup_app_l in Hi by lia. rewrite lookup_app_l in Hj by lia.
      exact (Hsp i j a b Hij Hi Hj).
    + rewrite lookup_app_r in Hj by lia.
      destruct (j - length granted)%nat as [|k] eqn:Hk; simpl in Hj; [|discriminate].
      injection Hj as <-.
      rewrite lookup_app_l in Hi by lia.
      pose proof (Forall_lookup_1 _ _ _ _ Hlast Hi) as Ha. simpl in Ha. lra.
  - intros t. unfold window_count. rewrite count_if_app. simpl.
    destruct (in_window t ts) eqn:Hin.
    + apply in_window_true in Hin. destruct Hin as [Hlo Hhi].
      assert (Hm : (count_if (in_window t) granted <= count_if (after ts) granted)%nat).
      { apply count_if_mono. intros x _ Hx. apply in_window_true in Hx.
        apply after_true. lra. }
      lia.
    + specialize (Hwin t). unfold window_count in Hwin. lia.
Qed.

End SlidingWindow.

(** ** The [Py] monad *)

Section PyLemmas.

Context {W : Type}.
Variable P : W -> Prop.

Lemma preserves_ret {A} (a : A) : preserves P (ret a).
Proof. intros w Hw. exact Hw. Qed.

Lemma preserves_raise {A} e : preserves P (@raise W A e).
Proof. intros w Hw. exact Hw. Qed.

Lemma preserves_get : preserves P get.
Proof. intros w Hw. exact Hw. Qed.

Lemma preserves_bind {A B} (m : Py W A) (k : A -> Py W B) :
  preserves P m -> (forall a, preserves P (k a)) -> preserves P (bind m k).
Proof.
  intros Hm Hk w Hw. unfold bind. specialize (Hm w Hw).
  destruct (m w) as [[a|e] w']; simpl in *; [apply Hk; exact Hm | exact Hm].
Qed.

Lemma preserves_try_except {A} (body : Py W A) handler :
  preserves P body -> (forall e, preserves P (handler e)) ->
  preserves P (try_except body handler).
Proof.
  intros Hb Hh w Hw. unfold try_except. specialize (Hb w Hw).
  destruct (body w) as [[a|e] w']; simpl in *; [exact Hb | apply Hh; exact Hb].
Qed.

End PyLemmas.

Section HoareLemmas.

Context {W : Type}.

Lemma hoare_ret {A} (P : W -> Prop) (a : A) Q :
  (forall w, P w -> Q (Val a) w) -> hoare P (ret a) Q.
Proof. intros H w Hw. apply H. exact Hw. Qed.

Lemma hoare_raise {A} (P : W -> Prop) e (Q : Result A -> W -> Prop) :
  (forall w, P w -> Q (Exc e) w) -> hoare P (raise e) Q.
Proof. intros H w Hw. apply H. exact Hw. Qed.

Lemma hoare_get (P : W -> Prop) Q :
  (forall w, P w -> Q (Val w) w) -> hoare P get Q.
Proof. intros H w Hw. apply H. exact Hw. Qed.

Lemma hoare_modify (P : W -> Prop) f Q :
  (forall w, P w -> Q (Val tt) (f w)) -> hoare P (modify f) Q.
Proof. intros H w Hw. apply H. exact Hw. Qed.

Lemma hoare_bind {A B} (R : A -> W -> Prop) (P : W -> Prop)
    (m : Py W A) (k : A -> Py W B) Q :
  hoare P m (fun r w => match r with Val a => R a w | Exc e => Q (Exc e) w end) ->
  (forall a, hoare (R a) (k a) Q) ->
  hoare P (bind m k) Q.
Proof.
  intros Hm Hk w Hw. unfold bind. specialize (Hm w Hw).
  destruct (m w) as [[a|e] w']; simpl in *; [apply Hk; exact Hm | exact Hm].
Qed.

Lemma hoare_weaken {A} (P P' : W -> Prop) (m : Py W A) (Q Q' : Result A -> W -> Prop) :
  hoare P' m Q' -> (forall w, P w -> P' w) -> (forall r w, Q' r w -> Q r w) ->
  hoare P m Q.
Proof. intros H HP HQ w Hw. apply HQ, H, HP, Hw. Qed.

Lemma hoare_preserves {A} (P : W -> Prop) (m : Py W A) :
  hoare P m (fun _ w => P w) -> preserves P m.
Proof. intros H w Hw. exact (H w Hw). Qed.

(** A [try] block whose handler cannot raise does not raise. *)
Lemma try_except_returns {A} (body : Py W A) handler :
  (forall e w, exists a w', handler e w = (Val a, w')) ->
  forall w, exists a w', try_except body handler w = (Val a, w').
Proof.
  intros Hh w. unfold try_except.
  destruct (body w) as [[a|e] w1]; [exists a, w1; reflexivity | apply Hh].
Qed.

End HoareLemmas.

Section KeepsLemmas.

Context {W B : Type}.
Variable f : W -> B.

Lemma keeps_ret {A} (a : A) : keeps f (ret a).
Proof. intros w. reflexivity. Qed.

Lemma keeps_raise {A} e : keeps f (@raise W A e).
Proof. intros w. reflexivity. Qed.

Lemma keeps_get : keeps f get.
Proof. intros w. reflexivity. Qed.

Lemma keeps_bind {A C} (m : Py W A) (k : A -> Py W C) :
  keeps f m -> (forall a, keeps f (k a)) -> keeps f (bind m k).
Proof.
  intros Hm Hk w. unfold bind. specialize (Hm w).
  destruct (m w) as [[a|e] w']; simpl in *; [rewrite Hk; exact Hm | exact Hm].
Qed.

End KeepsLemmas.

Section NeverRaises.

Context {W : Type}.

Lemma never_raises_ret {A} (a : A) : never_raises (@ret W A a).
Proof. intros w. exists a. reflexivity. Qed.

Lemma never_raises_get : never_raises (@get W).
Proof. intros w. exists w. reflexivity. Qed.

Lemma never_raises_modify (f : W -> W) : never_raises (modify f).
Proof. intros w. exists tt. reflexivity. Qed.

Lemma never_raises_bind {A B} (m : Py W A) (k : A -> Py W B) :
  never_raises m -> (forall a, never_raises (k a)) -> never_raises (bind m k).
Proof.
  intros Hm Hk w. unfold bind. destruct (Hm w) as [a Ha].
  destruct (m w) as [r w1]. simpl in Ha. subst r. apply Hk.
Qed.

Lemma never_raises_run {A} (m : Py W A) w :
  never_raises m -> exists a, m w = (Val a, snd (m w)).
Proof.
  intros Hm. destruct (Hm w) as [a Ha]. exists a.
  destruct (m w) as [r w1]. simpl in *. subst r. reflexivity.
Qed.

Lemma bind_val {A B} (m : Py W A) (k : A -> Py W B) w a w1 :
  m w = (Val a, w1) -> bind m k w = k a w1.
Proof. intros H. unfold bind. rewrite H. reflexivity. Qed.

Lemma try_except_val {A} (body : Py W A) handler w a w1 :
  body w = (Val a, w1) -> try_except body handler w = (Val a, w1).
Proof. intros H. unfold try_except. rewrite H. reflexivity. Qed.

End NeverRaises.

Lemma fmax_le_iff a b c : (fmax a b <= c <-> a <= c /\ b <= c)%Q.
Proof.
  unfold fmax. destruct (Qlt_le_dec a b); split.
  - intros H. split; lra.
  - intros [H1 H2]. lra.
  - intros H. split; lra.
  - intros [H1 H2]. lra.
Qed.

Lemma fmax_ge_l a b : (a <= fmax a b)%Q.
Proof. unfold fmax. destruct (Qlt_le_dec a b); lra. Qed.

Lemma fmax_ge_r a b : (b <= fmax a b)%Q.
Proof. unfold fmax. destruct (Qlt_le_dec a b); lra. Qed.

Lemma elapse_steady d c : steady c -> steady (elapse d c).
Proof.
  unfold steady, elapse. intros H. destruct (clock_drift c) as [|j js]; simpl.
  - constructor.
  - inversion H; assumption.
Qed.

Lemma elapse_now d c :
  steady c -> (clock_now c + d <= clock_now (elapse d c))%Q.
Proof.
  unfold steady, elapse. intros H. destruct (clock_drift c) as [|j js]; simpl.
  - lra.
  - inversion H; subst. lra.
Qed.

Lemma later_refl c : later c c.
Proof. intros H. split; [exact H | lra]. Qed.

Lemma later_trans c1 c2 c3 : later c1 c2 -> later c2 c3 -> later c1 c3.
Proof.
  intros H12 H23 H1. destruct (H12 H1) as [H2 Hle]. destruct (H23 H2) as [H3 Hle'].
  split; [exact H3 | lra].
Qed.

Lemma later_elapse d c : (0 <= d)%Q -> later c (elapse d c).
Proof.
  intros Hd H. split; [apply elapse_steady; exact H|].
  pose proof (elapse_now d c H). lra.
Qed.

(** ** The process-wide limiter *)

Section GlobalLimiterProofs.

Import GlobalLimiter.
Local Open Scope Q_scope.

Ltac split_ok :=
  unfold limiter_ok, sync_wrapped, async_wrapped; simpl;
  refine (conj _ (conj _ (conj _ (conj _ (conj _ _))))).

Lemma time_time_ok : preserves limiter_ok time_time.
Proof.
  intros w (Hst & Hmin & Hrpm & Hinv & Hwr & Hni). unfold time_time. simpl.
  split_ok; try assumption.
  - apply elapse_steady. exact Hst.
  - apply limiter_inv_later with (now := clock_now (clock w)); [|exact Hinv].
    pose proof (elapse_now 0 (clock w) Hst). lra.
Qed.

Lemma time_sleep_ok secs : preserves limiter_ok (time_sleep secs).
Proof.
  intros w Hw. unfold time_sleep. destruct (Qlt_le_dec secs 0) as [Hneg|Hpos]; [exact Hw|].
  destruct Hw as (Hst & Hmin & Hrpm & Hinv & Hwr & Hni). simpl.
  split_ok; try assumption.
  - apply elapse_steady. exact Hst.
  - apply limiter_inv_later with (now := clock_now (clock w)); [|exact Hinv].
    pose proof (elapse_now secs (clock w) Hst). lra.
Qed.

Lemma set_history_ok w ws :
  limiter_ok w -> ws <= clock_now (clock w) - 60 ->
  limiter_ok (set_history (popleft_while ws (_REQUEST_HISTORY w)) w).
Proof.
  intros (Hst & Hmin & Hrpm & Hinv & Hwr & Hni) Hws.
  split_ok; try assumption.
  - apply limiter_inv_prune; assumption.
  - intros Hoff. destruct (Hni Hoff) as [Hg Hh]. rewrite Hh. split; [exact Hg | reflexivity].
Qed.

(** [_compute_wait] prunes the history; a result that is not positive
    means that the interval has passed and the window has a free slot. *)
Lemma compute_wait_spec w now :
  limiter_ok w -> now = clock_now (clock w) ->
  let w' := set_history (popleft_while (now - 60) (_REQUEST_HISTORY w)) w in
  snd (_compute_wait now w) = w' /\
  forall wait_for, fst (_compute_wait now w) = Val wait_for ->
    wait_for <= 0 ->
    _LAST_REQUEST_TS w + _MIN_INTERVAL w <= now /\
    forall ts, now <= ts ->
      (Z.of_nat (count_if (after ts) (granted w)) < _RPM_LIMIT w)%Z.
Proof.
  intros Hok Hnow w'.
  assert (Hok' : limiter_ok w') by (apply set_history_ok; [exact Hok | subst now; lra]).
  destruct Hok as (Hst & Hmin & Hrpm & Hinv & Hwr & Hni).
  destruct Hok' as (_ & _ & _ & Hinv' & _ & _). simpl in Hinv'.
  unfold _compute_wait, bind, get, modify, ret, raise. simpl.
  fold w'.
  destruct (_RPM_LIMIT w <=? Z.of_nat (length (popleft_while (now - 60) (_REQUEST_HISTORY w))))%Z
    eqn:Hfull.
  - destruct (popleft_while (now - 60) (_REQUEST_HISTORY w)) as [|oldest rest] eqn:Hh; simpl.
    + split; [reflexivity | intros ? [=]].
    + split; [reflexivity|]. intros wait_for [= <-] Hwait.
      apply fmax_le_iff in Hwait. destruct Hwait as [Hwait _].
      apply fmax_le_iff in Hwait. destruct Hwait as [Hint Hwin].
      apply fmax_le_iff in Hwin. destruct Hwin as [_ Hwin].
      split; [lra|]. intros ts Hts.
      pose proof (popleft_while_head _ _ _ _ Hh) as Hhead.
      eapply slot_free_expired with (oldest := oldest) (ts := ts);
        [exact Hinv' | lra | lra | lra].
  - simpl. split; [reflexivity|]. intros wait_for [= <-] Hwait.
    apply fmax_le_iff in Hwait. destruct Hwait as [Hwait _].
    apply fmax_le_iff in Hwait. destruct Hwait as [Hint _].
    split; [lra|]. intros ts Hts.
    apply Z.leb_gt in Hfull.
    eapply slot_free_short with (ts := ts); [exact Hinv' | subst now; lra | exact Hfull].
Qed.

Lemma time_time_installed : preserves installed_ok time_time.
Proof.
  intros w [Hok Hon]. split; [apply time_time_ok; exact Hok | exact Hon].
Qed.

Lemma time_sleep_installed secs : preserves installed_ok (time_sleep secs).
Proof.
  intros w [Hok Hon]. split; [apply time_sleep_ok; exact Hok|].
  unfold time_sleep. destruct (Qlt_le_dec secs 0); exact Hon.
Qed.

Lemma locked_section_ok : preserves installed_ok locked_section.
Proof.
  intros w [Hok Hon]. unfold locked_section, bind.
  pose proof (time_time_ok w Hok) as Hok1.
  unfold time_time in *. simpl in Hok1.
  set (w1 := set_clock (elapse 0 (clock w)) w) in *.
  set (now := clock_now (elapse 0 (clock w))).
  destruct (compute_wait_spec w1 now Hok1 eq_refl) as [Hsnd Hfree].
  assert (Hok2 : limiter_ok (snd (_compute_wait now w1))).
  { rewrite Hsnd. apply set_history_ok; [exact Hok1 | simpl; fold now; lra]. }
  destruct (_compute_wait now w1) as [[wait_for|e] w2]; simpl in *;
    [|split; [exact Hok2 | subst w2; exact Hon]].
  destruct (Qlt_le_dec 0 wait_for) as [Hpos|Hnp]; simpl;
    [split; [exact Hok2 | subst w2; exact Hon]|].
  destruct (Hfree wait_for eq_refl Hnp) as [Hgap Hslot].
  destruct Hok2 as (Hst & Hmin & Hrpm & Hinv & Hwr & Hni).
  subst w2. simpl in *.
  set (ts := clock_now (elapse 0 (elapse 0 (clock w)))).
  assert (Hts : now <= ts).
  { pose proof (elapse_now 0 _ Hst). unfold ts, now. lra. }
  unfold ret. simpl. split; [|exact Hon].
  split_ok; try assumption.
  - apply elapse_steady. exact Hst.
  - eapply limiter_inv_grant; [exact Hinv | exact Hts | unfold ts, now in *; lra |].
    apply Hslot. exact Hts.
  - intros Hoff. rewrite Hon in Hoff. discriminate.
Qed.

Lemma block_until_slot_sync_ok fuel : preserves installed_ok (_block_until_slot_sync fuel).
Proof.
  induction fuel as [|fuel IH]; simpl.
  - apply preserves_ret.
  - apply preserves_bind; [exact locked_section_ok|].
    intros [wait_for|]; [|apply preserves_ret].
    apply preserves_bind; [apply time_sleep_installed | intros _; exact IH].
Qed.

Lemma block_until_slot_async_ok fuel : preserves installed_ok (_block_until_slot_async fuel).
Proof.
  induction fuel as [|fuel IH]; simpl.
  - apply preserves_ret.
  - apply preserves_bind; [exact locked_section_ok|].
    intros [wait_for|]; [|apply preserves_ret].
    apply preserves_bind; [apply time_sleep_installed | intros _; exact IH].
Qed.

Lemma gated_ok {A} (is_wrapped : World -> bool) (m : Py World A) :
  (forall w, limiter_ok w -> is_wrapped w = true -> _PATCH_INSTALLED w = true) ->
  preserves installed_ok m ->
  preserves limiter_ok (gated is_wrapped m).
Proof.
  intros Hgate Hm w Hok. unfold gated, bind, get. simpl.
  destruct (is_wrapped w) eqn:Hw; [|exact Hok].
  specialize (Hm w (conj Hok (Hgate w Hok Hw))).
  destruct (m w) as [[a|e] w']; simpl in *; apply Hm.
Qed.

Lemma install_ok min_interval rpm_limit :
  preserves limiter_ok (install_global_llm_rate_limiter min_interval rpm_limit).
Proof.
  intros w Hok. unfold install_global_llm_rate_limiter, bind, get. simpl.
  destruct (_PATCH_INSTALLED w) eqn:Hon; [exact Hok|].
  destruct (genai_models w) as [genai|] eqn:Hg; [|exact Hok].
  destruct Hok as (Hst & Hmin & Hrpm & Hinv & Hwr & Hni).
  destruct (Hni Hon) as [Hgr Hhist].
  assert (Hnew : limiter_ok
    (set_installed true
       (set_genai_models
          (Some {| Models := _wrap_method (Models genai);
                   AsyncModels := _wrap_method (AsyncModels genai) |})
          (set_limits (fmax min_interval (1 # 10)) (Z.max rpm_limit 1) w)))).
  { split_ok.
    - exact Hst.
    - pose proof (fmax_ge_r min_interval (1 # 10)). lra.
    - lia.
    - rewrite Hgr, Hhist. apply limiter_inv_init. lia.
    - reflexivity.
    - discriminate. }
  destruct (Models genai) as [m|] eqn:Hm, (AsyncModels genai) as [a|] eqn:Ha;
    simpl; try exact Hnew.
  split_ok; assumption.
Qed.

Lemma perform_ok a : preserves limiter_ok (perform a).
Proof.
  assert (Hs : forall w, limiter_ok w -> sync_wrapped w = true -> _PATCH_INSTALLED w = true).
  { intros w (_ & _ & _ & _ & Hwr & _) Hw. apply Hwr. rewrite Hw. reflexivity. }
  assert (Ha : forall w, limiter_ok w -> async_wrapped w = true -> _PATCH_INSTALLED w = true).
  { intros w (_ & _ & _ & _ & Hwr & _) Hw. apply Hwr. rewrite Hw. apply orb_true_r. }
  destruct a as [m r| | |fuel|fuel]; simpl.
  - apply install_ok.
  - apply gated_ok; [exact Hs | exact locked_section_ok].
  - apply gated_ok; [exact Ha | exact locked_section_ok].
  - apply gated_ok; [exact Hs | apply block_until_slot_sync_ok].
  - apply gated_ok; [exact Ha | apply block_until_slot_async_ok].
Qed.

Lemma run_ok acts : forall w, limiter_ok w -> limiter_ok (run acts w).
Proof.
  induction acts as [|a acts IH]; simpl; intros w Hok; [exact Hok|].
  apply IH. apply perform_ok. exact Hok.
Qed.

Lemma module_init_ok c g :
  steady c -> unpatched g = true -> limiter_ok (module_init c g).
Proof.
  intros Hst Hun. split_ok.
  - exact Hst.
  - reflexivity.
  - lia.
  - apply limiter_inv_init. lia.
  - intros Hw. exfalso. destruct g as [g|]; simpl in *; [|discriminate].
    destruct (wrapped (Models g)), (wrapped (AsyncModels g)); discriminate.
  - intros _. split; reflexivity.
Qed.

Lemma locked_section_setup : keeps setup locked_section.
Proof.
  unfold locked_section. apply keeps_bind; [intros w; reflexivity|]. intros now.
  apply keeps_bind.
  - unfold _compute_wait. apply keeps_bind; [apply keeps_get|]. intros w0.
    apply keeps_bind; [intros w; reflexivity|]. intros _.
    apply keeps_bind; [|intros; apply keeps_ret].
    destruct (_RPM_LIMIT w0 <=? _)%Z; [|apply keeps_ret].
    destruct (popleft_while _ _); [apply keeps_raise | apply keeps_ret].
  - intros wait_for. destruct (Qlt_le_dec 0 wait_for); [apply keeps_ret|].
    apply keeps_bind; [intros w; reflexivity|]. intros ts.
    apply keeps_bind; [intros w; reflexivity|]. intros _. apply keeps_ret.
Qed.

Lemma time_sleep_setup secs : keeps setup (time_sleep secs).
Proof. intros w. unfold time_sleep. destruct (Qlt_le_dec secs 0); reflexivity. Qed.

Lemma block_until_slot_sync_setup fuel : keeps setup (_block_until_slot_sync fuel).
Proof.
  induction fuel as [|fuel IH]; simpl; [apply keeps_ret|].
  apply keeps_bind; [exact locked_section_setup|].
  intros [wait_for|]; [|apply keeps_ret].
  apply keeps_bind; [apply time_sleep_setup | intros _; exact IH].
Qed.

Lemma block_until_slot_async_setup fuel : keeps setup (_block_until_slot_async fuel).
Proof.
  induction fuel as [|fuel IH]; simpl; [apply keeps_ret|].
  apply keeps_bind; [exact locked_section_setup|].
  intros [wait_for|]; [|apply keeps_ret].
  apply keeps_bind; [apply time_sleep_setup | intros _; exact IH].
Qed.

Lemma gated_setup {A} (is_wrapped : World -> bool) (m : Py World A) :
  keeps setup m -> keeps setup (gated is_wrapped m).
Proof.
  intros Hm. unfold gated. apply keeps_bind; [apply keeps_get|]. intros w0.
  destruct (is_wrapped w0); [|apply keeps_ret].
  apply keeps_bind; [exact Hm | intros; apply keeps_ret].
Qed.

Lemma install_when_installed min_interval rpm_limit w :
  _PATCH_INSTALLED w = true ->
  install_global_llm_rate_limiter min_interval rpm_limit w = (Val tt, w).
Proof.
  intros Hon. unfold install_global_llm_rate_limiter, bind, get. simpl.
  rewrite Hon. reflexivity.
Qed.

Lemma perform_setup a w :
  _PATCH_INSTALLED w = true -> setup (snd (perform a w)) = setup w.
Proof.
  intros Hon. destruct a as [m r| | |fuel|fuel]; simpl.
  - rewrite install_when_installed by exact Hon. reflexivity.
  - apply gated_setup. exact locked_section_setup.
  - apply gated_setup. exact locked_section_setup.
  - apply gated_setup. apply block_until_slot_sync_setup.
  - apply gated_setup. apply block_until_slot_async_setup.
Qed.

Lemma run_setup acts : forall w,
  _PATCH_INSTALLED w = true -> setup (run acts w) = setup w.
Proof.
  induction acts as [|a acts IH]; simpl; intros w Hon; [reflexivity|].
  pose proof (perform_setup a w Hon) as Hstep.
  rewrite IH; [exact Hstep|].
  unfold setup in Hstep. injection Hstep as _ _ Hflag _. rewrite Hflag. exact Hon.
Qed.

(** C10. Once a call of [install_global_llm_rate_limiter] has set
    [_PATCH_INSTALLED], every later call, whatever its arguments, returns
    at once and changes nothing; and whatever the process does afterwards
    (further calls of the installer, gated model calls of any thread),
    [_MIN_INTERVAL], [_RPM_LIMIT] and the patched methods stay those of
    that first successful call. *)
Theorem install_once_then_ignored
    (w0 : World) (min0 : Q) (rpm0 : Z) (acts : list Action) :
  let w1 := snd (install_global_llm_rate_limiter min0 rpm0 w0) in
  _PATCH_INSTALLED w1 = true ->
  (forall min_interval rpm_limit,
      install_global_llm_rate_limiter min_interval rpm_limit w1 = (Val tt, w1))
  /\ _MIN_INTERVAL (run acts w1) = _MIN_INTERVAL w1
  /\ _RPM_LIMIT (run acts w1) = _RPM_LIMIT w1
  /\ genai_models (run acts w1) = genai_models w1
  /\ _PATCH_INSTALLED (run acts w1) = true.
Proof.
  intros w1 Hon. split.
  - intros m r. apply install_when_installed. exact Hon.
  - pose proof (run_setup acts w1 Hon) as Hs. unfold setup in Hs.
    injection Hs as Hmin Hrpm Hflag Hgenai.
    repeat split; try assumption. rewrite Hflag. exact Hon.
Qed.

End GlobalLimiterProofs.

(** ** The limiter of llm.py *)

Section LlmLimiterProofs.

Import Llm.
Local Open Scope Q_scope.

Variable env : Environ.

Abbreviation LLM_RPM_LIMIT := (LLM_RPM_LIMIT env).
Abbreviation MIN_INTERVAL := (MIN_INTERVAL env).
Abbreviation _respect_rate_limits := (_respect_rate_limits env).

Lemma LLM_RPM_LIMIT_pos : (1 <= LLM_RPM_LIMIT)%Z.
Proof. unfold Llm.LLM_RPM_LIMIT, ConfigA.LLM_RPM_LIMIT. lia. Qed.

(** What [_respect_rate_limits] leaves alone: it returns (it never
    raises), records exactly one grant, and only lets time pass. *)
Lemma respect_rate_limits_frame w :
  exists w',
    _respect_rate_limits w = (Val tt, w')
    /\ RESPONSE_CACHE w' = RESPONSE_CACHE w
    /\ calls w' = calls w
    /\ slept w' = slept w
    /\ granted w' = granted w ++ [LAST_REQUEST_TS w']
    /\ later (clock w) (clock w').
Proof.
  pose proof LLM_RPM_LIMIT_pos as Hrpm.
  assert (Hnil : (LLM_RPM_LIMIT <=? Z.of_nat 0)%Z = false) by (apply Z.leb_gt; lia).
  unfold Llm._respect_rate_limits, bind, time_time, get, prune, modify, ret, time_sleep.
  simpl.
  repeat match goal with
         | |- context [Qlt_le_dec ?a ?b] =>
             destruct (Qlt_le_dec a b); try lra; simpl
         | |- context [popleft_while ?a ?b] =>
             destruct (popleft_while a b); simpl; rewrite ?Hnil; simpl
         | |- context [(?a <=? ?b)%Z] =>
             destruct (a <=? b)%Z; simpl
         end;
    (eexists; split; [reflexivity|]; simpl;
     refine (conj eq_refl (conj eq_refl (conj eq_refl (conj eq_refl _))));
     repeat first [ apply later_refl
                  | eapply later_trans; [|apply later_elapse; lra] ]).
Qed.

Lemma hoare_time_time (P : World -> Prop) Q :
  (forall w, P w ->
     Q (Val (clock_now (elapse 0 (clock w)))) (set_clock (elapse 0 (clock w)) w)) ->
  hoare P time_time Q.
Proof. intros H w Hw. apply H. exact Hw. Qed.

Lemma hoare_time_sleep (P : World -> Prop) secs (Q : Result unit -> World -> Prop) :
  0 <= secs ->
  (forall w, P w -> Q (Val tt) (set_clock (elapse secs (clock w)) w)) ->
  hoare P (time_sleep secs) Q.
Proof.
  intros Hs H w Hw. unfold time_sleep.
  destruct (Qlt_le_dec secs 0); [lra | apply H; exact Hw].
Qed.

Hypothesis MIN_INTERVAL_pos : 0 < MIN_INTERVAL.

Abbreviation limiter_ok := (Llm.limiter_ok env).

Lemma advance_ok w c' :
  limiter_ok w -> later (clock w) c' -> limiter_ok (set_clock c' w).
Proof.
  intros (Hst & Hinv & Hlen) Hlater. destruct (Hlater Hst) as [Hst' Hle].
  refine (conj Hst' (conj _ Hlen)). simpl.
  apply limiter_inv_later with (now := clock_now (clock w)); assumption.
Qed.

Lemma prune_ok w ws :
  limiter_ok w -> ws <= clock_now (clock w) - 60 ->
  limiter_ok (set_history (popleft_while ws (REQUEST_HISTORY w)) w).
Proof.
  intros (Hst & Hinv & Hlen) Hws. refine (conj Hst (conj _ _)); simpl.
  - apply limiter_inv_prune; assumption.
  - pose proof (popleft_while_length ws (REQUEST_HISTORY w)). lia.
Qed.

Lemma grant_ok w :
  limiter_ok w ->
  LAST_REQUEST_TS w + MIN_INTERVAL <= clock_now (clock w) ->
  slot_free env w -> room_or_expired env w ->
  let ts := clock_now (clock w) in
  limiter_ok
    {| clock := clock w; LAST_REQUEST_TS := ts;
       REQUEST_HISTORY := deque_append (REQUEST_HISTORY_maxlen env) (REQUEST_HISTORY w) ts;
       RESPONSE_CACHE := RESPONSE_CACHE w;
       granted := granted w ++ [ts]; calls := calls w; slept := slept w |}.
Proof.
  intros (Hst & Hinv & Hlen) Hgap Hfree Hroom ts.
  assert (Hg : limiter_inv MIN_INTERVAL LLM_RPM_LIMIT (granted w ++ [ts])
                           (REQUEST_HISTORY w ++ [ts]) ts ts).
  { eapply limiter_inv_grant; [exact Hinv | apply Qle_refl | exact Hgap |].
    apply Hfree. apply Qle_refl. }
  refine (conj Hst (conj _ _)); simpl; unfold deque_append;
    rewrite length_app; simpl;
    destruct (REQUEST_HISTORY_maxlen env <? Z.of_nat (length (REQUEST_HISTORY w) + 1))%Z
      eqn:Hfull.
  - destruct Hroom as [Hroom | (oldest & rest & Hh & Hold)].
    + apply Z.ltb_lt in Hfull. lia.
    + rewrite Hh in *. simpl. eapply limiter_inv_drop_head; [|exact Hg]. exact Hold.
  - exact Hg.
  - destruct (REQUEST_HISTORY w) as [|x t]; simpl in *.
    + unfold REQUEST_HISTORY_maxlen. lia.
    + rewrite length_app. simpl. lia.
  - apply Z.ltb_ge in Hfull. rewrite length_app. simpl. lia.
Qed.

Abbreviation ready := (Llm.ready env).

Lemma ready_advance w c' :
  ready w -> later (clock w) c' -> ready (set_clock c' w).
Proof.
  intros (Hok & Hgap & Hfree & Hroom) Hlater.
  destruct (Hlater (proj1 Hok)) as [_ Hle].
  refine (conj (advance_ok w c' Hok Hlater) (conj _ (conj _ _))); simpl.
  - lra.
  - intros ts Hts. apply Hfree. simpl in Hts. lra.
  - destruct Hroom as [Hroom | (oldest & rest & Hh & Hold)]; [left; exact Hroom|].
    right. exists oldest, rest. split; [exact Hh | simpl; lra].
Qed.

Lemma window_short w :
  limiter_ok w ->
  LAST_REQUEST_TS w + MIN_INTERVAL <= clock_now (clock w) ->
  (LLM_RPM_LIMIT <=? Z.of_nat (length (REQUEST_HISTORY w)))%Z = false ->
  ready w.
Proof.
  intros Hok Hgap Hlen. apply Z.leb_gt in Hlen.
  refine (conj Hok (conj Hgap (conj _ _))).
  - intros ts Hts. destruct Hok as (_ & Hinv & _).
    eapply slot_free_short; [exact Hinv | exact Hts | exact Hlen].
  - left. unfold REQUEST_HISTORY_maxlen. lia.
Qed.

Lemma window_expired w oldest rest :
  limiter_ok w ->
  LAST_REQUEST_TS w + MIN_INTERVAL <= clock_now (clock w) ->
  REQUEST_HISTORY w = oldest :: rest ->
  LAST_REQUEST_TS w - 60 < oldest ->
  oldest <= clock_now (clock w) - 60 ->
  slot_free env w.
Proof.
  intros (_ & Hinv & _) Hgap Hh Hnew Hold ts Hts. rewrite Hh in Hinv.
  eapply slot_free_expired; [exact Hinv | lra | exact Hnew | lra].
Qed.

Lemma respect_rate_limits_ok : preserves limiter_ok _respect_rate_limits.
Proof.
  apply hoare_preserves. unfold Llm._respect_rate_limits.
  apply hoare_bind with (R := fun now w => limiter_ok w /\ now = clock_now (clock w)).
  { apply hoare_time_time. intros w Hok. split; [|reflexivity].
    apply advance_ok; [exact Hok | apply later_elapse; lra]. }
  intros now.
  apply hoare_bind with
    (R := fun w0 w => w = w0 /\ limiter_ok w /\ now = clock_now (clock w)).
  { apply hoare_get. intros w [Hok Hnow]. auto. }
  intros w0. cbv zeta.
  apply hoare_bind with
    (R := fun now' w => limiter_ok w /\ now' = clock_now (clock w)
                        /\ LAST_REQUEST_TS w + MIN_INTERVAL <= now').
  { destruct (Qlt_le_dec 0 (LAST_REQUEST_TS w0 + MIN_INTERVAL - now)) as [Hwait|Hnow].
    - apply hoare_bind with
        (R := fun _ w => limiter_ok w
                         /\ LAST_REQUEST_TS w + MIN_INTERVAL <= clock_now (clock w)).
      + apply hoare_time_sleep; [lra|]. intros w (<- & Hok & ->). split.
        * apply advance_ok; [exact Hok | apply later_elapse; lra].
        * simpl. pose proof (elapse_now
            (LAST_REQUEST_TS w + MIN_INTERVAL - clock_now (clock w)) (clock w)
            (proj1 Hok)). lra.
      + intros _. apply hoare_time_time. intros w [Hok Hgap].
        refine (conj _ (conj eq_refl _)).
        * apply advance_ok; [exact Hok | apply later_elapse; lra].
        * simpl. pose proof (elapse_now 0 (clock w) (proj1 Hok)). lra.
    - apply hoare_ret. intros w (<- & Hok & ->). refine (conj Hok (conj eq_refl _)). lra. }
  intros now'.
  apply hoare_bind with
    (R := fun _ w => limiter_ok w /\ now' = clock_now (clock w)
                     /\ LAST_REQUEST_TS w + MIN_INTERVAL <= now'
                     /\ pruned (now' - 60) (REQUEST_HISTORY w)).
  { unfold prune. apply hoare_modify. intros w (Hok & -> & Hgap).
    refine (conj _ (conj eq_refl (conj Hgap _))).
    - apply prune_ok; [exact Hok | lra].
    - simpl. unfold pruned.
      destruct (popleft_while _ _) as [|x t] eqn:Hp; [exact I|].
      exact (popleft_while_head _ _ _ _ Hp). }
  intros _.
  apply hoare_bind with
    (R := fun w1 w => w = w1 /\ limiter_ok w /\ now' = clock_now (clock w)
                      /\ LAST_REQUEST_TS w + MIN_INTERVAL <= now'
                      /\ pruned (now' - 60) (REQUEST_HISTORY w)).
  { apply hoare_get. intros w H. split; [reflexivity | exact H]. }
  intros w1.
  apply hoare_bind with (R := fun _ w => ready w).
  { destruct (LLM_RPM_LIMIT <=? Z.of_nat (length (REQUEST_HISTORY w1)))%Z eqn:Hfull.
    - destruct (REQUEST_HISTORY w1) as [|oldest rest] eqn:Hh.
      + apply hoare_raise. intros w (<- & Hok & _). exact Hok.
      + destruct (Qlt_le_dec 0 (60 - (now' - oldest))) as [Hwait|Hnow].
        * pose (waited := fun w : World =>
            limiter_ok w /\ REQUEST_HISTORY w = oldest :: rest
            /\ LAST_REQUEST_TS w + MIN_INTERVAL <= clock_now (clock w)
            /\ LAST_REQUEST_TS w - 60 < oldest
            /\ oldest <= clock_now (clock w) - 60).
          apply hoare_bind with (R := fun _ w => waited w).
          { apply hoare_time_sleep; [lra|]. intros w (<- & Hok & -> & Hgap & Hpr).
            rewrite Hh in Hpr. simpl in Hpr.
            pose proof (elapse_now (60 - (clock_now (clock w) - oldest)) (clock w)
                          (proj1 Hok)) as Hnow.
            refine (conj _ (conj Hh (conj _ (conj _ _)))); simpl; try lra.
            apply advance_ok; [exact Hok | apply later_elapse; lra]. }
          intros _.
          apply hoare_bind with
            (R := fun now2 w => waited w /\ now2 = clock_now (clock w)).
          { apply hoare_time_time. intros w (Hok & Hw & Hgap & Hnew & Hold).
            pose proof (elapse_now 0 (clock w) (proj1 Hok)) as Hnow.
            refine (conj (conj _ (conj Hw (conj _ (conj Hnew _)))) eq_refl);
              simpl; try lra.
            apply advance_ok; [exact Hok | apply later_elapse; lra]. }
          intros now2. unfold prune. apply hoare_modify.
          intros w ((Hok & Hw & Hgap & Hnew & Hold) & ->).
          refine (conj _ (conj Hgap (conj _ _))).
          -- apply prune_ok; [exact Hok | lra].
          -- intros ts Hts.
             exact (window_expired w oldest rest Hok Hgap Hw Hnew Hold ts Hts).
          -- unfold room_or_expired. simpl. rewrite Hw. simpl.
             destruct (Qlt_le_dec oldest (clock_now (clock w) - 60)) as [Hlt|Hge].
             ++ left. destruct Hok as (_ & _ & Hlen). rewrite Hw in Hlen. simpl in Hlen.
                pose proof (popleft_while_length (clock_now (clock w) - 60) rest). lia.
             ++ right. exists oldest, rest. split; [reflexivity | exact Hold].
        * apply hoare_ret. intros w (<- & Hok & -> & Hgap & Hpr).
          rewrite Hh in Hpr. simpl in Hpr.
          refine (conj Hok (conj Hgap (conj _ _))).
          -- eapply window_expired; [exact Hok | exact Hgap | exact Hh | lra | lra].
          -- right. exists oldest, rest. split; [exact Hh | lra].
    - apply hoare_ret. intros w (<- & Hok & -> & Hgap & _).
      apply window_short; assumption. }
  intros _.
  apply hoare_bind with (R := fun ts w => ready w /\ ts = clock_now (clock w)).
  { apply hoare_time_time. intros w Hr. split; [|reflexivity].
    apply ready_advance; [exact Hr | apply later_elapse; lra]. }
  intros ts. apply hoare_modify. intros w [(Hok & Hgap & Hfree & Hroom) ->].
  apply grant_ok; assumption.
Qed.

Lemma generate_content_ok model prompt :
  preserves limiter_ok (generate_content model prompt).
Proof.
  intros w (Hst & Hinv & Hlen). refine (conj _ (conj _ Hlen)); simpl.
  - apply elapse_steady. exact Hst.
  - apply limiter_inv_later with (now := clock_now (clock w)); [|exact Hinv].
    pose proof (elapse_now 0 (clock w) Hst). lra.
Qed.

Lemma backoff_sleep_ok secs : preserves limiter_ok (backoff_sleep secs).
Proof.
  unfold backoff_sleep. apply preserves_bind.
  - intros w Hok. unfold time_sleep. destruct (Qlt_le_dec secs 0); [exact Hok|].
    apply advance_ok; [exact Hok | apply later_elapse; assumption].
  - intros _ w Hok. exact Hok.
Qed.

Section WithClient.

Variable ClientError_imported : bool.
Variable sha256_hex16 : string -> string.

Lemma retry_loop_ok model prompt base_delay enable_cache attempts remaining :
  forall attempt last_error,
    preserves limiter_ok
      (retry_loop env ClientError_imported sha256_hex16 model prompt base_delay
                  enable_cache attempts remaining attempt last_error).
Proof.
  induction remaining as [|remaining IH]; intros attempt last_error; simpl.
  - destruct last_error; apply preserves_raise.
  - apply preserves_bind.
    + apply preserves_try_except.
      * apply preserves_bind; [exact respect_rate_limits_ok|]. intros _.
        apply preserves_bind; [apply generate_content_ok|]. intros result.
        apply preserves_bind; [|intros _; apply preserves_ret].
        destruct enable_cache; [|apply preserves_ret].
        intros w Hok. exact Hok.
      * intros exc. destruct (_ || _); [apply preserves_raise|].
        apply preserves_bind; [apply backoff_sleep_ok | intros _; apply preserves_ret].
    + intros [result|exc]; [apply preserves_ret | apply IH].
Qed.

Lemma serve_ok r :
  preserves limiter_ok (serve env ClientError_imported sha256_hex16 r).
Proof.
  unfold serve, generate_with_retry. apply preserves_bind; [apply preserves_get|].
  intros w0. destruct (if req_enable_cache r then _ else _);
    [apply preserves_ret | apply retry_loop_ok].
Qed.

Lemma llm_run_ok requests : forall w,
  limiter_ok w -> limiter_ok (run env ClientError_imported sha256_hex16 requests w).
Proof.
  induction requests as [|r requests IH]; simpl; intros w Hok; [exact Hok|].
  apply IH. apply serve_ok. exact Hok.
Qed.

End WithClient.

Lemma llm_module_init_ok c : steady c -> limiter_ok (module_init c).
Proof.
  intros Hst. refine (conj Hst (conj _ _)); simpl.
  - apply limiter_inv_init. apply LLM_RPM_LIMIT_pos.
  - unfold REQUEST_HISTORY_maxlen. lia.
Qed.

End LlmLimiterProofs.


(** ** The retry wrapper and the response cache *)

Section RetryProofs.

Import Llm.
Local Open Scope Q_scope.

Variable env : Environ.
Variable ClientError_imported : bool.
Variable sha256_hex16 : string -> string.

Abbreviation retry_loop := (Llm.retry_loop env ClientError_imported sha256_hex16).
Abbreviation generate_with_retry :=
  (Llm.generate_with_retry env ClientError_imported sha256_hex16).
Abbreviation _is_retryable := (Llm._is_retryable ClientError_imported).
Abbreviation cache_key := (Llm.cache_key sha256_hex16).

(** One iteration of the loop, in terms of the state [w1] in which
    [_respect_rate_limits] returned. *)
Lemma retry_iteration model prompt base_delay enable_cache attempts
      remaining attempt last_error w :
  exists w1,
    _respect_rate_limits env w = (Val tt, w1)
    /\ RESPONSE_CACHE w1 = RESPONSE_CACHE w
    /\ calls w1 = calls w
    /\ slept w1 = slept w
    /\ granted w1 = granted w ++ [LAST_REQUEST_TS w1]
    /\ later (clock w) (clock w1)
    /\ retry_loop model prompt base_delay enable_cache attempts
                  (S remaining) attempt last_error w
       = let w2 := snd (generate_content model prompt w1) in
         match respond model (length (calls w)) prompt with
         | Val result =>
             (Val result,
              if enable_cache
              then set_cache (<[cache_key prompt := result]> (RESPONSE_CACHE w2)) w2
              else w2)
         | Exc exc =>
             if (attempts <=? attempt)%Z || negb (_is_retryable exc)
             then (Exc exc, w2)
             else match backoff_sleep (inject_Z (base_delay ^ attempt)) w2 with
                  | (Val _, w3) =>
                      retry_loop model prompt base_delay enable_cache attempts
                                 remaining (attempt + 1)%Z (Some exc) w3
                  | (Exc e', w3) => (Exc e', w3)
                  end
         end.
Proof.
  destruct (respect_rate_limits_frame env w)
    as (w1 & Hrun & Hcache & Hcalls & Hslept & Hgr & Hlater).
  exists w1. refine (conj Hrun (conj Hcache (conj Hcalls (conj Hslept (conj Hgr
                      (conj Hlater _)))))).
  simpl. unfold bind, try_except. rewrite Hrun.
  unfold generate_content. rewrite Hcalls.
  destruct (respond model (length (calls w)) prompt) as [result|exc]; simpl.
  - destruct enable_cache; reflexivity.
  - destruct ((attempts <=? attempt)%Z || negb (_is_retryable exc)); [reflexivity|].
    destruct (backoff_sleep _ _) as [[[]|e'] w3]; reflexivity.
Qed.

Lemma backoff_sleep_nonneg secs w :
  0 <= secs ->
  backoff_sleep secs w =
    (Val tt,
     {| clock := elapse secs (clock w); LAST_REQUEST_TS := LAST_REQUEST_TS w;
        REQUEST_HISTORY := REQUEST_HISTORY w; RESPONSE_CACHE := RESPONSE_CACHE w;
        granted := granted w; calls := calls w; slept := slept w ++ [secs] |}).
Proof.
  intros Hs. unfold backoff_sleep, bind, time_sleep, modify.
  destruct (Qlt_le_dec secs 0); [lra | reflexivity].
Qed.

Lemma pow_delay_nonneg base_delay attempt :
  (0 <= base_delay)%Z -> 0 <= inject_Z (base_delay ^ attempt).
Proof.
  intros Hb. change 0 with (inject_Z 0). rewrite <- Zle_Qle.
  apply Z.pow_nonneg. exact Hb.
Qed.

(** A call that meets a retryable failure at every attempt uses up the
    whole budget. *)
Lemma retry_loop_exhausts model prompt base_delay enable_cache attempts :
  (0 <= base_delay)%Z ->
  forall remaining attempt last_error w,
    (attempt + Z.of_nat remaining = attempts)%Z ->
    always_retryable ClientError_imported model prompt (length (calls w)) ->
    exists w' e new_calls,
      retry_loop model prompt base_delay enable_cache attempts
                 (S remaining) attempt last_error w = (Exc e, w')
      /\ respond model (length (calls w) + remaining) prompt = Exc e
      /\ calls w' = calls w ++ new_calls
      /\ length new_calls = S remaining
      /\ slept w' = slept w ++ backoff_schedule base_delay attempt remaining
      /\ RESPONSE_CACHE w' = RESPONSE_CACHE w
      /\ length (granted w') = (length (granted w) + S remaining)%nat
      /\ (steady (clock w) ->
          steady (clock w')
          /\ starts_after (clock_now (clock w)) new_calls
          /\ delays_respected base_delay attempt new_calls).
Proof.
  intros Hb. induction remaining as [|remaining IH]; intros attempt last_error w Hatt Hfail.
  - destruct (retry_iteration model prompt base_delay enable_cache attempts
                0%nat attempt last_error w)
      as (w1 & Hrun & Hcache & Hcalls & Hslept & Hgr & Hlater & Hstep).
    destruct (Hfail (length (calls w)) (le_n _)) as (e & Hresp & Hretry).
    rewrite Hresp in Hstep.
    replace (attempts <=? attempt)%Z with true in Hstep
      by (symmetry; apply Z.leb_le; lia).
    cbn [orb] in Hstep.
    exists (snd (generate_content model prompt w1)), e,
           [{| call_model := model_name model; call_prompt := prompt;
               call_time := clock_now (clock w1) |}].
    split; [exact Hstep|]. simpl.
    rewrite Nat.add_0_r, Hcalls, Hslept, Hcache, Hgr, app_nil_r, length_app. simpl.
    split; [exact Hresp|]. do 5 (split; [reflexivity|]).
    intros Hst. destruct (Hlater Hst) as [Hst1 Hle].
    split; [apply elapse_steady; exact Hst1|]. split; [exact Hle | split; exact I].
  - destruct (retry_iteration model prompt base_delay enable_cache attempts
                (S remaining) attempt last_error w)
      as (w1 & Hrun & Hcache & Hcalls & Hslept & Hgr & Hlater & Hstep).
    destruct (Hfail (length (calls w)) (le_n _)) as (e & Hresp & Hretry).
    rewrite Hresp, Hretry in Hstep.
    replace (attempts <=? attempt)%Z with false in Hstep
      by (symmetry; apply Z.leb_gt; lia).
    cbn [orb negb] in Hstep.
    rewrite backoff_sleep_nonneg in Hstep by (apply pow_delay_nonneg; exact Hb).
    match type of Hstep with
    | _ = Llm.retry_loop _ _ _ _ _ _ _ _ _ _ _ ?x => set (w3 := x) in *
    end.
    destruct (IH (attempt + 1)%Z (Some e) w3) as
      (w' & e' & new' & Hloop & Hresp' & Hcalls' & Hlen' & Hslept' & Hcache' & Hgr' & Htime').
    { lia. }
    { intros k Hk. apply Hfail. subst w3. simpl in Hk. rewrite length_app in Hk.
      rewrite Hcalls in Hk. lia. }
    rewrite Hloop in Hstep.
    exists w', e', ({| call_model := model_name model; call_prompt := prompt;
                       call_time := clock_now (clock w1) |} :: new').
    split; [exact Hstep|].
    subst w3. simpl in *. rewrite length_app in Hresp'. simpl in Hresp'.
    rewrite Hcalls in *. rewrite Hslept in *. rewrite Hcache in *.
    rewrite Hgr, length_app in Hgr'. simpl in Hgr'.
    split; [rewrite <- Hresp'; f_equal; lia|].
    split; [rewrite Hcalls', <- app_assoc; reflexivity|].
    split; [rewrite Hlen'; reflexivity|].
    split; [rewrite Hslept', <- app_assoc; reflexivity|].
    split; [exact Hcache'|].
    split; [lia|].
    intros Hst. destruct (Hlater Hst) as [Hst1 Hle].
    assert (Hst2 : steady (elapse 0 (clock w1))) by (apply elapse_steady; exact Hst1).
    assert (Hst3 : steady (elapse (inject_Z (base_delay ^ attempt)) (elapse 0 (clock w1))))
      by (apply elapse_steady; exact Hst2).
    destruct (Htime' Hst3) as (Hst' & Hstart & Hdelays).
    split; [exact Hst'|]. split; [exact Hle|]. split; [|exact Hdelays].
    destruct new' as [|c2 rest]; [exact I|]. simpl in Hstart.
    pose proof (elapse_now 0 (clock w1) Hst1).
    pose proof (elapse_now (inject_Z (base_delay ^ attempt)) (elapse 0 (clock w1)) Hst2).
    lra.
Qed.

Lemma backoff_schedule_length base_delay n : forall attempt,
  length (backoff_schedule base_delay attempt n) = n.
Proof. induction n as [|n IH]; intros attempt; simpl; [reflexivity | rewrite IH; reflexivity]. Qed.

Lemma backoff_schedule_lookup base_delay n : forall attempt i,
  (i < n)%nat ->
  backoff_schedule base_delay attempt n !! i
    = Some (inject_Z (base_delay ^ (attempt + Z.of_nat i))).
Proof.
  induction n as [|n IH]; intros attempt i Hi; [lia|].
  destruct i as [|i]; simpl.
  - rewrite Z.add_0_r. reflexivity.
  - rewrite IH by lia. do 3 f_equal. lia.
Qed.

Lemma delays_respected_lookup base_delay new_calls : forall attempt i c1 c2,
  delays_respected base_delay attempt new_calls ->
  new_calls !! i = Some c1 -> new_calls !! S i = Some c2 ->
  call_time c1 + inject_Z (base_delay ^ (attempt + Z.of_nat i)) <= call_time c2.
Proof.
  induction new_calls as [|c rest IH]; intros attempt i c1 c2 Hd H1 H2; [discriminate|].
  destruct Hd as [Hhead Htail]. destruct i as [|i]; simpl in *.
  - injection H1 as <-. destruct rest as [|c' rest']; [discriminate|].
    injection H2 as <-. rewrite Z.add_0_r. exact Hhead.
  - specialize (IH (attempt + 1)%Z i c1 c2 Htail H1 H2).
    replace (attempt + Z.of_nat (S i))%Z with (attempt + 1 + Z.of_nat i)%Z by lia.
    exact IH.
Qed.

(** A call that is not answered from the cache enters the loop. *)
Lemma generate_with_retry_miss model prompt max_attempts base_delay enable_cache w :
  (enable_cache = true -> RESPONSE_CACHE w !! cache_key prompt = None) ->
  generate_with_retry model prompt max_attempts base_delay enable_cache w
  = retry_loop model prompt base_delay enable_cache (attempt_budget env max_attempts)
               (Z.to_nat (attempt_budget env max_attempts)) 1%Z None w.
Proof.
  intros Hmiss. unfold Llm.generate_with_retry, bind, get.
  destruct enable_cache; [rewrite (Hmiss eq_refl)|]; reflexivity.
Qed.

(** A call whose key is in the cache returns the entry and does nothing else. *)
Lemma generate_with_retry_hit model prompt max_attempts base_delay w cached :
  RESPONSE_CACHE w !! cache_key prompt = Some cached ->
  generate_with_retry model prompt max_attempts base_delay true w = (Val cached, w).
Proof.
  intros Hhit. unfold Llm.generate_with_retry, bind, get. rewrite Hhit. reflexivity.
Qed.

(** A call that misses the cache and whose first attempt succeeds. *)
Lemma generate_with_retry_first_success model prompt max_attempts base_delay w result :
  RESPONSE_CACHE w !! cache_key prompt = None ->
  (1 <= attempt_budget env max_attempts)%Z ->
  respond model (length (calls w)) prompt = Val result ->
  exists w1,
    generate_with_retry model prompt max_attempts base_delay true w = (Val result, w1)
    /\ RESPONSE_CACHE w1 = <[cache_key prompt := result]> (RESPONSE_CACHE w)
    /\ length (granted w1) = S (length (granted w))
    /\ length (calls w1) = S (length (calls w))
    /\ slept w1 = slept w.
Proof.
  intros Hmiss Hbudget Hresp.
  rewrite generate_with_retry_miss by (intros _; exact Hmiss).
  destruct (Z.to_nat (attempt_budget env max_attempts)) as [|remaining] eqn:Hn; [lia|].
  destruct (retry_iteration model prompt base_delay true
              (attempt_budget env max_attempts) remaining 1%Z None w)
    as (w1 & Hrun & Hcache & Hcalls & Hslept & Hgr & Hlater & Hstep).
  rewrite Hresp in Hstep. eexists. split; [exact Hstep|]. simpl.
  rewrite Hcache, Hcalls, Hslept, Hgr, !length_app. simpl.
  repeat split; try reflexivity; lia.
Qed.


(** C5 (as the code has it).  The key of the response cache is computed
    from the request text alone.  After a call that stored its response,
    a call with the same request text is answered from that entry
    whatever model it names: it returns the stored response, the model is
    not invoked and the state is unchanged. *)
Theorem cache_key_is_prompt_only
    (model other : GenerativeModel) (prompt : string)
    (max_attempts max_attempts' : option Z) (base_delay base_delay' : Z)
    (w : World) (result : string) :
  let first := generate_with_retry model prompt max_attempts base_delay true w in
  let second := generate_with_retry other prompt max_attempts' base_delay' true (snd first) in
  RESPONSE_CACHE w !! cache_key prompt = None ->
  (1 <= attempt_budget env max_attempts)%Z ->
  respond model (length (calls w)) prompt = Val result ->
  RESPONSE_CACHE (snd first) !! sha256_hex16 prompt = Some result
  /\ second = (Val result, snd first).
Proof.
  intros first second Hmiss Hbudget Hresp. subst first second.
  destruct (generate_with_retry_first_success model prompt max_attempts base_delay w
              result Hmiss Hbudget Hresp) as (w1 & Hfirst & Hcache & _).
  rewrite Hfirst. simpl.
  assert (Hhit : RESPONSE_CACHE w1 !! cache_key prompt = Some result)
    by (rewrite Hcache; apply lookup_insert_eq).
  split; [exact Hhit|]. apply generate_with_retry_hit. exact Hhit.
Qed.

(** C6. Cache idempotence.  Two calls with the same model and request
    text, one after the other, with the cache enabled; the first is not
    answered from the cache and its first attempt succeeds.  Then the
    first call takes exactly one slot of the limiter and invokes the model
    once, the second call takes no slot, makes no attempt and sleeps for
    no back-off (it leaves the state as it is), and both return the same
    response. *)
Theorem cache_idempotence
    (model : GenerativeModel) (prompt : string)
    (max_attempts max_attempts' : option Z) (base_delay base_delay' : Z)
    (w : World) (result : string) :
  let first := generate_with_retry model prompt max_attempts base_delay true w in
  let second := generate_with_retry model prompt max_attempts' base_delay' true (snd first) in
  RESPONSE_CACHE w !! cache_key prompt = None ->
  (1 <= attempt_budget env max_attempts)%Z ->
  respond model (length (calls w)) prompt = Val result ->
  fst first = Val result
  /\ fst second = Val result
  /\ length (granted (snd second)) = S (length (granted w))
  /\ length (calls (snd second)) = S (length (calls w))
  /\ granted (snd second) = granted (snd first)
  /\ calls (snd second) = calls (snd first)
  /\ slept (snd second) = slept w.
Proof.
  intros first second Hmiss Hbudget Hresp. subst first second.
  destruct (generate_with_retry_first_success model prompt max_attempts base_delay w
              result Hmiss Hbudget Hresp)
    as (w1 & Hfirst & Hcache & Hgr & Hcalls & Hslept).
  rewrite Hfirst. simpl.
  rewrite (generate_with_retry_hit model prompt max_attempts' base_delay' w1 result)
    by (rewrite Hcache; apply lookup_insert_eq).
  simpl. repeat split; assumption.
Qed.


End RetryProofs.

(** ** The dispatch agent *)

Section DispatchProofs.

Import Dispatch.

Variable ENABLE_A2A_DISPATCH : bool.
Variable MCP_SERVER_B_URL : string.
Variable http : nat -> HttpOutcome.

Abbreviation process := (Dispatch.process ENABLE_A2A_DISPATCH MCP_SERVER_B_URL http).

Ltac dispatch_step :=
  unfold try_except, bind, get, modify, ret, raise,
    session_post, on_state, Dispatch.time_sleep; simpl.

Ltac dispatch_leaf :=
  repeat match goal with
         | |- context [response_ok ?c] => destruct (response_ok c); dispatch_step
         | |- context [match ?j with Val _ => _ | Exc _ => _ end] =>
             destruct j; dispatch_step
         end;
  (split; [simpl; lia|];
   split; [repeat constructor|];
   split; [simpl; lia|];
   intros [|[|[|k]]] secs Hk; simpl in Hk; try discriminate;
   injection Hk as <-; reflexivity).


End DispatchProofs.

(** ** Configuration *)

Lemma fmax_Qmax a b : (fmax a b == Qmax a b)%Q.
Proof.
  unfold fmax. destruct (Qlt_le_dec a b) as [Hlt|Hge].
  - rewrite Q.max_r; [reflexivity | lra].
  - rewrite Q.max_l; [reflexivity | exact Hge].
Qed.

(** C9 (as the code has it).  When LLM_MIN_CALL_INTERVAL is not set, the
    minimum call interval is max(60 / rpm, floor) seconds, where rpm is the
    configured limit per minute (at least 1) and the floor is 8 in the
    configuration of legal-doc-processor-a and 15 in the one of
    legal-compliance-advisor-b. *)
Theorem default_min_call_interval (env : Environ) :
  env_LLM_MIN_CALL_INTERVAL env = None ->
  ((1 <= ConfigA.LLM_RPM_LIMIT env)%Z
   /\ (ConfigA.LLM_MIN_CALL_INTERVAL env
       == Qmax (60 / inject_Z (ConfigA.LLM_RPM_LIMIT env)) 8)%Q)
  /\ ((1 <= ConfigB.LLM_RPM_LIMIT env)%Z
      /\ (ConfigB.LLM_MIN_CALL_INTERVAL env
          == Qmax (60 / inject_Z (ConfigB.LLM_RPM_LIMIT env)) 15)%Q).
Proof.
  intros Hunset.
  unfold ConfigA.LLM_MIN_CALL_INTERVAL, ConfigB.LLM_MIN_CALL_INTERVAL.
  rewrite Hunset. simpl.
  split; (split; [unfold ConfigA.LLM_RPM_LIMIT, ConfigB.LLM_RPM_LIMIT; lia
                 | apply fmax_Qmax]).
Qed.

Lemma default_min_call_interval_witness :
  env_LLM_MIN_CALL_INTERVAL empty_environ = None
  /\ ((1 <= ConfigA.LLM_RPM_LIMIT empty_environ)%Z
      /\ (ConfigA.LLM_MIN_CALL_INTERVAL empty_environ
          == Qmax (60 / inject_Z (ConfigA.LLM_RPM_LIMIT empty_environ)) 8)%Q)
  /\ ((1 <= ConfigB.LLM_RPM_LIMIT empty_environ)%Z
      /\ (ConfigB.LLM_MIN_CALL_INTERVAL empty_environ
          == Qmax (60 / inject_Z (ConfigB.LLM_RPM_LIMIT empty_environ)) 15)%Q).
Proof.
  split; [reflexivity | apply (default_min_call_interval empty_environ); reflexivity].
Defined.

(** C9 as stated fails on legal-doc-processor-a: with nothing set in the
    environment the limit is 8 calls per minute and the interval is 8 s,
    not max(60 / 8, 15) = 15 s. *)
Lemma default_min_call_interval_a_is_not_15 :
  ConfigA.LLM_RPM_LIMIT empty_environ = 8%Z
  /\ (ConfigA.LLM_MIN_CALL_INTERVAL empty_environ == 8)%Q
  /\ ~ (ConfigA.LLM_MIN_CALL_INTERVAL empty_environ
        == Qmax (60 / inject_Z (ConfigA.LLM_RPM_LIMIT empty_environ)) 15)%Q.
Proof.
  split; [reflexivity|]. split; [reflexivity|].
  intros H. vm_compute in H. discriminate H.
Qed.

(** ** The scheduler and the workflow *)

Section SchedulerProofs.

Import Scheduler.

Variable clause_agent summary_agent risk_agent dispatch_agent : Agent.
Variable FORCE_SEQUENTIAL_EXECUTION : bool.
Variable event_loop_failure : option PyExc.

Abbreviation process :=
  (Scheduler.process clause_agent summary_agent risk_agent dispatch_agent
                     FORCE_SEQUENTIAL_EXECUTION event_loop_failure).

(** The handler of [process] catches whatever the body raises and cannot
    raise itself. *)
Lemma process_returns state w : exists w', process state w = (Val state, w').
Proof.
  unfold Scheduler.process.
  match goal with
  | |- context [try_except ?body ?handler] =>
      destruct (try_except_returns body handler
                  ltac:(intros e w0; eexists _, _; reflexivity) w) as (a & w1 & Hrun)
  end.
  exists w1. unfold bind at 1. rewrite Hrun. reflexivity.
Qed.

Abbreviation risk_input := (Scheduler.risk_input clause_agent).
Abbreviation suggestion_input := (Scheduler.suggestion_input clause_agent risk_agent).

Ltac eval_lookup :=
  match goal with
  | |- context [@lookup ?K ?A (gmap ?K' ?A') ?I ?k ?m] =>
      let v := eval vm_compute in (@lookup K A (gmap K' A') I k m) in
      change (@lookup K A (gmap K' A') I k m) with v
  end.

Ltac run_agent agent :=
  match goal with
  | |- context [agent ?x] =>
      let H := fresh "Hrun" in
      destruct (agent x) as [? [?|]] eqn:H; simpl; repeat (eval_lookup; simpl)
  end.

Lemma sequential_tasks_alone s :
  _execute_sequential_tasks clause_agent summary_agent risk_agent dispatch_agent
                            0%nat (alone s)
  = (Val (fst (sequential_outcome clause_agent summary_agent risk_agent dispatch_agent s)),
     snd (sequential_outcome clause_agent summary_agent risk_agent dispatch_agent s)).
Proof.
  unfold _execute_sequential_tasks, sequential_step, _run_clause_task, _run_summary_task,
    _run_risk_task, _run_suggestion_task, sequential_outcome, Scheduler.suggestion_input,
    Scheduler.risk_input, clause_result,
    copy_key, update, modify, try_except, bind, get, ret, raise, deepcopy, invoke,
    Scheduler.time_sleep, deref, alone.
  simpl.
  run_agent clause_agent; run_agent summary_agent; run_agent risk_agent;
    run_agent dispatch_agent; reflexivity.
Qed.

(** *** What the merge does to the canonical state (the dictionary at 0) *)

Lemma keeps_update {B} (k : LegalDocumentState -> B) r g :
  (forall x, k (g x) = k x) ->
  keeps (fun w => k (deref w 0%nat)) (update r g).
Proof.
  intros Hg w. unfold update, modify, deref. simpl.
  destruct r as [|r].
  - destruct (heap w) as [|c rest]; simpl; [reflexivity | apply Hg].
  - destruct (heap w) as [|c rest]; reflexivity.
Qed.

Lemma keeps_copy_key_self {B} (k : LegalDocumentState -> B) set_k :
  (forall v x, k (set_k v x) = v) ->
  keeps (fun w => k (deref w 0%nat)) (copy_key k set_k 0%nat 0%nat).
Proof.
  intros Hk w. unfold copy_key, bind, get, update, modify, deref. simpl.
  destruct (heap w) as [|c rest]; simpl; [reflexivity | apply Hk].
Qed.

Lemma preserves_update (P : LegalDocumentState -> Prop) r g :
  (forall x, P x -> P (g x)) ->
  preserves (fun w => P (deref w 0%nat)) (update r g).
Proof.
  intros Hg w. unfold update, modify, deref. simpl.
  destruct r as [|r].
  - destruct (heap w) as [|c rest]; simpl; [trivial | apply Hg].
  - destruct (heap w) as [|c rest]; trivial.
Qed.

Lemma keeps_started r g : keeps started (update r g).
Proof. intros w. reflexivity. Qed.

Lemma insert_nonempty (l : list LegalDocumentState) i x : l <> [] -> <[i := x]> l <> [].
Proof. destruct l, i; simpl; congruence. Qed.

Lemma all_status_deref st w r :
  all_status st w -> status (deref w r) = st \/ status (deref w r) = "".
Proof.
  intros [_ Hall]. unfold deref. destruct (heap w !! r) as [c|] eqn:Hr; simpl.
  - left. exact (Forall_lookup_1 _ _ _ _ Hall Hr).
  - right. reflexivity.
Qed.

Lemma all_status_canonical st w : all_status st w -> status (deref w 0%nat) = st.
Proof.
  intros [Hne Hall]. unfold deref. destruct (heap w) as [|c rest]; [congruence|].
  simpl. exact (Forall_lookup_1 _ _ 0%nat _ Hall eq_refl).
Qed.

Lemma all_status_update st r g :
  (forall x, status (g x) = status x) ->
  preserves (all_status st) (update r g).
Proof.
  intros Hg w [Hne Hall]. unfold all_status, update, modify, deref in *. simpl.
  split; [apply insert_nonempty; exact Hne|].
  destruct (heap w !! r) as [c|] eqn:Hr; simpl.
  - apply Forall_insert; [exact Hall|]. rewrite Hg.
    exact (Forall_lookup_1 _ _ _ _ Hall Hr).
  - rewrite list_insert_ge; [exact Hall|]. apply lookup_ge_None. exact Hr.
Qed.

(** [if src.get("status"): state["status"] = src["status"]] *)
Lemma all_status_copy_status st src dst :
  preserves (all_status st)
    (w <- get ;;
     if truthy_str (status (deref w src))
     then (w' <- get ;; update dst (set_status (status (deref w' src))))
     else ret tt)%py.
Proof.
  intros w Hall. unfold bind, get. simpl.
  destruct (truthy_str (status (deref w src))) eqn:Htruthy; [|exact Hall].
  unfold update, modify. simpl.
  destruct (all_status_deref st w src Hall) as [Hst|Hempty];
    [|rewrite Hempty in Htruthy; discriminate].
  destruct Hall as [Hne Hall].
  split; simpl; [apply insert_nonempty; exact Hne|].
  destruct (heap w !! dst) as [c|] eqn:Hd; simpl.
  - apply Forall_insert; [exact Hall | exact Hst].
  - rewrite list_insert_ge; [exact Hall|]. apply lookup_ge_None. exact Hd.
Qed.

(** The loop over [task_errors]. *)
Lemma keeps_record_task_errors {B} (f : World -> B) r errs :
  (forall msg, keeps f (update r (append_error msg))) ->
  keeps f (record_task_errors r errs).
Proof.
  intros Hf. induction errs as [|[label exc] rest IH]; simpl.
  - apply keeps_ret.
  - apply keeps_bind; [apply Hf | intros _; exact IH].
Qed.

Lemma preserves_record_task_errors (P : World -> Prop) r errs :
  (forall msg, preserves P (update r (append_error msg))) ->
  preserves P (record_task_errors r errs).
Proof.
  intros HP. induction errs as [|[label exc] rest IH]; simpl.
  - apply preserves_ret.
  - apply preserves_bind; [apply HP | intros _; exact IH].
Qed.

Lemma record_task_errors_never_raises r errs : never_raises (record_task_errors r errs).
Proof.
  induction errs as [|[label exc] rest IH]; simpl.
  - apply never_raises_ret.
  - apply never_raises_bind; [apply never_raises_modify | intros _; exact IH].
Qed.

Lemma in_errors_update msg r g :
  (forall x, In msg (errors x) -> In msg (errors (g x))) ->
  preserves (fun w => In msg (errors (deref w 0%nat))) (update r g).
Proof. intros Hg. exact (preserves_update (fun x => In msg (errors x)) r g Hg). Qed.

Lemma in_errors_append msg msg' x :
  In msg (errors x) -> In msg (errors (append_error msg' x)).
Proof. intros Hin. unfold append_error. simpl. apply in_or_app. left. exact Hin. Qed.

Lemma record_task_errors_In label exc errs w :
  In (label, exc) errs -> heap w <> [] ->
  In (label +:+ "_task: " +:+ exc_str exc)
     (errors (deref (snd (record_task_errors 0%nat errs w)) 0%nat)).
Proof.
  revert w. induction errs as [|[label' exc'] rest IH]; intros w Hin Hne; [destruct Hin|].
  change (record_task_errors 0%nat ((label', exc') :: rest) w)
    with (record_task_errors 0%nat rest
            (snd (update 0%nat (append_error (label' +:+ "_task: " +:+ exc_str exc')) w))).
  destruct Hin as [Heq|Hin].
  - injection Heq as -> ->.
    apply (preserves_record_task_errors
             (fun w => In (label +:+ "_task: " +:+ exc_str exc) (errors (deref w 0%nat)))).
    + intros msg. apply in_errors_update. intros x. apply in_errors_append.
    + unfold update, modify, deref, append_error. simpl.
      destruct (heap w) as [|c cs]; [congruence|]. simpl.
      apply in_or_app. right. left. reflexivity.
  - apply IH; [exact Hin|]. unfold update, modify. simpl.
    apply insert_nonempty. exact Hne.
Qed.

(** The statements of the merge, one at a time. *)
Ltac open_merge :=
  unfold merge_results, when_present, merge_clauses, merge_summary, merge_risk,
    merge_suggestion, _extend_audit_log, extend_key, copy_key;
  cbv zeta; cbn [fst snd].

Ltac by_cases :=
  lazymatch goal with
  | |- _ _ (if ?b then _ else _) => destruct b
  | |- _ _ (match ?o with Some _ => _ | None => _ end) => destruct o
  | |- _ (if ?b then _ else _) => destruct b
  | |- _ (match ?o with Some _ => _ | None => _ end) => destruct o
  end.

Ltac keeps_step self other :=
  lazymatch goal with
  | |- keeps _ (ret _) => apply keeps_ret
  | |- keeps _ get => apply keeps_get
  | |- keeps _ (record_task_errors _ _) => apply keeps_record_task_errors; intros ?
  | |- keeps _ (bind get (fun w => update 0%nat (_ (_ (deref w 0%nat))))) =>
      first [ apply keeps_bind; [apply keeps_get | intros ?; other] | self ]
  | |- keeps _ (update _ _) => other
  | |- keeps _ (bind _ _) => apply keeps_bind; [|intros ?]
  | |- _ => by_cases
  end.

Ltac keeps_field k :=
  open_merge;
  repeat keeps_step ltac:(apply (keeps_copy_key_self k); intros; reflexivity)
                    ltac:(apply (keeps_update k); intros; reflexivity).

Ltac preserves_step block leaf :=
  lazymatch goal with
  | |- preserves _ (ret _) => apply preserves_ret
  | |- preserves _ get => apply preserves_get
  | |- preserves _ (record_task_errors _ _) =>
      apply preserves_record_task_errors; intros ?
  | |- preserves _ (update _ _) => leaf
  | |- preserves _ (bind get (fun w => if truthy_str _ then _ else _)) => block
  | |- preserves _ (bind _ _) => apply preserves_bind; [|intros ?]
  | |- _ => by_cases
  end.

Lemma merge_results_never_raises state out : never_raises (merge_results state out).
Proof.
  open_merge.
  repeat lazymatch goal with
    | |- never_raises (ret _) => apply never_raises_ret
    | |- never_raises get => apply never_raises_get
    | |- never_raises (record_task_errors _ _) => apply record_task_errors_never_raises
    | |- never_raises (update _ _) => apply never_raises_modify
    | |- never_raises (bind _ _) => apply never_raises_bind; [|intros ?]
    | |- _ => by_cases
    end.
Qed.

Lemma merge_results_started state out : keeps started (merge_results state out).
Proof.
  open_merge.
  repeat keeps_step ltac:(fail) ltac:(apply keeps_started).
Qed.

Lemma merge_results_in_errors msg state out :
  preserves (fun w => In msg (errors (deref w 0%nat))) (merge_results state out).
Proof.
  open_merge.
  repeat preserves_step
    ltac:(apply preserves_bind; [|intros ?])
    ltac:(apply in_errors_update; intros ? ?;
          first [assumption | apply in_or_app; left; assumption]).
Qed.

Lemma merge_results_status st state out :
  preserves (all_status st) (merge_results state out).
Proof.
  open_merge.
  repeat preserves_step
    ltac:(apply all_status_copy_status)
    ltac:(apply all_status_update; intros; reflexivity).
Qed.

(** A stage whose entry in [results] is the state itself: the merge
    assigns the stage's fields of the state to themselves. *)
Section OwnFields.

Variable out : Results * TaskErrors.

Lemma merge_keeps_extracted_clauses :
  fst out !! "clauses" = Some 0%nat ->
  keeps (fun w => extracted_clauses (deref w 0%nat)) (merge_results 0%nat out).
Proof. intros Hself. open_merge. rewrite Hself. keeps_field extracted_clauses. Qed.

Lemma merge_keeps_clause_count :
  fst out !! "clauses" = Some 0%nat ->
  keeps (fun w => clause_count (deref w 0%nat)) (merge_results 0%nat out).
Proof. intros Hself. open_merge. rewrite Hself. keeps_field clause_count. Qed.

Lemma merge_keeps_metadata_summary :
  fst out !! "summary" = Some 0%nat ->
  keeps (fun w => metadata_summary (deref w 0%nat)) (merge_results 0%nat out).
Proof. intros Hself. open_merge. rewrite Hself. keeps_field metadata_summary. Qed.

Lemma merge_keeps_document_outline :
  fst out !! "summary" = Some 0%nat ->
  keeps (fun w => document_outline (deref w 0%nat)) (merge_results 0%nat out).
Proof. intros Hself. open_merge. rewrite Hself. keeps_field document_outline. Qed.

Lemma merge_keeps_key_entities :
  fst out !! "summary" = Some 0%nat ->
  keeps (fun w => key_entities (deref w 0%nat)) (merge_results 0%nat out).
Proof. intros Hself. open_merge. rewrite Hself. keeps_field key_entities. Qed.

Lemma merge_keeps_risk_assessments :
  fst out !! "risk" = Some 0%nat ->
  keeps (fun w => risk_assessments (deref w 0%nat)) (merge_results 0%nat out).
Proof. intros Hself. open_merge. rewrite Hself. keeps_field risk_assessments. Qed.

Lemma merge_keeps_high_risk_count :
  fst out !! "risk" = Some 0%nat ->
  keeps (fun w => high_risk_count (deref w 0%nat)) (merge_results 0%nat out).
Proof. intros Hself. open_merge. rewrite Hself. keeps_field high_risk_count. Qed.

Lemma merge_keeps_overall_risk_score :
  fst out !! "risk" = Some 0%nat ->
  keeps (fun w => overall_risk_score (deref w 0%nat)) (merge_results 0%nat out).
Proof. intros Hself. open_merge. rewrite Hself. keeps_field overall_risk_score. Qed.

Lemma merge_keeps_adk_b_response :
  fst out !! "suggestion" = Some 0%nat ->
  keeps (fun w => adk_b_response (deref w 0%nat)) (merge_results 0%nat out).
Proof. intros Hself. open_merge. rewrite Hself. keeps_field adk_b_response. Qed.

Lemma merge_results_records label exc w :
  In (label, exc) (snd out) -> heap w <> [] ->
  In (label +:+ "_task: " +:+ exc_str exc)
     (errors (deref (snd (merge_results 0%nat out w)) 0%nat)).
Proof.
  intros Hin Hne.
  pose proof (record_task_errors_In label exc (snd out) w Hin Hne) as Hrec.
  destruct (never_raises_run (record_task_errors 0%nat (snd out)) w
              (record_task_errors_never_raises _ _)) as [[] Hrun].
  rewrite Hrun in Hrec. cbn [snd] in Hrec.
  unfold merge_results. erewrite bind_val by exact Hrun.
  revert Hrec. generalize (snd (record_task_errors 0%nat (snd out) w)). intros w1.
  apply (preserves_bind
           (fun w => In (label +:+ "_task: " +:+ exc_str exc) (errors (deref w 0%nat)))
           (ret tt) (fun _ => _) (preserves_ret _ tt)).
  intros _.
  pose proof (merge_results_in_errors (label +:+ "_task: " +:+ exc_str exc) 0%nat
                (fst out, [])) as Hrest.
  unfold merge_results in Hrest. cbn [fst snd record_task_errors] in Hrest.
  intros w2 Hw2. specialize (Hrest w2 Hw2). exact Hrest.
Qed.

End OwnFields.

(** *** The serialized run on a single state dictionary *)

Abbreviation sequential_outcome :=
  (Scheduler.sequential_outcome clause_agent summary_agent risk_agent dispatch_agent).

Lemma process_sequential s :
  FORCE_SEQUENTIAL_EXECUTION = true ->
  process 0%nat (alone s)
  = (Val 0%nat,
     snd (merge_results 0%nat (fst (sequential_outcome s)) (snd (sequential_outcome s)))).
Proof.
  intros Hforce. unfold Scheduler.process, _run_parallel_execution. rewrite Hforce.
  destruct (never_raises_run (merge_results 0%nat (fst (sequential_outcome s)))
              (snd (sequential_outcome s)) (merge_results_never_raises _ _))
    as [[] Hmerge].
  erewrite bind_val; [reflexivity|].
  apply try_except_val. erewrite bind_val; [exact Hmerge | apply sequential_tasks_alone].
Qed.

Lemma lookup_results (a b c d : Ref) :
  let results : Results :=
    <["suggestion" := d]> (<["risk" := c]> (<["summary" := b]> (<["clauses" := a]> ∅))) in
  results !! "clauses" = Some a /\ results !! "summary" = Some b
  /\ results !! "risk" = Some c /\ results !! "suggestion" = Some d.
Proof. cbv zeta. repeat split; by simplify_map_eq. Qed.

Lemma results_after_tasks s :
  let results := fst (fst (sequential_outcome s)) in
  results !! "clauses" = Some (fallback (snd (clause_agent s)) 1%nat 0%nat)
  /\ results !! "summary" = Some (fallback (snd (summary_agent s)) 2%nat 0%nat)
  /\ results !! "risk" = Some (fallback (snd (risk_agent (risk_input s))) 3%nat 0%nat)
  /\ results !! "suggestion"
     = Some (fallback (snd (dispatch_agent (suggestion_input s)))
               (fallback (snd (risk_agent (risk_input s))) 3%nat 0%nat) 0%nat).
Proof. apply lookup_results. Qed.

Lemma errors_after_tasks s :
  snd (fst (sequential_outcome s))
  = failure "clauses" (snd (clause_agent s)) ++ failure "summary" (snd (summary_agent s))
      ++ failure "risk" (snd (risk_agent (risk_input s)))
      ++ failure "suggestion" (snd (dispatch_agent (suggestion_input s))).
Proof. reflexivity. Qed.

Lemma heap_after_tasks s : heap (snd (sequential_outcome s)) <> [].
Proof.
  unfold Scheduler.sequential_outcome. cbn [snd heap].
  destruct (snd (risk_agent (risk_input s))); discriminate.
Qed.

(** The state dictionary itself once the tasks are over: an agent has
    worked on it only if the risk task raised, and then it is the dispatch
    agent. *)
Lemma canonical_after_tasks s :
  deref (snd (sequential_outcome s)) 0%nat
  = match snd (risk_agent (risk_input s)) with
    | None => s
    | Some _ => fst (dispatch_agent s)
    end.
Proof.
  unfold Scheduler.sequential_outcome, Scheduler.suggestion_input, deref.
  cbn [snd heap].
  destruct (risk_agent (risk_input s)) as [r [e|]]; reflexivity.
Qed.

Lemma status_after_tasks s :
  keeps_status clause_agent -> keeps_status summary_agent ->
  keeps_status risk_agent -> keeps_status dispatch_agent ->
  all_status (status s) (snd (sequential_outcome s)).
Proof.
  intros Hclause Hsummary Hrisk Hdispatch.
  assert (Hsuggestion : status (fst (dispatch_agent (suggestion_input s))) = status s).
  { rewrite Hdispatch. unfold Scheduler.suggestion_input.
    specialize (Hrisk (risk_input s)).
    destruct (risk_agent (risk_input s)) as [r [e|]]; [reflexivity | exact Hrisk]. }
  split; [apply heap_after_tasks|].
  unfold Scheduler.sequential_outcome. cbn [snd heap].
  specialize (Hrisk (risk_input s)).
  destruct (snd (risk_agent (risk_input s)));
    repeat (apply Forall_cons; split); try apply Forall_nil;
    first [ reflexivity | apply Hclause | apply Hsummary | exact Hsuggestion | exact Hrisk ].
Qed.



(** *** Dictionaries stay where they are

    No statement of the scheduler takes a dictionary off the heap, so a
    reference that denotes one keeps doing so. *)

Section Allocated.

Variable n : nat.

Abbreviation allocated := (Scheduler.allocated n).

Lemma allocated_update r g : preserves allocated (update r g).
Proof.
  intros w Hw. unfold Scheduler.allocated, update, modify in *. simpl.
  by rewrite length_insert.
Qed.

Lemma allocated_deepcopy r : preserves allocated (deepcopy r).
Proof.
  intros w Hw. unfold Scheduler.allocated, deepcopy in *. simpl.
  rewrite length_app. lia.
Qed.

Lemma allocated_invoke label agent r : preserves allocated (invoke label agent r).
Proof.
  intros w Hw. unfold Scheduler.allocated, invoke in *.
  destruct (agent (deref w r)) as [s' [e|]]; simpl; by rewrite length_insert.
Qed.

Lemma allocated_time_sleep secs : preserves allocated (Scheduler.time_sleep secs).
Proof. intros w Hw. exact Hw. Qed.

Lemma allocated_gathered {A} (task : Py World A) :
  preserves allocated task -> preserves allocated (gathered task).
Proof.
  intros Htask w Hw. specialize (Htask w Hw). unfold gathered.
  destruct (task w) as [r w']. exact Htask.
Qed.

Ltac allocated_step :=
  lazymatch goal with
  | |- preserves _ (ret _) => apply preserves_ret
  | |- preserves _ (raise _) => apply preserves_raise
  | |- preserves _ get => apply preserves_get
  | |- preserves _ (update _ _) => apply allocated_update
  | |- preserves _ (deepcopy _) => apply allocated_deepcopy
  | |- preserves _ (invoke _ _ _) => apply allocated_invoke
  | |- preserves _ (Scheduler.time_sleep _) => apply allocated_time_sleep
  | |- preserves _ (gathered _) => apply allocated_gathered
  | |- preserves _ (record_task_errors _ _) =>
      apply preserves_record_task_errors; intros ?
  | |- preserves _ (try_except _ _) => apply preserves_try_except; [|intros ?]
  | |- preserves _ (bind _ _) => apply preserves_bind; [|intros ?]
  | |- preserves _ (match ?r with Val _ => _ | Exc _ => _ end) => destruct r
  | |- _ => by_cases
  end.

Lemma allocated_process state : preserves allocated (process state).
Proof.
  unfold Scheduler.process, _run_parallel_execution, _execute_sequential_tasks,
    sequential_step, _execute_parallel_tasks, _run_clause_task, _run_summary_task,
    _run_risk_task, _run_suggestion_task.
  open_merge.
  repeat allocated_step.
Qed.

Lemma allocated_invoke_graph ingestion_agent planning_agent initial :
  preserves allocated
    (Workflow.invoke_graph ingestion_agent planning_agent clause_agent summary_agent
       risk_agent dispatch_agent FORCE_SEQUENTIAL_EXECUTION event_loop_failure initial).
Proof.
  unfold Workflow.invoke_graph.
  repeat first [ apply allocated_process | allocated_step ].
Qed.

End Allocated.

Lemma deref_update r g w :
  (r < length (heap w))%nat -> deref (snd (update r g w)) r = g (deref w r).
Proof.
  intros Hr. unfold update, modify, deref. simpl.
  by rewrite list_lookup_insert_eq.
Qed.

Section Workflow.

Import Workflow.

Variable ingestion_agent planning_agent : Agent.

Abbreviation run_adk_a :=
  (Workflow.run_adk_a ingestion_agent planning_agent clause_agent summary_agent
                      risk_agent dispatch_agent FORCE_SEQUENTIAL_EXECUTION
                      event_loop_failure).
Abbreviation invoke_graph :=
  (Workflow.invoke_graph ingestion_agent planning_agent clause_agent summary_agent
                         risk_agent dispatch_agent FORCE_SEQUENTIAL_EXECUTION
                         event_loop_failure).

Lemma run_adk_a_returns document_id document_path document_text document_type w :
  exists s w',
    run_adk_a document_id document_path document_text document_type w = (Val s, w').
Proof.
  unfold Workflow.run_adk_a. unfold bind at 1.
  match goal with
  | |- context [try_except ?body ?handler ?w1] =>
      destruct (try_except_returns body handler
                  ltac:(intros e w0; eexists _, _; reflexivity) w1) as (s & w' & Hrun)
  end.
  exists s, w'. exact Hrun.
Qed.

Lemma run_adk_a_raised document_id document_path document_text document_type w exc w2 :
  invoke_graph (length (heap w))
    (graph_start document_id document_path document_text document_type w) = (Exc exc, w2) ->
  exists w',
    run_adk_a document_id document_path document_text document_type w
    = (Val (append_error ("Workflow error: " +:+ exc_str exc)
              (set_status "error" (deref w2 (length (heap w))))), w').
Proof.
  intros Hgraph.
  assert (Halloc : (length (heap w) < length (heap w2))%nat).
  { pose proof (allocated_invoke_graph (length (heap w)) ingestion_agent planning_agent
                  (length (heap w))
                  (graph_start document_id document_path document_text document_type w))
      as Hkept.
    rewrite Hgraph in Hkept. apply Hkept. unfold Scheduler.allocated, graph_start. simpl.
    rewrite length_app. simpl. lia. }
  eexists. unfold Workflow.run_adk_a, bind at 1, try_except, bind at 1.
  fold (graph_start document_id document_path document_text document_type w).
  rewrite Hgraph. unfold bind, get, ret.
  change (update ?r ?g ?w0) with (Val tt, snd (update r g w0)).
  cbv beta iota. f_equal.
  rewrite deref_update, deref_update; [reflexivity | exact Halloc |].
  unfold update, modify. simpl. by rewrite length_insert.
Qed.


End Workflow.

End SchedulerProofs.

(** ** Concrete runs *)

Section Examples.

Import Scenarios.


Lemma down_always_retryable n : Llm.always_retryable true down "clause 2" n.
Proof. intros k _. exists unavailable. split; reflexivity. Qed.


(** The same request text sent to two models: one entry, and the second
    model is never asked. *)
Lemma cache_key_is_prompt_only_witness :
  let first := Llm.generate_with_retry empty_environ true digest flash "clause 1"
                 None 3 true (Llm.module_init clock0) in
  let second := Llm.generate_with_retry empty_environ true digest pro "clause 1"
                  None 3 true (snd first) in
  Llm.RESPONSE_CACHE (snd first) !! digest "clause 1" = Some "flash says"
  /\ second = (Val "flash says", snd first).
Proof.
  exact (cache_key_is_prompt_only empty_environ true digest flash pro "clause 1"
           None None 3 3 (Llm.module_init clock0) "flash says"
           eq_refl ltac:(vm_compute; discriminate) eq_refl).
Defined.

(** C5 as stated fails: two models with different identifiers, the same
    request text. The call to the second model is answered from the entry
    the first one stored: it returns the first model's response, the
    second model is not invoked, and the cache holds a single entry. *)
Lemma cache_entry_shared_across_models :
  let first := Llm.generate_with_retry empty_environ true digest flash "clause 1"
                 None 3 true (Llm.module_init clock0) in
  let second := Llm.generate_with_retry empty_environ true digest pro "clause 1"
                  None 3 true (snd first) in
  Llm.model_name flash <> Llm.model_name pro
  /\ fst first = Val "flash says"
  /\ Llm.respond pro 1%nat "clause 1" = Val "pro says"
  /\ fst second = Val "flash says"
  /\ Llm.calls (snd second) = Llm.calls (snd first)
  /\ length (Llm.calls (snd second)) = 1%nat
  /\ size (Llm.RESPONSE_CACHE (snd second)) = 1%nat.
Proof. vm_compute. repeat split. discriminate. Qed.

Lemma cache_idempotence_witness :
  let first := Llm.generate_with_retry empty_environ true digest flash "clause 1"
                 None 3 true (Llm.module_init clock0) in
  let second := Llm.generate_with_retry empty_environ true digest flash "clause 1"
                  None 3 true (snd first) in
  fst first = Val "flash says"
  /\ fst second = Val "flash says"
  /\ length (Llm.granted (snd second)) = 1%nat
  /\ length (Llm.calls (snd second)) = 1%nat
  /\ Llm.granted (snd second) = Llm.granted (snd first)
  /\ Llm.calls (snd second) = Llm.calls (snd first)
  /\ Llm.slept (snd second) = [].
Proof.
  exact (cache_idempotence empty_environ true digest flash "clause 1"
           None None 3 3 (Llm.module_init clock0) "flash says"
           eq_refl ltac:(vm_compute; discriminate) eq_refl).
Defined.



Lemma install_once_then_ignored_witness :
  let w1 := snd (GlobalLimiter.install_global_llm_rate_limiter 15 4
                   (GlobalLimiter.module_init clock0 (Some genai0))) in
  let w2 := GlobalLimiter.run
              [GlobalLimiter.Install 1 60; GlobalLimiter.SyncCall 3;
               GlobalLimiter.Install 30 2]
              w1 in
  GlobalLimiter._PATCH_INSTALLED w1 = true
  /\ GlobalLimiter.install_global_llm_rate_limiter 1 60 w1 = (Val tt, w1)
  /\ GlobalLimiter._MIN_INTERVAL w2 = 15%Q
  /\ GlobalLimiter._RPM_LIMIT w2 = 4%Z.
Proof.
  intros w1 w2.
  destruct (install_once_then_ignored (GlobalLimiter.module_init clock0 (Some genai0)) 15 4
              [GlobalLimiter.Install 1 60; GlobalLimiter.SyncCall 3;
               GlobalLimiter.Install 30 2] eq_refl)
    as (Hagain & Hmin & Hrpm & _).
  split; [reflexivity|]. split; [apply Hagain|].
  split; [exact Hmin | exact Hrpm].
Defined.



(** What the merge makes of the dispatch failure: the risk agent and the
    dispatch agent return the same dictionary, so the merge takes its
    errors over twice. *)
Example dispatch_failure_merged_twice :
  let outcome := Scheduler.process returning returning returning
                   (Dispatch.agent true "http://localhost:8002/mcp" unreachable)
                   true None 0%nat (Scheduler.alone processing_state) in
  let final := Scheduler.deref (snd outcome) 0%nat in
  status final = "completed_with_warning"
  /\ errors final
     = ["ADK-B dispatch failed after 3 attempts: Connection refused";
        "ADK-B dispatch failed after 3 attempts: Connection refused"]
  /\ adk_b_response final
     = Some [("status", "dispatch_failed"); ("error", "Connection refused")].
Proof. vm_compute. repeat split. Qed.



End Examples.

(** * Further properties *)

(** ** The dispatch agent (src/agents/a2a_dispatch_agent.py) *)

Section DispatchBehaviour.

Import Dispatch DispatchRuns.

Variable ENABLE_A2A_DISPATCH : bool.
Variable MCP_SERVER_B_URL : string.
Variable http : nat -> HttpOutcome.

Abbreviation process := (Dispatch.process ENABLE_A2A_DISPATCH MCP_SERVER_B_URL http).

Ltac run_dispatch :=
  unfold try_except, bind, get, modify, ret, raise,
    session_post, on_state, Dispatch.time_sleep; simpl.

Ltac all_outcomes :=
  repeat match goal with
         | |- context [response_ok ?c] => destruct (response_ok c); run_dispatch
         | |- context [match ?j with Val _ => _ | Exc _ => _ end] =>
             destruct j; run_dispatch
         end.

(** The agent as the scheduler sees it: it returns, and the dictionary
    it worked on has one of the three final statuses. *)
Lemma dispatch_verdict (s : LegalDocumentState) :
  exists d,
    agent ENABLE_A2A_DISPATCH MCP_SERVER_B_URL http s = (d, None)
    /\ In (status d) ["completed"; "completed_with_warning"; "error"].
Proof.
  unfold agent, Dispatch.process.
  destruct ENABLE_A2A_DISPATCH; run_dispatch; [|eexists; split; [reflexivity | intuition]].
  destruct (ready_for_suggestions s); run_dispatch;
    [|eexists; split; [reflexivity | simpl; intuition]].
  destruct (http 0%nat) as [e0|e0|c0 j0]; run_dispatch; all_outcomes;
    [|eexists; split; [reflexivity | simpl; intuition]..].
  destruct (http 1%nat) as [e1|e1|c1 j1]; run_dispatch; all_outcomes;
    [|eexists; split; [reflexivity | simpl; intuition]..].
  destruct (http 2%nat) as [e2|e2|c2 j2]; run_dispatch; all_outcomes;
    eexists; (split; [reflexivity | simpl; intuition]).
Qed.

(** X1. Whatever the configuration, the state and the server, the agent
    returns (the exception of a post or of [response.json()] is caught),
    and it leaves one of the three final statuses. *)
Theorem dispatch_always_settles (s : LegalDocumentState) :
  let outcome := process (start s) in
  fst outcome = Val tt
  /\ snd (agent ENABLE_A2A_DISPATCH MCP_SERVER_B_URL http s) = None
  /\ In (status (state (snd outcome))) ["completed"; "completed_with_warning"; "error"].
Proof.
  intros outcome. subst outcome.
  unfold agent, Dispatch.process, start.
  destruct ENABLE_A2A_DISPATCH; run_dispatch; [|intuition].
  destruct (ready_for_suggestions s); run_dispatch; [|intuition].
  destruct (http 0%nat) as [e0|e0|c0 j0]; run_dispatch; all_outcomes; [|intuition..].
  destruct (http 1%nat) as [e1|e1|c1 j1]; run_dispatch; all_outcomes; [|intuition..].
  destruct (http 2%nat) as [e2|e2|c2 j2]; run_dispatch; all_outcomes; intuition.
Qed.

(** X2. The agent posts exactly when dispatch is enabled and the state is
    ready for suggestions. Otherwise it does not sleep either, and all it
    changes in the state is the status, set to [completed], and the
    planning notes, which get one note more. *)
Theorem dispatch_only_when_ready (s : LegalDocumentState) :
  let w := snd (process (start s)) in
  (posts w = [] <-> ENABLE_A2A_DISPATCH = false \/ ready_for_suggestions s = false)
  /\ (ENABLE_A2A_DISPATCH = false \/ ready_for_suggestions s = false ->
      sleeps w = []
      /\ exists note,
           state w = set_planning_notes (planning_notes s ++ [note])
                       (set_status "completed" s)
           /\ note = if ENABLE_A2A_DISPATCH
                     then "Dispatch skipped: no actionable risks detected"
                     else "Dispatch disabled via config").
Proof.
  intros w. subst w. unfold Dispatch.process, start, append_note.
  destruct ENABLE_A2A_DISPATCH; run_dispatch.
  - destruct (ready_for_suggestions s); run_dispatch.
    + split; [|intros [H|H]; discriminate H].
      split; [|intros [H|H]; discriminate H].
      destruct (http 0%nat) as [e0|e0|c0 j0]; run_dispatch; all_outcomes;
        try discriminate.
      destruct (http 1%nat) as [e1|e1|c1 j1]; run_dispatch; all_outcomes;
        try discriminate.
      destruct (http 2%nat) as [e2|e2|c2 j2]; run_dispatch; all_outcomes; discriminate.
    + split; [split; [right|]; reflexivity|].
      intros _. split; [reflexivity|]. eexists. split; reflexivity.
  - split; [split; [left|]; reflexivity|].
    intros _. split; [reflexivity|]. eexists. split; reflexivity.
Qed.



(** X5. Only request exceptions are retried. When a post raises anything
    else, or the body of a successful response does not parse, the agent
    posts no more: it returns with status [error] and
    [A2ADispatchAgent: <exc>] appended to the error list, it does not
    touch [adk_b_response], and it appends no audit entry. *)
Theorem dispatch_unexpected_exception (s : LegalDocumentState) (k : nat)
    (exc : PyExc) :
  ENABLE_A2A_DISPATCH = true ->
  ready_for_suggestions s = true ->
  (k < 3)%nat ->
  request_failures http k ->
  (http k = OtherFailure exc
   \/ exists code,
        http k = Responded code (Exc exc) /\ (code < 600)%Z /\ response_ok code = true) ->
  let outcome := process (start s) in
  let w := snd outcome in
  fst outcome = Val tt
  /\ length (posts w) = S k
  /\ status (state w) = "error"
  /\ errors (state w) = errors s ++ ["A2ADispatchAgent: " +:+ exc_str exc]
  /\ adk_b_response (state w) = adk_b_response s
  /\ audit_log (state w) = audit_log s.
Proof.
  intros Hon Hready Hk Hfail Hexc outcome w. subst w outcome.
  unfold Dispatch.process, start, append_note. rewrite Hon. run_dispatch.
  rewrite Hready. run_dispatch.
  destruct k as [|[|[|k]]]; [| | |lia].
  - destruct Hexc as [Hexc|(code & Hexc & _ & Hok)]; rewrite Hexc; run_dispatch;
      [|rewrite Hok; run_dispatch]; repeat split; reflexivity.
  - destruct (Hfail 0%nat ltac:(lia)) as [e0 H0]. rewrite H0. run_dispatch.
    destruct Hexc as [Hexc|(code & Hexc & _ & Hok)]; rewrite Hexc; run_dispatch;
      [|rewrite Hok; run_dispatch]; repeat split; reflexivity.
  - destruct (Hfail 0%nat ltac:(lia)) as [e0 H0]. rewrite H0. run_dispatch.
    destruct (Hfail 1%nat ltac:(lia)) as [e1 H1]. rewrite H1. run_dispatch.
    destruct Hexc as [Hexc|(code & Hexc & _ & Hok)]; rewrite Hexc; run_dispatch;
      [|rewrite Hok; run_dispatch]; repeat split; reflexivity.
Qed.

End DispatchBehaviour.

(** ** The retry wrapper (src/utils/llm.py) *)

Section RetryBehaviour.

Import Llm.
Local Open Scope Q_scope.

Variable env : Environ.
Variable ClientError_imported : bool.
Variable sha256_hex16 : string -> string.

Abbreviation retry_loop := (Llm.retry_loop env ClientError_imported sha256_hex16).
Abbreviation generate_with_retry :=
  (Llm.generate_with_retry env ClientError_imported sha256_hex16).
Abbreviation _is_retryable := (Llm._is_retryable ClientError_imported).
Abbreviation cache_key := (Llm.cache_key sha256_hex16).
Abbreviation attempt_budget := (Llm.attempt_budget env).
Abbreviation retry_iteration :=
  (retry_iteration env ClientError_imported sha256_hex16).

(** The back-off sleep either returns, and is recorded, or raises and
    leaves no trace. *)
Lemma backoff_sleep_cases secs w :
  let w3 := snd (backoff_sleep secs w) in
  RESPONSE_CACHE w3 = RESPONSE_CACHE w /\ calls w3 = calls w /\ granted w3 = granted w
  /\ ((0 <= secs /\ fst (backoff_sleep secs w) = Val tt /\ slept w3 = slept w ++ [secs])
      \/ (secs < 0
          /\ fst (backoff_sleep secs w)
             = Exc (ValueError "sleep length must be non-negative")
          /\ w3 = w)).
Proof.
  unfold backoff_sleep, bind, time_sleep, modify.
  destruct (Qlt_le_dec secs 0) as [Hneg|Hpos]; simpl.
  - repeat split; try reflexivity. right. repeat split; try reflexivity. exact Hneg.
  - repeat split; try reflexivity. left. repeat split; try reflexivity. exact Hpos.
Qed.

(** What one run of the loop uses up, whatever the model does. *)
Lemma retry_loop_accounting model prompt base_delay enable_cache attempts :
  forall remaining attempt last_error w,
    ((0 < remaining)%nat -> (attempt + Z.of_nat remaining = attempts + 1)%Z) ->
    let w' := snd (retry_loop model prompt base_delay enable_cache attempts
                              remaining attempt last_error w) in
    exists n,
      (n <= remaining)%nat
      /\ (0 < remaining -> 0 < n)%nat
      /\ length (calls w') = (length (calls w) + n)%nat
      /\ length (granted w') = (length (granted w) + n)%nat
      /\ (length (slept w') <= length (slept w) + (n - 1))%nat.
Proof.
  induction remaining as [|remaining IH]; intros attempt last_error w Hatt.
  - exists 0%nat. simpl. destruct last_error; simpl; repeat split; lia.
  - specialize (Hatt ltac:(lia)).
    destruct (retry_iteration model prompt base_delay enable_cache attempts
                remaining attempt last_error w)
      as (w1 & Hrun & Hcache & Hcalls & Hslept & Hgr & Hlater & Hstep).
    cbv zeta. rewrite Hstep. clear Hstep. cbv zeta.
    destruct (respond model (length (calls w)) prompt) as [result|exc].
    + exists 1%nat. destruct enable_cache; simpl;
        rewrite ?Hcalls, ?Hslept, ?Hgr, ?length_app; simpl; repeat split; lia.
    + destruct ((attempts <=? attempt)%Z || negb (_is_retryable exc)) eqn:Hstop.
      * exists 1%nat. simpl.
        rewrite ?Hcalls, ?Hslept, ?Hgr, ?length_app; simpl; repeat split; lia.
      * apply orb_false_iff in Hstop. destruct Hstop as [Hmore _].
        apply Z.leb_gt in Hmore.
        match goal with
        | |- context [Llm.backoff_sleep ?q ?x] =>
            set (w2 := x);
            pose proof (backoff_sleep_cases q w2) as Hsleep;
            destruct (Llm.backoff_sleep q w2) as [[[]|e'] w3]
        end;
        destruct Hsleep as (Hc3 & Hcalls3 & Hgr3 & Hsleep);
        assert (Hw2 : length (calls w2) = (length (calls w) + 1)%nat
                      /\ length (granted w2) = (length (granted w) + 1)%nat
                      /\ slept w2 = slept w)
          by (subst w2; simpl; rewrite Hcalls, Hgr, Hslept, !length_app; simpl;
              repeat split; lia);
        destruct Hw2 as (Hcalls2 & Hgr2 & Hslept2);
        clearbody w2; cbn [fst snd] in *.
        -- destruct Hsleep as [(_ & _ & Hslept3)|(_ & Habs & _)]; [|discriminate].
           destruct (IH (attempt + 1)%Z (Some exc) w3 ltac:(lia))
             as (n & Hn & Hpos & Hcalls' & Hgr' & Hslept').
           exists (S n). cbv zeta in Hcalls', Hgr', Hslept'.
           rewrite Hcalls', Hgr', Hcalls3, Hgr3, Hcalls2, Hgr2.
           rewrite Hslept3, length_app, Hslept2 in Hslept'. simpl in Hslept'.
           assert (0 < n)%nat by (apply Hpos; lia).
           repeat split; lia.
        -- destruct Hsleep as [(_ & Habs & _)|(_ & _ & ->)]; [discriminate|].
           exists 1%nat. rewrite Hcalls2, Hgr2, Hslept2. repeat split; lia.
Qed.

Lemma generate_with_retry_accounting model prompt max_attempts base_delay enable_cache w :
  let w' := snd (generate_with_retry model prompt max_attempts base_delay enable_cache w) in
  exists n,
    (Z.of_nat n <= Z.max (attempt_budget max_attempts) 0)%Z
    /\ length (calls w') = (length (calls w) + n)%nat
    /\ length (granted w') = (length (granted w) + n)%nat
    /\ (length (slept w') <= length (slept w) + (n - 1))%nat.
Proof.
  unfold Llm.generate_with_retry, bind, get. cbv zeta. cbn [fst snd].
  destruct (if enable_cache then RESPONSE_CACHE w !! cache_key prompt else None)
    as [cached|].
  - exists 0%nat. simpl. repeat split; lia.
  - destruct (retry_loop_accounting model prompt base_delay enable_cache
                (attempt_budget max_attempts)
                (Z.to_nat (attempt_budget max_attempts)) 1%Z None w ltac:(lia))
      as (n & Hn & _ & Hcalls & Hgr & Hslept).
    exists n. repeat split; try assumption. lia.
Qed.

(** X6. Whatever the model does, one call of [generate_with_retry]
    invokes it at most as often as the attempt budget says (not at all for
    a budget below 1), takes one slot of the limiter for each invocation,
    no more and no fewer, and sleeps for back-off fewer times than it
    invokes the model. So over any sequence of calls since the module was
    imported there are exactly as many grants as model invocations. *)
Theorem model_calls_accounted :
  (forall model prompt max_attempts base_delay enable_cache w,
      let w' := snd (generate_with_retry model prompt max_attempts base_delay
                                         enable_cache w) in
      exists n,
        (Z.of_nat n <= Z.max (attempt_budget max_attempts) 0)%Z
        /\ length (calls w') = (length (calls w) + n)%nat
        /\ length (granted w') = (length (granted w) + n)%nat
        /\ (length (slept w') <= length (slept w) + (n - 1))%nat)
  /\ (forall requests c,
        let w := run env ClientError_imported sha256_hex16 requests (module_init c) in
        length (granted w) = length (calls w)).
Proof.
  split; [exact generate_with_retry_accounting|].
  intros requests c.
  assert (Hinv : forall w, length (granted w) = length (calls w) ->
            length (granted (run env ClientError_imported sha256_hex16 requests w))
            = length (calls (run env ClientError_imported sha256_hex16 requests w))).
  { induction requests as [|r requests IH]; intros w Hw; [exact Hw|].
    simpl. apply IH. unfold serve.
    destruct (generate_with_retry_accounting (req_model r) (req_prompt r)
                (req_max_attempts r) (req_base_delay r) (req_enable_cache r) w)
      as (n & _ & Hcalls & Hgr & _).
    cbv zeta in Hcalls, Hgr. rewrite Hcalls, Hgr, Hw. reflexivity. }
  apply Hinv. reflexivity.
Qed.

(** The loop recovers when a failure that is retried is followed by a
    success within the budget. *)
Lemma retry_loop_recovers model prompt base_delay enable_cache attempts result :
  (0 <= base_delay)%Z ->
  forall k remaining attempt last_error w,
    (k <= remaining)%nat ->
    (attempt + Z.of_nat k <= attempts)%Z ->
    (forall i, (i < k)%nat ->
       exists e, respond model (length (calls w) + i) prompt = Exc e
                 /\ _is_retryable e = true) ->
    respond model (length (calls w) + k) prompt = Val result ->
    exists w',
      retry_loop model prompt base_delay enable_cache attempts
                 (S remaining) attempt last_error w = (Val result, w')
      /\ length (calls w') = (length (calls w) + k + 1)%nat
      /\ slept w' = slept w ++ backoff_schedule base_delay attempt k
      /\ RESPONSE_CACHE w'
         = if enable_cache then <[cache_key prompt := result]> (RESPONSE_CACHE w)
           else RESPONSE_CACHE w.
Proof.
  intros Hb. induction k as [|k IH]; intros remaining attempt last_error w Hk Hatt Hfail Hok.
  - destruct (retry_iteration model prompt base_delay enable_cache attempts
                remaining attempt last_error w)
      as (w1 & Hrun & Hcache & Hcalls & Hslept & Hgr & Hlater & Hstep).
    rewrite Nat.add_0_r in Hok. rewrite Hok in Hstep. cbv zeta in Hstep.
    eexists. split; [exact Hstep|].
    destruct enable_cache; simpl; rewrite ?Hcalls, ?Hslept, ?Hcache, ?length_app, ?app_nil_r;
      simpl; repeat split; lia.
  - destruct remaining as [|remaining]; [lia|].
    destruct (retry_iteration model prompt base_delay enable_cache attempts
                (S remaining) attempt last_error w)
      as (w1 & Hrun & Hcache & Hcalls & Hslept & Hgr & Hlater & Hstep).
    destruct (Hfail 0%nat ltac:(lia)) as (e & Hresp & Hretry).
    rewrite Nat.add_0_r in Hresp. rewrite Hresp, Hretry in Hstep.
    replace (attempts <=? attempt)%Z with false in Hstep
      by (symmetry; apply Z.leb_gt; lia).
    cbn [orb negb] in Hstep. cbv zeta in Hstep.
    rewrite backoff_sleep_nonneg in Hstep by (apply pow_delay_nonneg; exact Hb).
    match type of Hstep with
    | _ = Llm.retry_loop _ _ _ _ _ _ _ _ _ _ _ ?x => set (w3 := x) in *
    end.
    assert (Hcalls3 : length (calls w3) = S (length (calls w))).
    { subst w3. simpl. rewrite Hcalls, length_app. simpl. lia. }
    destruct (IH remaining (attempt + 1)%Z (Some e) w3) as (w' & Hloop & Hc' & Hs' & Hk').
    { lia. }
    { lia. }
    { intros i Hi. rewrite Hcalls3.
      replace (S (length (calls w)) + i)%nat with (length (calls w) + S i)%nat by lia.
      apply Hfail. lia. }
    { rewrite Hcalls3.
      replace (S (length (calls w)) + k)%nat with (length (calls w) + S k)%nat by lia.
      exact Hok. }
    exists w'. rewrite Hstep. split; [exact Hloop|].
    rewrite Hc', Hcalls3, Hs', Hk'. subst w3. simpl. rewrite Hslept, Hcache, <- app_assoc.
    repeat split; try reflexivity. lia.
Qed.


Lemma retry_loop_cache model prompt base_delay enable_cache attempts :
  forall remaining attempt last_error w,
    RESPONSE_CACHE (snd (retry_loop model prompt base_delay enable_cache attempts
                                    remaining attempt last_error w))
    = match fst (retry_loop model prompt base_delay enable_cache attempts
                            remaining attempt last_error w) with
      | Val result =>
          if enable_cache then <[cache_key prompt := result]> (RESPONSE_CACHE w)
          else RESPONSE_CACHE w
      | Exc _ => RESPONSE_CACHE w
      end.
Proof.
  induction remaining as [|remaining IH]; intros attempt last_error w.
  - simpl. destruct last_error; reflexivity.
  - destruct (retry_iteration model prompt base_delay enable_cache attempts
                remaining attempt last_error w)
      as (w1 & Hrun & Hcache & Hcalls & Hslept & Hgr & Hlater & Hstep).
    rewrite Hstep. clear Hstep. cbv zeta.
    destruct (respond model (length (calls w)) prompt) as [result|exc].
    + destruct enable_cache; simpl; rewrite Hcache; reflexivity.
    + destruct ((attempts <=? attempt)%Z || negb (_is_retryable exc)).
      * simpl. exact Hcache.
      * match goal with
        | |- context [Llm.backoff_sleep ?q ?x] =>
            pose proof (backoff_sleep_cases q x) as Hsleep;
            assert (Hc2 : RESPONSE_CACHE x = RESPONSE_CACHE w) by (simpl; exact Hcache);
            destruct (Llm.backoff_sleep q x) as [[[]|e'] w3]
        end;
        destruct Hsleep as (Hc3 & _); cbn [fst snd] in *.
        -- rewrite IH, Hc3, Hc2. reflexivity.
        -- rewrite Hc3, Hc2. reflexivity.
Qed.

(** X8. The response cache changes only when a call with the cache
    enabled returns: then the returned response is the entry of the
    request text. A call that raises, and any call with the cache
    disabled, leaves the cache as it was. *)
Theorem cache_written_only_on_success
    model prompt max_attempts base_delay enable_cache w :
  let outcome := generate_with_retry model prompt max_attempts base_delay enable_cache w in
  RESPONSE_CACHE (snd outcome)
  = match fst outcome with
    | Val result =>
        if enable_cache then <[cache_key prompt := result]> (RESPONSE_CACHE w)
        else RESPONSE_CACHE w
    | Exc _ => RESPONSE_CACHE w
    end.
Proof.
  unfold Llm.generate_with_retry, bind, get. cbv zeta. cbn [fst snd].
  destruct enable_cache.
  - destruct (RESPONSE_CACHE w !! cache_key prompt) as [cached|] eqn:Hlookup.
    + simpl. symmetry. apply insert_id. exact Hlookup.
    + apply retry_loop_cache.
  - apply retry_loop_cache.
Qed.

(** X9. With a budget below 1 (a negative [max_attempts], or
    LLM_MAX_RETRY_ATTEMPTS set to 0 or less and no [max_attempts]) a call
    that is not answered from the cache raises [RuntimeError] at once: the
    model is not invoked, no slot is taken, the state is untouched. *)
Theorem no_budget_no_call model prompt max_attempts base_delay enable_cache w :
  (attempt_budget max_attempts <= 0)%Z ->
  (enable_cache = true -> RESPONSE_CACHE w !! cache_key prompt = None) ->
  generate_with_retry model prompt max_attempts base_delay enable_cache w
  = (Exc (RuntimeError "generate_with_retry failed without executing model call"), w).
Proof.
  intros Hbudget Hmiss.
  rewrite (generate_with_retry_miss env ClientError_imported sha256_hex16) by exact Hmiss.
  replace (Z.to_nat (attempt_budget max_attempts)) with 0%nat by lia.
  reflexivity.
Qed.



End RetryBehaviour.


(** ** The process-wide limiter (src/utils/global_llm_rate_limiter.py) *)

Section GateProofs.

Import GlobalLimiter GlobalGate.
Local Open Scope Q_scope.

Lemma count_if_all p l :
  Forall (fun x => p x = true) l -> count_if p l = length l.
Proof.
  induction 1 as [|x l Hx _ IH]; simpl; [reflexivity|]. rewrite Hx, IH. reflexivity.
Qed.

(** A history whose oldest entry is inside the window fits the limit. *)
Lemma history_fits min_interval rpm_limit granted oldest rest last now :
  0 < min_interval ->
  limiter_inv min_interval rpm_limit granted (oldest :: rest) last now ->
  now - 60 < oldest ->
  (Z.of_nat (length (oldest :: rest)) <= rpm_limit)%Z.
Proof.
  intros Hmin [(dropped & Hd & _) _ Hnow Hsp Hwin] Hin.
  specialize (Hwin now). unfold window_count in Hwin.
  rewrite Hd, count_if_app in Hwin.
  rewrite (count_if_all (in_window now) (oldest :: rest)) in Hwin; [lia|].
  apply Forall_forall. intros g Hg.
  apply in_window_true. split.
  - pose proof Hg as Hg'. apply list_elem_of_lookup in Hg'. destruct Hg' as [j Hj].
    destruct j as [|j]; [injection Hj as <-; exact Hin|].
    assert (Hlt : oldest + min_interval <= g).
    { apply (Hsp (length dropped) (length dropped + S j)%nat); [lia| |].
      - rewrite Hd, lookup_app_r by lia. rewrite Nat.sub_diag. reflexivity.
      - rewrite Hd, lookup_app_r by lia.
        replace (length dropped + S j - length dropped)%nat with (S j) by lia.
        exact Hj. }
    lra.
  - rewrite Hd in Hnow. apply Forall_app in Hnow. destruct Hnow as [_ Hnow].
    rewrite Forall_forall in Hnow. apply Hnow. exact Hg.
Qed.

Lemma compute_wait_value w now :
  (1 <= _RPM_LIMIT w)%Z ->
  _compute_wait now w
  = (Val (wait_value w now),
     set_history (popleft_while (now - 60) (_REQUEST_HISTORY w)) w).
Proof.
  intros Hrpm. unfold _compute_wait, wait_value, bind, get, modify, ret, raise. simpl.
  destruct (_RPM_LIMIT w <=? Z.of_nat (length (popleft_while (now - 60) (_REQUEST_HISTORY w))))%Z
    eqn:Hfull; [|reflexivity].
  destruct (popleft_while (now - 60) (_REQUEST_HISTORY w)) as [|oldest rest];
    [|reflexivity].
  apply Z.leb_le in Hfull. simpl in Hfull. lia.
Qed.

(** One pass through the locked section: the caller gets the slot, or is
    told to wait, and the wait is long enough for the next pass to find
    the interval over and, if the interval was over already, the window
    too. *)
Lemma locked_section_pass w :
  installed_ok w ->
  (exists w', locked_section w = (Val None, w')
              /\ length (granted w') = S (length (granted w)))
  \/ (exists wait_for w',
        locked_section w = (Val (Some wait_for), w')
        /\ 0 < wait_for
        /\ granted w' = granted w
        /\ (forall d, wait_for <= d ->
              interval_over (slept d w')
              /\ (interval_over w -> window_over (slept d w')))
        /\ (interval_over w -> window_over w -> False)).
Proof.
  intros [Hok Hon].
  pose proof (time_time_ok w Hok) as Hok1. unfold time_time in Hok1. simpl in Hok1.
  set (w1 := set_clock (elapse 0 (clock w)) w) in *.
  set (now := clock_now (elapse 0 (clock w))).
  assert (Hnow : clock_now (clock w) <= now).
  { destruct Hok as (Hst & _). pose proof (elapse_now 0 (clock w) Hst).
    unfold now. lra. }
  assert (Hokp : limiter_ok (set_history (popleft_while (now - 60) (_REQUEST_HISTORY w1)) w1)).
  { apply set_history_ok; [exact Hok1 | simpl; fold now; lra]. }
  destruct Hok1 as (Hst1 & Hmin1 & Hrpm1 & Hinv1 & _).
  unfold locked_section, bind, time_time. cbn [fst snd]. fold w1. fold now.
  rewrite (compute_wait_value w1 now Hrpm1).
  set (h := popleft_while (now - 60) (_REQUEST_HISTORY w1)) in *.
  set (wp := set_history h w1) in *.
  destruct (Qlt_le_dec 0 (wait_value w1 now)) as [Hwait|Hfree].
  - right. exists (wait_value w1 now), wp.
    split; [reflexivity|]. split; [exact Hwait|]. split; [reflexivity|].
    unfold wait_value in *. fold h in Hwait |- *.
    set (ww := if (_RPM_LIMIT w1 <=? Z.of_nat (length h))%Z
               then match h with
                    | oldest :: _ => fmax 0 (60 - (now - oldest))
                    | [] => 0
                    end
               else 0) in *.
    set (wi := _LAST_REQUEST_TS w1 + _MIN_INTERVAL w1 - now) in *.
    assert (Hvi : wi <= fmax (fmax wi ww) 0).
    { pose proof (fmax_ge_l (fmax wi ww) 0). pose proof (fmax_ge_l wi ww). lra. }
    assert (Hvw : ww <= fmax (fmax wi ww) 0).
    { pose proof (fmax_ge_l (fmax wi ww) 0). pose proof (fmax_ge_r wi ww). lra. }
    assert (Hover : interval_over w -> 0 < ww).
    { intros Hint. unfold interval_over in Hint.
      destruct (Qlt_le_dec 0 ww) as [Hpos|Hnp]; [exact Hpos|]. exfalso.
      assert (Hle : fmax (fmax wi ww) 0 <= 0).
      { apply fmax_le_iff. split; [|lra]. apply fmax_le_iff. split; [|exact Hnp].
        unfold wi. simpl. lra. }
      lra. }
    assert (Hfull : 0 < ww ->
              exists oldest rest, h = oldest :: rest /\ now - 60 < oldest
                                  /\ ww = fmax 0 (60 - (now - oldest))
                                  /\ (_RPM_LIMIT w1 <= Z.of_nat (length h))%Z).
    { intros Hpos. unfold ww in *.
      destruct (_RPM_LIMIT w1 <=? Z.of_nat (length h))%Z eqn:Hlen; [|lra].
      destruct h as [|oldest rest] eqn:Hh; [lra|].
      exists oldest, rest. split; [reflexivity|].
      split; [|split; [reflexivity | apply Z.leb_le; exact Hlen]].
      destruct (Qlt_le_dec (now - 60) oldest) as [Hin|Hout]; [exact Hin|]. exfalso.
      assert (fmax 0 (60 - (now - oldest)) <= 0) by (apply fmax_le_iff; split; lra).
      lra. }
    split.
    + intros d Hd.
      assert (Hclock : now + d <= clock_now (clock (slept d wp))).
      { unfold slept. simpl. pose proof (elapse_now d (elapse 0 (clock w)) Hst1).
        fold now in H. exact H. }
      split.
      * unfold interval_over. unfold slept in *. simpl in *. unfold wi in *. lra.
      * intros Hint. destruct (Hfull (Hover Hint)) as (oldest & rest & Hh & Hin & Hww & _).
        split.
        -- unfold slept. simpl. fold h. rewrite Hh.
           destruct Hokp as (_ & _ & _ & Hinvp & _). simpl in Hinvp. fold h in Hinvp.
           rewrite Hh in Hinvp. fold now in Hinvp.
           exact (history_fits _ _ _ _ _ _ _ Hmin1 Hinvp Hin).
        -- unfold slept in *. simpl in *. fold h. rewrite Hh.
           assert (60 - (now - oldest) <= ww) by (rewrite Hww; apply fmax_ge_r). lra.
    + intros Hint [Hlen Hhead]. destruct (Hfull (Hover Hint)) as (oldest & rest & Hh & Hin & _ & Hge).
      unfold h in Hh, Hge. simpl in Hh, Hge, Hlen, Hhead.
      destruct (_REQUEST_HISTORY w) as [|x t]; [discriminate Hh|].
      simpl in Hh, Hge. destruct (Qlt_le_dec x (now - 60)) as [Hlt|Hnlt].
      * pose proof (popleft_while_length (now - 60) t) as Hshort.
        simpl in Hlen. lia.
      * injection Hh as -> ->. lra.
  - left. eexists. split; [reflexivity|]. simpl. rewrite length_app. simpl. lia.
Qed.

End GateProofs.

Section GateTermination.

Import GlobalLimiter GlobalGate.
Local Open Scope Q_scope.

Lemma block_until_slot_sync_eq fuel :
  _block_until_slot_sync fuel = block_until_slot (fun v => v) fuel.
Proof. induction fuel as [|fuel IH]; simpl; [reflexivity | rewrite IH; reflexivity]. Qed.

Lemma block_until_slot_async_eq fuel :
  _block_until_slot_async fuel = block_until_slot _sleep_interval fuel.
Proof. induction fuel as [|fuel IH]; simpl; [reflexivity | rewrite IH; reflexivity]. Qed.

Section Nap.

Variable nap : Q -> Q.
Hypothesis nap_long_enough : forall v, 0 < v -> v <= nap v.

Lemma sleep_after_pass w wait_for w' :
  installed_ok w -> locked_section w = (Val (Some wait_for), w') -> 0 < wait_for ->
  time_sleep (nap wait_for) w' = (Val tt, slept (nap wait_for) w')
  /\ installed_ok (slept (nap wait_for) w').
Proof.
  intros Hok Hpass Hpos.
  pose proof (locked_section_ok w Hok) as Hok'. rewrite Hpass in Hok'. simpl in Hok'.
  pose proof (time_sleep_installed (nap wait_for) w' Hok') as Hok2.
  pose proof (nap_long_enough wait_for Hpos) as Hnap.
  unfold time_sleep in *. destruct (Qlt_le_dec (nap wait_for) 0) as [Hneg|Hnn]; [lra|].
  split; [reflexivity | exact Hok2].
Qed.

(** With the interval and the window over, the first pass takes the slot. *)
Lemma gate_third_pass w fuel :
  installed_ok w -> interval_over w -> window_over w ->
  exists w', block_until_slot nap (S fuel) w = (Val true, w')
             /\ length (granted w') = S (length (granted w)).
Proof.
  intros Hok Hint Hwin. simpl. unfold bind.
  destruct (locked_section_pass w Hok)
    as [(w' & Hpass & Hlen)|(v & w' & Hpass & _ & _ & _ & Habs)].
  - rewrite Hpass. exists w'. split; [reflexivity | exact Hlen].
  - destruct (Habs Hint Hwin).
Qed.

Lemma gate_second_pass w fuel :
  installed_ok w -> interval_over w ->
  exists w', block_until_slot nap (S (S fuel)) w = (Val true, w')
             /\ length (granted w') = S (length (granted w)).
Proof.
  intros Hok Hint. cbn [block_until_slot]. unfold bind at 1.
  destruct (locked_section_pass w Hok)
    as [(w' & Hpass & Hlen)|(v & w' & Hpass & Hpos & Hgr & Hnext & _)].
  - rewrite Hpass. exists w'. split; [reflexivity | exact Hlen].
  - rewrite Hpass.
    destruct (sleep_after_pass w v w' Hok Hpass Hpos) as [Hsleep Hok2].
    unfold bind at 1. rewrite Hsleep.
    destruct (Hnext (nap v) (nap_long_enough v Hpos)) as [Hint2 Hwin2].
    destruct (gate_third_pass (slept (nap v) w') fuel Hok2 Hint2 (Hwin2 Hint))
      as (w3 & Hrun & Hlen).
    exists w3. split; [exact Hrun|]. rewrite Hlen. unfold slept. simpl. rewrite Hgr.
    reflexivity.
Qed.

Lemma gate_first_pass w fuel :
  installed_ok w ->
  exists w', block_until_slot nap (S (S (S fuel))) w = (Val true, w')
             /\ length (granted w') = S (length (granted w)).
Proof.
  intros Hok. cbn [block_until_slot]. unfold bind at 1.
  destruct (locked_section_pass w Hok)
    as [(w' & Hpass & Hlen)|(v & w' & Hpass & Hpos & Hgr & Hnext & _)].
  - rewrite Hpass. exists w'. split; [reflexivity | exact Hlen].
  - rewrite Hpass.
    destruct (sleep_after_pass w v w' Hok Hpass Hpos) as [Hsleep Hok2].
    unfold bind at 1. rewrite Hsleep.
    destruct (Hnext (nap v) (nap_long_enough v Hpos)) as [Hint2 _].
    destruct (gate_second_pass (slept (nap v) w') fuel Hok2 Hint2)
      as (w3 & Hrun & Hlen).
    exists w3. split; [exact Hrun|]. rewrite Hlen. unfold slept. simpl. rewrite Hgr.
    reflexivity.
Qed.

End Nap.

(** X12. A caller that is not overtaken between its passes through the
    locked section gets its slot after at most two sleeps: in a state the
    installer and the gate have produced, on a clock that does not run
    backwards, three iterations of the loop of [_block_until_slot_sync]
    (and of [_block_until_slot_async]) are enough for it to return, and
    it has then recorded exactly one request. *)
Theorem gate_returns_within_three_passes w fuel :
  installed_ok w ->
  (3 <= fuel)%nat ->
  (exists w', _block_until_slot_sync fuel w = (Val true, w')
              /\ length (granted w') = S (length (granted w)))
  /\ (exists w', _block_until_slot_async fuel w = (Val true, w')
                 /\ length (granted w') = S (length (granted w))).
Proof.
  intros Hok Hfuel.
  destruct fuel as [|[|[|fuel]]]; try lia.
  rewrite block_until_slot_sync_eq, block_until_slot_async_eq. split.
  - apply gate_first_pass; [|exact Hok]. intros v Hv. lra.
  - apply gate_first_pass; [|exact Hok]. intros v Hv.
    unfold _sleep_interval. apply fmax_ge_l.
Qed.

End GateTermination.

Section InstallBehaviour.

Import GlobalLimiter GlobalGate.
Local Open Scope Q_scope.

Lemma gated_unwrapped {A} (is_wrapped : World -> bool) (m : Py World A) w :
  is_wrapped w = false -> gated is_wrapped m w = (Val tt, w).
Proof. intros Hw. unfold gated, bind, get. rewrite Hw. reflexivity. Qed.

Lemma unpatched_not_wrapped w :
  unpatched (genai_models w) = true -> sync_wrapped w = false /\ async_wrapped w = false.
Proof.
  unfold unpatched, sync_wrapped, async_wrapped.
  destruct (genai_models w) as [g|]; [|split; reflexivity].
  destruct (wrapped (Models g)), (wrapped (AsyncModels g)); simpl; intros H;
    try discriminate; split; reflexivity.
Qed.

Lemma install_unpatchable min_interval rpm_limit w :
  patchable (genai_models w) = false ->
  install_global_llm_rate_limiter min_interval rpm_limit w = (Val tt, w).
Proof.
  intros Hp. unfold install_global_llm_rate_limiter, bind, get.
  destruct (_PATCH_INSTALLED w); [reflexivity|].
  unfold patchable in Hp.
  destruct (genai_models w) as [g|]; [|reflexivity].
  destruct (Models g), (AsyncModels g); try discriminate; reflexivity.
Qed.

Lemma install_patchable min_interval rpm_limit w g :
  _PATCH_INSTALLED w = false -> genai_models w = Some g -> patchable (Some g) = true ->
  setup (snd (install_global_llm_rate_limiter min_interval rpm_limit w))
  = (fmax min_interval (1 # 10), Z.max rpm_limit 1, true,
     Some {| Models := _wrap_method (Models g);
             AsyncModels := _wrap_method (AsyncModels g) |}).
Proof.
  intros Hoff Hg Hp. unfold install_global_llm_rate_limiter, bind, get.
  rewrite Hoff, Hg. unfold patchable in Hp.
  destruct (Models g), (AsyncModels g); try discriminate; reflexivity.
Qed.

Lemma run_idle acts : forall w,
  _PATCH_INSTALLED w = false ->
  unpatched (genai_models w) = true ->
  (if patchable (genai_models w) then first_install acts else None) = None ->
  run acts w = w.
Proof.
  induction acts as [|a acts IH]; intros w Hoff Hun Hnone; [reflexivity|].
  assert (Hstep : snd (perform a w) = w).
  { destruct (unpatched_not_wrapped w Hun) as [Hs Ha].
    destruct a as [mi rpm| | |fuel|fuel]; simpl.
    - destruct (patchable (genai_models w)) eqn:Hp; [discriminate|].
      rewrite install_unpatchable by exact Hp. reflexivity.
    - rewrite gated_unwrapped by exact Hs. reflexivity.
    - rewrite gated_unwrapped by exact Ha. reflexivity.
    - rewrite gated_unwrapped by exact Hs. reflexivity.
    - rewrite gated_unwrapped by exact Ha. reflexivity. }
  change (run (a :: acts) w) with (run acts (snd (perform a w))). rewrite Hstep.
  apply IH; [exact Hoff | exact Hun |].
  destruct (patchable (genai_models w)); [|reflexivity].
  destruct a; simpl in Hnone; try exact Hnone. discriminate.
Qed.

Lemma run_first_install acts : forall w g min_interval rpm_limit,
  _PATCH_INSTALLED w = false ->
  genai_models w = Some g ->
  unpatched (Some g) = true ->
  patchable (Some g) = true ->
  first_install acts = Some (min_interval, rpm_limit) ->
  setup (run acts w)
  = (fmax min_interval (1 # 10), Z.max rpm_limit 1, true,
     Some {| Models := _wrap_method (Models g);
             AsyncModels := _wrap_method (AsyncModels g) |}).
Proof.
  induction acts as [|a acts IH]; intros w g mi rpm Hoff Hg Hun Hp Hfirst; [discriminate|].
  change (run (a :: acts) w) with (run acts (snd (perform a w))).
  assert (Hun' : unpatched (genai_models w) = true) by (rewrite Hg; exact Hun).
  destruct (unpatched_not_wrapped w Hun') as [Hs Ha].
  destruct a as [mi' rpm'| | |fuel|fuel]; simpl in Hfirst.
  - injection Hfirst as -> ->.
    pose proof (install_patchable mi rpm w g Hoff Hg Hp) as Hset.
    change (perform (Install mi rpm) w) with (install_global_llm_rate_limiter mi rpm w).
    rewrite run_setup; [exact Hset|].
    unfold setup in Hset. injection Hset as _ _ Hflag _. exact Hflag.
  - simpl. rewrite gated_unwrapped by exact Hs. eapply IH; eassumption.
  - simpl. rewrite gated_unwrapped by exact Ha. eapply IH; eassumption.
  - simpl. rewrite gated_unwrapped by exact Hs. eapply IH; eassumption.
  - simpl. rewrite gated_unwrapped by exact Ha. eapply IH; eassumption.
Qed.

(** X13. The first call of the installer that finds a class to patch
    decides the configuration for the life of the process. Starting from
    the module as imported with the client library as shipped, after any
    sequence of installer calls and model calls: if the library is
    missing, has neither class, or the installer was not called, the
    module state is exactly as imported (no call was delayed or
    recorded); otherwise the limits are those of the first installer
    call, clamped to at least 0.1 s and at least 1 request per minute,
    and the methods are the wrapped ones. *)
Theorem first_install_decides c g acts :
  unpatched g = true ->
  let w := run acts (module_init c g) in
  match (if patchable g then first_install acts else None) with
  | None => w = module_init c g
  | Some (min_interval, rpm_limit) =>
      _MIN_INTERVAL w == fmax min_interval (1 # 10)
      /\ 1 # 10 <= _MIN_INTERVAL w
      /\ _RPM_LIMIT w = Z.max rpm_limit 1
      /\ _PATCH_INSTALLED w = true
      /\ genai_models w
         = option_map (fun genai => {| Models := _wrap_method (Models genai);
                                       AsyncModels := _wrap_method (AsyncModels genai) |}) g
  end.
Proof.
  intros Hun w.
  destruct (if patchable g then first_install acts else None) as [[mi rpm]|] eqn:Hfirst.
  - destruct (patchable g) eqn:Hp; [|discriminate].
    destruct g as [g|]; [|discriminate].
    pose proof (run_first_install acts (module_init c (Some g)) g mi rpm
                  eq_refl eq_refl Hun Hp Hfirst) as Hset.
    fold w in Hset. unfold setup in Hset. injection Hset as Hmin Hrpm Hflag Hg.
    rewrite Hmin, Hrpm, Hflag, Hg. repeat split; try reflexivity.
    apply fmax_ge_r.
  - apply run_idle; [reflexivity | exact Hun | exact Hfirst].
Qed.

End InstallBehaviour.


(** ** The scheduler: what a run leaves in the state *)

Section SchedulerBehaviour.

Import Scheduler SchedulerRuns.

Variable clause_agent summary_agent risk_agent dispatch_agent : Agent.

Abbreviation risk_input := (Scheduler.risk_input clause_agent).
Abbreviation suggestion_input := (Scheduler.suggestion_input clause_agent risk_agent).
Abbreviation process_in mode failure :=
  (Scheduler.process clause_agent summary_agent risk_agent dispatch_agent mode failure).

(** Looks a label up in [results]. *)
Ltac eval_lookup :=
  first [ rewrite lookup_insert_eq
        | rewrite lookup_insert_ne by discriminate
        | rewrite lookup_empty ].

(** *** The merge as a function on the state dictionary

    The statements of the merge write to the state dictionary only and
    read the dictionaries of the tasks. *)

Lemma rewrites_ret : rewrites (ret tt) (fun _ s0 => s0).
Proof. intros s0 rest st ps. reflexivity. Qed.

Lemma rewrites_bind (m k : Py World unit) f g :
  rewrites m f -> rewrites k g ->
  rewrites (bind m (fun _ => k)) (fun rest s0 => g rest (f rest s0)).
Proof. intros Hm Hk s0 rest st ps. unfold bind. rewrite Hm. apply Hk. Qed.

Lemma rewrites_update g : rewrites (update 0%nat g) (fun _ s0 => g s0).
Proof. intros s0 rest st ps. reflexivity. Qed.

Lemma rewrites_copy_key {A} (get_k : LegalDocumentState -> A) set_k i :
  rewrites (copy_key get_k set_k (S i) 0%nat)
           (fun rest s0 => set_k (get_k (task_state i rest)) s0).
Proof. intros s0 rest st ps. reflexivity. Qed.

Lemma rewrites_extend_key {A} (get_k : LegalDocumentState -> list A) set_k i :
  (forall x, set_k (get_k x ++ []) x = x) ->
  rewrites (extend_key get_k set_k (S i) 0%nat)
           (fun rest s0 => set_k (get_k s0 ++ get_k (task_state i rest)) s0).
Proof.
  intros Hid s0 rest st ps. unfold extend_key, bind, get, deref. cbn [heap].
  change (default blank_state ((s0 :: rest) !! S i)) with (task_state i rest).
  destruct (get_k (task_state i rest)) as [|a l]; [|reflexivity].
  cbn [truthy_list ret]. rewrite Hid. reflexivity.
Qed.

Lemma rewrites_copy_if {A} (get_k : LegalDocumentState -> A) set_k (test : A -> bool) i :
  (forall x, set_k (get_k x) x = x) ->
  rewrites (bind get (fun w => if test (get_k (deref w (S i)))
                               then copy_key get_k set_k (S i) 0%nat else ret tt))
           (fun rest s0 => set_k (if test (get_k (task_state i rest))
                                  then get_k (task_state i rest) else get_k s0) s0).
Proof.
  intros Hid s0 rest st ps. unfold bind at 1. unfold get, deref. cbn [heap].
  change (default blank_state ((s0 :: rest) !! S i)) with (task_state i rest).
  destruct (test (get_k (task_state i rest))); [reflexivity|].
  cbn [ret]. rewrite Hid. reflexivity.
Qed.

(** A task that raised leaves the state itself as its result: the merge
    then copies the state's fields onto themselves and extends its lists
    by themselves. *)
Lemma rewrites_copy_key_self {A} (get_k : LegalDocumentState -> A) set_k :
  (forall x, set_k (get_k x) x = x) ->
  rewrites (copy_key get_k set_k 0%nat 0%nat) (fun _ s0 => s0).
Proof.
  intros Hid s0 rest st ps. unfold copy_key, bind, get, update, modify, deref.
  cbn [heap lookup list_lookup default from_option id insert list_insert].
  rewrite Hid. reflexivity.
Qed.

Lemma rewrites_extend_key_self {A} (get_k : LegalDocumentState -> list A) set_k :
  (forall x, set_k (get_k x ++ []) x = x) ->
  rewrites (extend_key get_k set_k 0%nat 0%nat)
           (fun _ s0 => set_k (get_k s0 ++ get_k s0) s0).
Proof.
  intros Hid s0 rest st ps. unfold extend_key, bind, get, deref.
  cbn [heap lookup list_lookup default from_option id].
  pose proof (Hid s0) as Hs0.
  destruct (get_k s0) as [|a l] eqn:Hk.
  - cbn [truthy_list ret]. rewrite Hs0. reflexivity.
  - cbn [truthy_list]. unfold update, modify, deref.
    cbn [heap lookup list_lookup default from_option id insert list_insert].
    rewrite Hk. reflexivity.
Qed.

Lemma rewrites_copy_if_self {A} (get_k : LegalDocumentState -> A) set_k (test : A -> bool) :
  (forall x, set_k (get_k x) x = x) ->
  rewrites (bind get (fun w => if test (get_k (deref w 0%nat))
                               then copy_key get_k set_k 0%nat 0%nat else ret tt))
           (fun _ s0 => s0).
Proof.
  intros Hid s0 rest st ps. unfold bind at 1. unfold get.
  destruct (test _); [|reflexivity].
  apply (rewrites_copy_key_self get_k set_k Hid).
Qed.

Lemma rewrites_record_task_errors errs :
  rewrites (record_task_errors 0%nat errs)
           (fun _ s0 => fold_left (fun s e => append_error
                                     (fst e +:+ "_task: " +:+ exc_str (snd e)) s) errs s0).
Proof.
  induction errs as [|[label exc] errs IH]; intros s0 rest st ps; [reflexivity|].
  cbn [record_task_errors fold_left]. unfold bind, update at 1, modify. cbn [deref heap].
  apply IH.
Qed.

Ltac eta_state := intros []; simpl; rewrite ?app_nil_r; reflexivity.

Ltac rewrites_step :=
  lazymatch goal with
  | |- rewrites (ret tt) _ => apply rewrites_ret
  | |- rewrites (update _ _) _ => apply rewrites_update
  | |- rewrites (record_task_errors _ _) _ => apply rewrites_record_task_errors
  | |- rewrites (copy_key _ _ O _) _ => apply rewrites_copy_key_self; eta_state
  | |- rewrites (copy_key _ _ _ _) _ => apply rewrites_copy_key
  | |- rewrites (extend_key _ _ O _) _ => apply rewrites_extend_key_self; eta_state
  | |- rewrites (extend_key _ _ _ _) _ => apply rewrites_extend_key; eta_state
  | |- rewrites (bind get (fun w => if _ (_ (deref w O)) then _ else _)) _ =>
      apply rewrites_copy_if_self; eta_state
  | |- rewrites (bind get _) _ => apply rewrites_copy_if; eta_state
  | |- rewrites (bind _ _) _ => apply rewrites_bind
  end.

Ltac rewrites_merge :=
  unfold merge_results, when_present; cbv zeta; cbn [fst snd];
  repeat eval_lookup;
  unfold merge_clauses, merge_summary, merge_risk, merge_suggestion, _extend_audit_log;
  repeat rewrites_step.

(** *** The tasks, started on a single dictionary *)

Ltac run_tasks :=
  unfold _execute_parallel_tasks, _execute_sequential_tasks, sequential_step, gathered,
    _run_clause_task, _run_summary_task, _run_risk_task, _run_suggestion_task,
    copy_key, update, modify, try_except, bind, get, ret, raise, deepcopy, invoke,
    Scheduler.time_sleep, deref, alone;
  simpl.

Ltac open_tasks :=
  unfold _execute_parallel_tasks, _execute_sequential_tasks, sequential_step, gathered,
    _run_clause_task, _run_summary_task, _run_risk_task, _run_suggestion_task,
    copy_key, update, modify, try_except, bind, get, ret, raise, deepcopy, invoke,
    Scheduler.time_sleep, deref, alone.

Ltac heap_step :=
  cbn [heap started pauses fst snd default from_option id length app
       lookup list_lookup insert list_insert].

Ltac agent_returned H := rewrite H; simpl; repeat (eval_lookup; simpl).

(** The outcome of the tasks when all four return: [results] and the
    dictionaries, which are the state, the copies of the clause and the
    summary agent and the copy the risk agent and then the dispatch agent
    worked on. *)
Lemma tasks_all_return mode failure s c m r d :
  (mode = false -> failure = None) ->
  clause_agent s = (c, None) ->
  summary_agent s = (m, None) ->
  risk_agent (set_clause_count (clause_count c)
                (set_extracted_clauses (extracted_clauses c) s)) = (r, None) ->
  dispatch_agent r = (d, None) ->
  _run_parallel_execution clause_agent summary_agent risk_agent dispatch_agent
                          mode failure 0%nat (alone s)
  = (Val (<["suggestion" := 3%nat]> (<["risk" := 3%nat]>
            (<["summary" := 2%nat]> (<["clauses" := 1%nat]> ∅))), []),
     {| heap := [s; c; m; d];
        started := ["clauses"; "summary"; "risk"; "suggestion"];
        pauses := if mode then [15; 15; 15]%Z else [] |}).
Proof.
  intros Hloop Hc Hm Hr Hd. unfold _run_parallel_execution.
  destruct mode.
  - run_tasks. agent_returned Hc. agent_returned Hm. agent_returned Hr. agent_returned Hd.
    reflexivity.
  - rewrite (Hloop eq_refl).
    open_tasks. heap_step. rewrite Hc. heap_step. rewrite Hm. heap_step.
    rewrite Hr. heap_step. rewrite Hd. heap_step.
    reflexivity.
Qed.

Lemma process_merges mode failure state w out w1 :
  _run_parallel_execution clause_agent summary_agent risk_agent dispatch_agent
                          mode failure state w = (Val out, w1) ->
  process_in mode failure state w = (Val state, snd (merge_results state out w1)).
Proof.
  intros Htasks. unfold Scheduler.process.
  destruct (never_raises_run (merge_results state out) w1
              (merge_results_never_raises _ _)) as [[] Hmerge].
  erewrite bind_val; [reflexivity|].
  apply try_except_val. erewrite bind_val; [exact Hmerge | exact Htasks].
Qed.

(** Replaces the merge in the goal by the function it computes. *)
Ltac merge_now :=
  match goal with
  | |- context [merge_results 0%nat ?out _] =>
      let f := fresh "f" in
      let Hf := fresh "Hf" in
      evar (f : list LegalDocumentState -> LegalDocumentState -> LegalDocumentState);
      assert (Hf : rewrites (merge_results 0%nat out) f) by (unfold f; rewrites_merge);
      unfold rewrites in Hf; rewrite !Hf; clear Hf
  end.

Lemma if_twice {A} (b : bool) (x y : A) :
  (if b then x else if b then x else y) = (if b then x else y).
Proof. destruct b; reflexivity. Qed.

(** The goals are equations between a field of the merged state and its
    value; the merge function is the local definition [f]. *)
Ltac compute_field :=
  lazy -[app pretty truthy_str truthy_opt_dict];
  rewrite <- ?app_assoc; cbn [app]; reflexivity.

Ltac one_field f :=
  lazymatch goal with
  | |- status _ = _ => rewrite <- if_twice; compute_field
  | |- audit_log _ = _ =>
      (* the fields the audit entry reads are hypotheses *)
      unfold parallel_audit;
      repeat match goal with
        | E : _ (f _ _) = _ |- _ => rewrite E; clear E
        end;
      compute_field
  | |- _ => compute_field
  end.

Ltac conjuncts :=
  repeat lazymatch goal with |- _ /\ _ => split end.

Ltac expose :=
  cbv zeta;
  cbn [snd fst deref heap started pauses lookup list_lookup default from_option id].

Ltac fields :=
  match goal with
  | f := _ |- _ => conjuncts; one_field f
  end.

(** X14. What a run leaves in the state when all four tasks return, in
    either mode: the clause fields come from the clause agent's copy, the
    summary fields from the summary agent's copy, the risk fields from the
    dictionary that the risk agent and then the dispatch agent worked on;
    status and [adk_b_response] are taken from that dictionary when they
    are truthy; its planning notes, errors and audit entries are appended
    twice (it is merged as the risk result and as the suggestion result);
    every other field stays as the scheduler received it, whatever the
    agents did to it in their copies. *)
Theorem merge_when_all_return mode failure s c m r d :
  (mode = false -> failure = None) ->
  clause_agent s = (c, None) ->
  summary_agent s = (m, None) ->
  risk_agent (risk_input s) = (r, None) ->
  dispatch_agent r = (d, None) ->
  let w' := snd (process_in mode failure 0%nat (alone s)) in
  let final := deref w' 0%nat in
  started w' = ["clauses"; "summary"; "risk"; "suggestion"]
  /\ (document_id final = document_id s
      /\ document_path final = document_path s
      /\ document_text final = document_text s
      /\ document_type final = document_type s
      /\ parsed_text final = parsed_text s
      /\ metadata final = metadata s
      /\ page_count final = page_count s
      /\ document_category final = document_category s
      /\ document_complexity final = document_complexity s
      /\ use_complex_model final = use_complex_model s
      /\ processing_strategy final = processing_strategy s
      /\ model_plan final = model_plan s
      /\ cost_budget final = cost_budget s
      /\ parallel_tasks final = parallel_tasks s)
  /\ (extracted_clauses final = extracted_clauses c
      /\ clause_count final = clause_count c
      /\ metadata_summary final = metadata_summary m
      /\ document_outline final = document_outline m
      /\ key_entities final = key_entities m)
  /\ (risk_assessments final = risk_assessments d
      /\ high_risk_count final = high_risk_count d
      /\ overall_risk_score final = overall_risk_score d
      /\ recommendation_trace final = recommendation_trace d
      /\ context_bundle final = context_bundle d
      /\ ready_for_suggestions final = ready_for_suggestions d
      /\ cost_spent final = cost_spent d)
  /\ status final = (if truthy_str (status d) then status d else status s)
  /\ adk_b_response final
     = (if truthy_opt_dict (adk_b_response d) then adk_b_response d else adk_b_response s)
  /\ planning_notes final = planning_notes s ++ planning_notes d ++ planning_notes d
  /\ errors final = errors s ++ errors d ++ errors d
  /\ audit_log final
     = audit_log s ++ audit_log c ++ audit_log m ++ audit_log d ++ audit_log d
         ++ [parallel_audit final].
Proof.
  intros Hloop Hc Hm Hr Hd.
  unfold Scheduler.risk_input, clause_result in Hr. rewrite Hc in Hr.
  rewrite (process_merges _ _ _ _ _ _ (tasks_all_return mode failure s c m r d
                                         Hloop Hc Hm Hr Hd)).
  cbn [snd]. merge_now. expose.
  match goal with
  | f := _ |- _ =>
      assert (processing_strategy (f [c; m; d] s) = processing_strategy s)
        by compute_field;
      assert (clause_count (f [c; m; d] s) = clause_count c) by compute_field;
      assert (high_risk_count (f [c; m; d] s) = high_risk_count d) by compute_field;
      assert (ready_for_suggestions (f [c; m; d] s) = ready_for_suggestions d)
        by compute_field
  end.
  fields.
Qed.

(** X15. The two modes agree when no task raises: the run leaves the same
    dictionaries behind and has invoked the same agents; only the pauses
    differ, three of 15 s when the stages run one after the other and
    none when they run concurrently. *)
Theorem modes_agree_when_all_return failure s c m r d :
  clause_agent s = (c, None) ->
  summary_agent s = (m, None) ->
  risk_agent (risk_input s) = (r, None) ->
  dispatch_agent r = (d, None) ->
  let sequential := snd (process_in true failure 0%nat (alone s)) in
  let concurrent := snd (process_in false None 0%nat (alone s)) in
  heap sequential = heap concurrent
  /\ started sequential = started concurrent
  /\ pauses sequential = [15; 15; 15]%Z
  /\ pauses concurrent = [].
Proof.
  intros Hc Hm Hr Hd.
  unfold Scheduler.risk_input, clause_result in Hr. rewrite Hc in Hr.
  assert (Hseq : true = false -> failure = None) by discriminate.
  assert (Hpar : false = false -> @None PyExc = None) by reflexivity.
  rewrite (process_merges _ _ _ _ _ _
             (tasks_all_return true failure s c m r d Hseq Hc Hm Hr Hd)).
  rewrite (process_merges _ _ _ _ _ _
             (tasks_all_return false None s c m r d Hpar Hc Hm Hr Hd)).
  cbn [snd]. merge_now. expose. conjuncts; reflexivity.
Qed.

(** *** Failures when the stages run concurrently *)

Ltac concurrent_tasks :=
  unfold _run_parallel_execution; open_tasks; heap_step.

Ltac agent_done H := rewrite H; heap_step.

(** X16. When the stages run concurrently and the clause task raises, the
    risk task and the dispatch task, which await its result, fail with
    the same exception without their agents being invoked: the three
    failures are recorded, with that of the summary task between them if
    it raised too, and the clause, risk and dispatch fields, the status
    and the planning notes stay as they were. *)
Theorem concurrent_clause_failure s c e :
  clause_agent s = (c, Some e) ->
  let w' := snd (process_in false None 0%nat (alone s)) in
  let final := deref w' 0%nat in
  started w' = ["clauses"; "summary"]
  /\ errors final
     = errors s ++ ["clauses_task: " +:+ exc_str e]
         ++ match snd (summary_agent s) with
            | Some e' => ["summary_task: " +:+ exc_str e']
            | None => []
            end
         ++ ["risk_task: " +:+ exc_str e; "suggestion_task: " +:+ exc_str e]
  /\ (extracted_clauses final = extracted_clauses s
      /\ clause_count final = clause_count s
      /\ risk_assessments final = risk_assessments s
      /\ high_risk_count final = high_risk_count s
      /\ overall_risk_score final = overall_risk_score s
      /\ ready_for_suggestions final = ready_for_suggestions s
      /\ adk_b_response final = adk_b_response s
      /\ status final = status s
      /\ planning_notes final = planning_notes s).
Proof.
  intros Hc.
  destruct (summary_agent s) as [m [e'|]] eqn:Hm.
  - erewrite process_merges
      by (concurrent_tasks; agent_done Hc; agent_done Hm; reflexivity).
    cbn [snd]. merge_now. expose. conjuncts; compute_field.
  - erewrite process_merges
      by (concurrent_tasks; agent_done Hc; agent_done Hm; reflexivity).
    cbn [snd]. merge_now. expose. conjuncts; compute_field.
Qed.

(** X17. When the stages run concurrently and the risk task raises, the
    dispatch agent is not invoked and the dispatch task fails with the
    same exception: both failures are recorded, the clause fields are
    those of the clause agent's copy, and the risk and dispatch fields,
    the status and the planning notes stay as they were. *)
Theorem concurrent_risk_failure s c r e :
  clause_agent s = (c, None) ->
  risk_agent (risk_input s) = (r, Some e) ->
  let w' := snd (process_in false None 0%nat (alone s)) in
  let final := deref w' 0%nat in
  started w' = ["clauses"; "summary"; "risk"]
  /\ errors final
     = errors s
         ++ match snd (summary_agent s) with
            | Some e' => ["summary_task: " +:+ exc_str e']
            | None => []
            end
         ++ ["risk_task: " +:+ exc_str e; "suggestion_task: " +:+ exc_str e]
  /\ (extracted_clauses final = extracted_clauses c
      /\ clause_count final = clause_count c)
  /\ (risk_assessments final = risk_assessments s
      /\ high_risk_count final = high_risk_count s
      /\ overall_risk_score final = overall_risk_score s
      /\ ready_for_suggestions final = ready_for_suggestions s
      /\ adk_b_response final = adk_b_response s
      /\ status final = status s
      /\ planning_notes final = planning_notes s).
Proof.
  intros Hc Hr.
  unfold Scheduler.risk_input, clause_result in Hr. rewrite Hc in Hr.
  destruct (summary_agent s) as [m [e'|]] eqn:Hm.
  - erewrite process_merges
      by (concurrent_tasks; agent_done Hc; agent_done Hm; agent_done Hr; reflexivity).
    cbn [snd]. merge_now. expose. conjuncts; compute_field.
  - erewrite process_merges
      by (concurrent_tasks; agent_done Hc; agent_done Hm; agent_done Hr; reflexivity).
    cbn [snd]. merge_now. expose. conjuncts; compute_field.
Qed.

(** *** The status of a run *)

Section Verdict.

Variable ENABLE_A2A_DISPATCH : bool.
Variable MCP_SERVER_B_URL : string.
Variable http : nat -> Dispatch.HttpOutcome.
Variable loop_failure : option PyExc.

Abbreviation dispatch := (Dispatch.agent ENABLE_A2A_DISPATCH MCP_SERVER_B_URL http).

(** X18. When the stages run one after the other, the status of the
    run is the verdict of the dispatch agent, whatever the other tasks
    did and whether they returned or raised: the merged state has the
    status the dispatch agent left in the dictionary it was given,
    which is [completed], [completed_with_warning] or [error]. A status
    set earlier, [error] by a failed ingestion for one, is overwritten. *)
Theorem sequential_status_is_dispatch_verdict s :
  let final := deref (snd (Scheduler.process clause_agent summary_agent risk_agent
                             dispatch true loop_failure 0%nat (alone s))) 0%nat in
  status final = status (fst (dispatch (suggestion_input s)))
  /\ In (status final) ["completed"; "completed_with_warning"; "error"].
Proof.
  rewrite (process_sequential clause_agent summary_agent risk_agent dispatch true
             loop_failure s eq_refl).
  destruct (dispatch_verdict ENABLE_A2A_DISPATCH MCP_SERVER_B_URL http
              (suggestion_input s)) as (d & Hd & Hin).
  unfold Scheduler.sequential_outcome. fold (suggestion_input s). rewrite Hd.
  cbn [fst snd]. cbv zeta.
  match goal with
  | |- ?x = _ /\ _ => assert (Hstatus : x = status d); [|split; [|rewrite Hstatus]; assumption]
  end.
  destruct d as [? ? ? ? ? ? ? ? ? ? ? ? ? ? ? ? ? ? ? ? ? ? ? ? ? ? ? ? ? ? verdict].
  cbn [status] in Hin |- *.
  destruct (risk_agent (risk_input s)) as [r [er|]];
    destruct (clause_agent s) as [c [ec|]];
    destruct (summary_agent s) as [m [em|]];
    cbn [fst snd fallback Scheduler.failure pause_after app];
    merge_now; expose;
    destruct Hin as [<-|[<-|[<-|[]]]];
    lazy -[app pretty]; reflexivity.
Qed.

End Verdict.

End SchedulerBehaviour.

(** ** Concrete runs of the further properties *)

Section FurtherExamples.

Import Scenarios Runs.

Lemma flaky_fails_once : DispatchRuns.request_failures flaky 1.
Proof.
  intros i Hi. exists connection_refused. destruct i as [|i]; [reflexivity | lia].
Qed.

Lemma never_failed (http : nat -> Dispatch.HttpOutcome) : DispatchRuns.request_failures http 0.
Proof. intros i Hi. lia. Qed.

(** Dispatch switched off: no post, no sleep. *)
Lemma dispatch_only_when_ready_witness :
  let w := snd (Dispatch.process false "http://localhost:8002/mcp" unreachable
                  (DispatchRuns.start processing_state)) in
  Dispatch.posts w = [] /\ Dispatch.sleeps w = []
  /\ status (Dispatch.state w) = "completed".
Proof.
  intros w.
  destruct (dispatch_only_when_ready false "http://localhost:8002/mcp" unreachable
              processing_state) as [[_ Hposts] Hrest].
  destruct (Hrest (or_introl eq_refl)) as (Hsleeps & note & Hstate & _).
  split; [exact (Hposts (or_introl eq_refl))|]. split; [exact Hsleeps|].
  fold w in Hstate. rewrite Hstate. reflexivity.
Defined.



(** The body of the answer is not JSON. *)
Lemma dispatch_unexpected_exception_witness :
  let w := snd (Dispatch.process true "http://localhost:8002/mcp" garbled
                  (DispatchRuns.start processing_state)) in
  length (Dispatch.posts w) = 1%nat
  /\ status (Dispatch.state w) = "error"
  /\ errors (Dispatch.state w)
     = ["A2ADispatchAgent: Expecting value: line 1 column 1 (char 0)"]
  /\ adk_b_response (Dispatch.state w) = None.
Proof.
  intros w.
  destruct (dispatch_unexpected_exception true "http://localhost:8002/mcp" garbled
              processing_state 0 not_json eq_refl eq_refl ltac:(lia)
              (never_failed garbled)
              (or_intror (ex_intro _ 200%Z (conj eq_refl (conj eq_refl eq_refl)))))
    as (_ & Hposts & Hstatus & Herrors & Hresp & _).
  repeat split; assumption.
Defined.

Lemma recovering_fails_once :
  forall i, (i < 1)%nat ->
    exists e, Llm.respond recovering (length (Llm.calls (Llm.module_init clock0)) + i)
                          "clause 1" = Exc e
              /\ Llm._is_retryable true e = true.
Proof.
  intros i Hi. exists unavailable. destruct i as [|i]; [split; reflexivity | lia].
Qed.


(** [max_attempts=-1]: no call of the model. *)
Lemma no_budget_no_call_witness :
  Llm.generate_with_retry empty_environ true digest flash "clause 1" (Some (-1)%Z) 3 true
                          (Llm.module_init clock0)
  = (Exc (RuntimeError "generate_with_retry failed without executing model call"),
     Llm.module_init clock0).
Proof.
  exact (no_budget_no_call empty_environ true digest flash "clause 1" (Some (-1)%Z) 3 true
           (Llm.module_init clock0) ltac:(vm_compute; discriminate)
           ltac:(intros _; reflexivity)).
Defined.



Lemma installed_is_ok : GlobalLimiter.installed_ok installed.
Proof.
  split; [|reflexivity].
  apply install_ok. apply module_init_ok; [unfold steady; simpl; constructor | reflexivity].
Qed.

(** The first gated call after the installation. *)
Lemma gate_returns_within_three_passes_witness :
  (exists w', GlobalLimiter._block_until_slot_sync 3 installed = (Val true, w')
              /\ length (GlobalLimiter.granted w') = 1%nat)
  /\ (exists w', GlobalLimiter._block_until_slot_async 3 installed = (Val true, w')
                 /\ length (GlobalLimiter.granted w') = 1%nat).
Proof.
  exact (gate_returns_within_three_passes installed 3 installed_is_ok ltac:(lia)).
Defined.

(** A model call before the installation, then two installations. *)
Lemma first_install_decides_witness :
  let w := GlobalLimiter.run
             [GlobalLimiter.SyncCall 3; GlobalLimiter.Install 15 4;
              GlobalLimiter.Install 1 60]
             (GlobalLimiter.module_init clock0 (Some genai0)) in
  (GlobalLimiter._MIN_INTERVAL w == 15)%Q
  /\ GlobalLimiter._RPM_LIMIT w = 4%Z
  /\ GlobalLimiter._PATCH_INSTALLED w = true.
Proof.
  intros w.
  destruct (first_install_decides clock0 (Some genai0)
              [GlobalLimiter.SyncCall 3; GlobalLimiter.Install 15 4;
               GlobalLimiter.Install 1 60] eq_refl)
    as (Hmin & _ & Hrpm & Hflag & _).
  split; [exact Hmin|]. split; [exact Hrpm | exact Hflag].
Defined.

(** A clause is found and rated high; dispatch is switched off. *)
Lemma merge_when_all_return_witness :
  let final := Scheduler.deref
                 (snd (Scheduler.process finding_clause returning rating_high
                         dispatch_disabled true None 0%nat
                         (Scheduler.alone processing_state))) 0%nat in
  extracted_clauses final = [one_clause]
  /\ clause_count final = 1%Z
  /\ high_risk_count final = 1%Z
  /\ status final = "completed"
  /\ planning_notes final
     = ["Dispatch disabled via config"; "Dispatch disabled via config"].
Proof.
  intros final.
  destruct (merge_when_all_return finding_clause returning rating_high dispatch_disabled
              true None processing_state _ _ _ _
              ltac:(discriminate) eq_refl eq_refl eq_refl eq_refl)
    as (_ & _ & (Hclauses & Hcount & _) & (_ & Hhigh & _) & Hstatus & _ & Hnotes & _).
  split; [exact Hclauses|]. split; [exact Hcount|]. split; [exact Hhigh|].
  split; [exact Hstatus | exact Hnotes].
Defined.

Lemma modes_agree_when_all_return_witness :
  let sequential := snd (Scheduler.process finding_clause returning rating_high
                           dispatch_disabled true None 0%nat
                           (Scheduler.alone processing_state)) in
  let concurrent := snd (Scheduler.process finding_clause returning rating_high
                           dispatch_disabled false None 0%nat
                           (Scheduler.alone processing_state)) in
  Scheduler.heap sequential = Scheduler.heap concurrent
  /\ Scheduler.pauses sequential = [15; 15; 15]%Z
  /\ Scheduler.pauses concurrent = [].
Proof.
  intros sequential concurrent.
  destruct (modes_agree_when_all_return finding_clause returning rating_high
              dispatch_disabled None processing_state _ _ _ _
              eq_refl eq_refl eq_refl eq_refl)
    as (Hheap & _ & Hseq & Hpar).
  split; [exact Hheap|]. split; [exact Hseq | exact Hpar].
Defined.

(** The clause model is down while the stages run concurrently. *)
Lemma concurrent_clause_failure_witness :
  let w' := snd (Scheduler.process (raising "clause model down") returning rating_high
                   dispatch_disabled false None 0%nat
                   (Scheduler.alone processing_state)) in
  Scheduler.started w' = ["clauses"; "summary"]
  /\ errors (Scheduler.deref w' 0%nat)
     = ["clauses_task: clause model down"; "risk_task: clause model down";
        "suggestion_task: clause model down"]
  /\ status (Scheduler.deref w' 0%nat) = "processing".
Proof.
  intros w'.
  destruct (concurrent_clause_failure (raising "clause model down") returning rating_high
              dispatch_disabled processing_state _ _ eq_refl)
    as (Hstarted & Herrors & (_ & _ & _ & _ & _ & _ & _ & Hstatus & _)).
  split; [exact Hstarted|]. split; [exact Herrors | exact Hstatus].
Defined.

(** The risk model is down while the stages run concurrently. *)
Lemma concurrent_risk_failure_witness :
  let w' := snd (Scheduler.process finding_clause returning (raising "risk model down")
                   dispatch_disabled false None 0%nat
                   (Scheduler.alone processing_state)) in
  Scheduler.started w' = ["clauses"; "summary"; "risk"]
  /\ errors (Scheduler.deref w' 0%nat)
     = ["risk_task: risk model down"; "suggestion_task: risk model down"]
  /\ extracted_clauses (Scheduler.deref w' 0%nat) = [one_clause]
  /\ status (Scheduler.deref w' 0%nat) = "processing".
Proof.
  intros w'.
  destruct (concurrent_risk_failure finding_clause returning (raising "risk model down")
              dispatch_disabled processing_state _ _ _ eq_refl eq_refl)
    as (Hstarted & Herrors & (Hclauses & _) & (_ & _ & _ & _ & _ & Hstatus & _)).
  split; [exact Hstarted|]. split; [exact Herrors|]. split; [exact Hclauses | exact Hstatus].
Defined.

End FurtherExamples.
